(** * tmpl: configuration resolution and path mapping

    A shallow embedding of the configuration loader ([config.parse]), the
    YAML deep merge ([utils.merge_yaml_data]), the path specification
    expander ([utils.parse_file_paths]), the path resolver
    ([utils.get_path]) and the mapping computer ([config.compute_mapping])
    of the [tmpl] package ([src/tmpl/utils.py], [src/tmpl/config.py]),
    with the properties of its specification proved or refuted against
    the embedding.

    Conventions.
    - A Python [str] is a [list ascii]; the model covers ASCII text, and
      [\w] and [\d] are the ASCII word characters and digits.
    - A Python exception is a value of type [error]; a function that may
      raise returns a [result].
    - A YAML document is a tree ([yaml]); [merge_yaml_data] is modelled
      a second time on a store of mutable objects ([Module Heap]), and
      the two models are related by [merge_on_store_refines].
    - The file system, the YAML parser and the process environment are
      the fields of a record [Env].
    - [os.path] is POSIX [posixpath], transcribed in [Module PosixPath]. *)

From Stdlib Require Import Ascii String DecimalString Decimal DecimalNat List Arith ZArith Lia Bool.
From stdpp Require Import base option list.

Open Scope string_scope.
Open Scope list_scope.

Abbreviation str := (list ascii).

Definition lit (s : string) : str := list_ascii_of_string s.
Coercion lit : string >-> list.
Arguments lit : simpl never.

(** ** Python exceptions *)

(** Built-in exceptions that the modelled code lets escape. *)
Inductive builtin_exc :=
| KeyError | TypeError | AttributeError | ValueError | IndexError
| UnboundLocalError | RecursionError.

(** One constructor per [raise Exception(...)] site of [utils.py] and
    [config.py], named after its message. *)
Inductive error :=
| Builtin (b : builtin_exc)
  (* utils.parse_file_paths *)
| GlobbingException
| ShoelacesCrossed
| InvalidListExpression
| InvalidRangeExpression
| UpperNotGreaterThanLower
| NoRangeOrListExpression
| UnbalancedBrackets
  (* config.compute_mapping *)
| SrcMappingError (cause : error)
| SrcNoValidPaths
| SrcNotExisting (p : str)
| DstMappingError (cause : error)
| DstNoValidPaths
| DstExpansionWithSrc
| SymlinkWithExpansion
  (* config.parse, config.get_lib_paths *)
| ConfNotExisting (p : str)
| ConfUnableToOpen (p : str)
| ConfUnableToParse (p : str)
| ConfNotDict (p : str)
| IncludeNotList (p : str)
| IncludeSpecError (p : str) (cause : error)
| LibPathsError (cause : error).

Inductive result (A : Type) :=
| Ok (a : A)
| Err (e : error).
Arguments Ok {A} a.
Arguments Err {A} e.

Definition bind {A B} (r : result A) (k : A -> result B) : result B :=
  match r with
  | Ok a => k a
  | Err e => Err e
  end.

Notation "'do' x <- r ; k" := (bind r (fun x => k))
  (at level 10, x name, r at level 100, k at level 200).

(** [try: r  except Exception as e: raise Exception(wrap e)] *)
Definition rethrow {A} (wrap : error -> error) (r : result A) : result A :=
  match r with
  | Ok a => Ok a
  | Err e => Err (wrap e)
  end.

(** ** Python string operations *)

Module PyStr.

Fixpoint eqb (a b : str) : bool :=
  match a, b with
  | [], [] => true
  | x :: a', y :: b' => Ascii.eqb x y && eqb a' b'
  | _, _ => false
  end.

(** [c in s] for a one-character [c]. *)
Fixpoint has (c : ascii) (s : str) : bool :=
  match s with
  | [] => false
  | x :: s' => Ascii.eqb x c || has c s'
  end.

(** [s.startswith(p)] *)
Fixpoint startswith (p s : str) : bool :=
  match p, s with
  | [], _ => true
  | x :: p', y :: s' => Ascii.eqb x y && startswith p' s'
  | _ :: _, [] => false
  end.

(** [p in s] for a substring [p]. *)
Fixpoint contains (p s : str) : bool :=
  startswith p s ||
  match s with
  | [] => false
  | _ :: s' => contains p s'
  end.

(** [s.endswith(p)] *)
Definition endswith (p s : str) : bool := startswith (rev p) (rev s).

(** [s.split(c, 1)]: the text before the first [c] and, when [c]
    occurs, the text after it. *)
Fixpoint split1 (c : ascii) (s : str) : str * option str :=
  match s with
  | [] => ([], None)
  | x :: s' =>
      if Ascii.eqb x c then ([], Some s')
      else let '(a, b) := split1 c s' in (x :: a, b)
  end.

(** [s.split(c)] *)
Fixpoint split (c : ascii) (s : str) : list str :=
  match s with
  | [] => [[]]
  | x :: s' =>
      if Ascii.eqb x c then [] :: split c s'
      else match split c s' with
           | [] => [[x]]
           | w :: ws => (x :: w) :: ws
           end
  end.

(** [sep.join(parts)] *)
Fixpoint join (sep : str) (parts : list str) : str :=
  match parts with
  | [] => []
  | [p] => p
  | p :: ps => p ++ sep ++ join sep ps
  end.

(** [s.lstrip(c)] *)
Fixpoint lstrip (c : ascii) (s : str) : str :=
  match s with
  | x :: s' => if Ascii.eqb x c then lstrip c s' else s
  | [] => []
  end.

(** [s.rstrip(c)] *)
Definition rstrip (c : ascii) (s : str) : str := rev (lstrip c (rev s)).

(** The scan of [s.replace(old, new)] for a non-empty [old]: left to
    right, occurrences do not overlap.  [skip] counts the characters of
    an occurrence just replaced that are still to be dropped. *)
Fixpoint replace_scan (old new : str) (skip : nat) (s : str) : str :=
  match s with
  | [] => []
  | c :: s' =>
      match skip with
      | S k => replace_scan old new k s'
      | O =>
          if startswith old s
          then new ++ replace_scan old new (length old - 1) s'
          else c :: replace_scan old new 0 s'
      end
  end.

(** [s.replace(old, new)]; an empty [old] matches between all
    characters. *)
Definition replace (old new s : str) : str :=
  match old with
  | [] => new ++ flat_map (fun c => c :: new) s
  | _ => replace_scan old new 0 s
  end.

(** [str(n)] for a non-negative integer. *)
Definition of_nat (n : nat) : str :=
  list_ascii_of_string (NilZero.string_of_uint (Nat.to_uint n)).

Definition is_digit (c : ascii) : bool :=
  let n := nat_of_ascii c in Nat.leb 48 n && Nat.leb n 57.

(** [int(s)] for a string of ASCII digits. *)
Definition to_nat (s : str) : nat :=
  fold_left (fun acc c => 10 * acc + (nat_of_ascii c - 48)) s 0.

End PyStr.

(** ** YAML documents *)

(** The value of [yaml.safe_load]: scalars, sequences and mappings.
    A mapping is a Python [dict]: an association list in insertion order
    whose keys are distinct.  Keys are strings. *)
#[warning="-register-all"]
Inductive yaml :=
| YNull
| YBool (b : bool)
| YInt (z : Z)
| YStr (s : str)
| YList (l : list yaml)
| YDict (d : list (str * yaml)).

Abbreviation dict := (list (str * yaml)).

(** [d.get(k)]; [k in d] is [dict_has]. *)
Fixpoint dict_get {V} (k : str) (d : list (str * V)) : option V :=
  match d with
  | [] => None
  | (k', v) :: d' => if PyStr.eqb k' k then Some v else dict_get k d'
  end.

Definition dict_has {V} (k : str) (d : list (str * V)) : bool :=
  match dict_get k d with Some _ => true | None => false end.

(** [d[k] = v]: an existing key keeps its position, a new key goes last. *)
Fixpoint dict_set {V} (k : str) (v : V) (d : list (str * V)) : list (str * V) :=
  match d with
  | [] => [(k, v)]
  | (k', v') :: d' =>
      if PyStr.eqb k' k then (k', v) :: d' else (k', v') :: dict_set k v d'
  end.

(** [v[k]] for a string key [k]: only a mapping can be subscripted with
    a string. *)
Definition getitem (v : yaml) (k : str) : result yaml :=
  match v with
  | YDict d =>
      match dict_get k d with
      | Some x => Ok x
      | None => Err (Builtin KeyError)
      end
  | _ => Err (Builtin TypeError)
  end.

(** [k in v] for a mapping [v]. *)
Definition contains_key (k : str) (v : yaml) : bool :=
  match v with
  | YDict d => dict_has k d
  | _ => false
  end.

(** [for x in v]: a list yields its items, a string its characters, a
    mapping its keys; other values are not iterable. *)
Definition iter_values (v : yaml) : result (list yaml) :=
  match v with
  | YList l => Ok l
  | YStr s => Ok (map (fun c => YStr [c]) s)
  | YDict d => Ok (map (fun kv => YStr (fst kv)) d)
  | _ => Err (Builtin TypeError)
  end.

(** ** posixpath *)

(** The functions of Python's [posixpath] that the package calls,
    transcribed from the standard library. *)
Module PosixPath.

Definition isabs (p : str) : bool := PyStr.startswith "/" p.

(** [os.path.join(a, b)] *)
Definition join (a b : str) : str :=
  if PyStr.startswith "/" b then b
  else if PyStr.eqb a "" || PyStr.endswith "/" a then a ++ b
  else a ++ "/" ++ b.

(** [os.path.join(a, *ps)] *)
Definition join_all (a : str) (ps : list str) : str := fold_left join ps a.

Definition is_nil {A} (l : list A) : bool :=
  match l with [] => true | _ => false end.

(** One round of the loop of [normpath] over the components. *)
Definition normpath_step (initial_slashes : nat) (new_comps : list str)
    (comp : str) : list str :=
  if PyStr.eqb comp "" || PyStr.eqb comp "." then new_comps
  else if negb (PyStr.eqb comp "..")
          || (Nat.eqb initial_slashes 0 && is_nil new_comps)
          || (negb (is_nil new_comps) && PyStr.eqb (List.last new_comps []) "..")
       then new_comps ++ [comp]
  else if negb (is_nil new_comps) then removelast new_comps
  else new_comps.

Definition initial_slashes (path : str) : nat :=
  if PyStr.startswith "/" path then
    if PyStr.startswith "//" path && negb (PyStr.startswith "///" path)
    then 2 else 1
  else 0.

(** [os.path.normpath(path)] *)
Definition normpath (path : str) : str :=
  if PyStr.eqb path "" then "."
  else
    let n := initial_slashes path in
    let comps := fold_left (normpath_step n) (PyStr.split "/" path) [] in
    let path := repeat "/"%char n ++ PyStr.join "/" comps in
    if PyStr.eqb path "" then "." else path.

(** [os.path.abspath(path)] in the working directory [cwd]. *)
Definition abspath (cwd path : str) : str :=
  normpath (if isabs path then path else join cwd path).

Fixpoint drop_to_slash (r : str) : str :=
  match r with
  | [] => []
  | c :: r' => if Ascii.eqb c "/" then r else drop_to_slash r'
  end.

(** [os.path.dirname(p)]: the text up to the last slash, without its
    trailing slashes unless it is made of slashes only. *)
Definition dirname (p : str) : str :=
  let head := rev (drop_to_slash (rev p)) in
  if negb (PyStr.eqb head "") && negb (forallb (Ascii.eqb "/") head)
  then PyStr.rstrip "/" head
  else head.

(** The length of [os.path.commonprefix([a, b])] for two lists of
    components: the number of leading positions at which they agree. *)
Fixpoint common_len (a b : list str) : nat :=
  match a, b with
  | x :: a', y :: b' => if PyStr.eqb x y then S (common_len a' b') else 0
  | _, _ => 0
  end.

Definition nonempty_parts (p : str) : list str :=
  List.filter (fun x => negb (PyStr.eqb x "")) (PyStr.split "/" p).

(** [os.path.relpath(path, start)] in the working directory [cwd]. *)
Definition relpath (cwd path start : str) : result str :=
  if PyStr.eqb path "" then Err (Builtin ValueError)
  else
    let start_list := nonempty_parts (abspath cwd start) in
    let path_list := nonempty_parts (abspath cwd path) in
    let i := common_len start_list path_list in
    let rel_list := repeat (".." : str) (length start_list - i) ++ skipn i path_list in
    match rel_list with
    | [] => Ok (lit ".")
    | a :: ps => Ok (join_all a ps)
    end.

End PosixPath.

(** ** The environment *)

(** What the package reads from outside: the module global
    [utils.TEMPLATE_DIR], the working directory, the file system and the
    YAML parser. *)
Record Env := {
  TEMPLATE_DIR : str;
  getcwd : str;
  (** [os.path.expanduser] *)
  expanduser : str -> str;
  (** [os.path.exists] *)
  path_exists : str -> bool;
  (** [os.path.isfile] *)
  isfile : str -> bool;
  (** [os.path.realpath] *)
  realpath : str -> str;
  (** [glob.glob(pattern)]; [None] when it raises *)
  glob : str -> option (list str);
  (** [pathlib.Path(base).glob(pattern)] as POSIX strings; [None] when it
      raises *)
  path_glob : str -> str -> option (list str);
  (** [open(path).read()]; [None] when it raises *)
  read_file : str -> option str;
  (** [yaml.safe_load(text)]; [None] when it raises *)
  safe_load : str -> option yaml
}.

Module Utils.

(** [utils.get_path] on strings. *)
Definition get_path (env : Env) (template_path : str) (base_path : str) : str :=
  if PyStr.startswith "/" template_path then template_path
  else if PyStr.startswith "~" template_path then expanduser env template_path
  else if negb (PyStr.eqb base_path "") then
    if PyStr.contains "../" base_path
    then PosixPath.abspath (getcwd env) (PosixPath.join base_path template_path)
    else PosixPath.normpath (PosixPath.join base_path template_path)
  else PosixPath.normpath (PosixPath.join (TEMPLATE_DIR env) template_path).

(** [utils.get_path] on a value of the configuration: a value that is
    not a string has no [startswith]. *)
Definition get_path_of (env : Env) (v : yaml) (base_path : str) : result str :=
  match v with
  | YStr s => Ok (get_path env s base_path)
  | _ => Err (Builtin AttributeError)
  end.

(** *** The regular expressions *)

(** [\w] on ASCII text. *)
Definition is_word (c : ascii) : bool :=
  let n := nat_of_ascii c in
  (Nat.leb 48 n && Nat.leb n 57) || (Nat.leb 65 n && Nat.leb n 90)
  || (Nat.leb 97 n && Nat.leb n 122) || Nat.eqb n 95.

(** The class [[/\w\.\-\ ]]. *)
Definition path_char (c : ascii) : bool :=
  is_word c || Ascii.eqb c "/" || Ascii.eqb c "." || Ascii.eqb c "-"
  || Ascii.eqb c " ".

(** The class [[/\w\.\-\ ,]]. *)
Definition list_char (c : ascii) : bool := path_char c || Ascii.eqb c ",".

(** The longest prefix of [s] in the class [f], and the rest. *)
Fixpoint span (f : ascii -> bool) (s : str) : str * str :=
  match s with
  | [] => ([], [])
  | c :: s' =>
      if f c then let '(a, b) := span f s' in (c :: a, b) else ([], s)
  end.

Definition newline : ascii := ascii_of_nat 10.

(** [$]: the end of the text, or the position before a newline that
    ends it. *)
Definition at_end (s : str) : bool :=
  match s with
  | [] => true
  | [c] => Ascii.eqb c newline
  | _ => false
  end.

(** The groups of a match of [RANGE_REGEX]. *)
Record range_groups := { r_expr : str; r_lower : str; r_upper : str }.

(** [RANGE_REGEX.match(s)], for
    [^[/\w\.\-\ ]*(?P<expr>\[(?P<lower>\d+)\-(?P<upper>\d+)\])[/\w\.\-\ ]*$].
    No class of the expression contains the character that must follow
    it, so each repetition takes the longest run. *)
Definition RANGE_REGEX (s : str) : option range_groups :=
  let '(_, s1) := span path_char s in
  match s1 with
  | "["%char :: s2 =>
      let '(lower, s3) := span PyStr.is_digit s2 in
      match lower, s3 with
      | _ :: _, "-"%char :: s4 =>
          let '(upper, s5) := span PyStr.is_digit s4 in
          match upper, s5 with
          | _ :: _, "]"%char :: s6 =>
              let '(_, s7) := span path_char s6 in
              if at_end s7
              then Some {| r_expr := "[" ++ lower ++ "-" ++ upper ++ "]";
                           r_lower := lower; r_upper := upper |}
              else None
          | _, _ => None
          end
      | _, _ => None
      end
  | _ => None
  end.

(** [LIST_REGEX.match(s)], for
    [^[/\w\.\-\ ]*(?P<expr>\[(?P<inner>[/\w\.\-\ ,]+)\])[/\w\.\-\ ]*$];
    the result is the group [expr]. *)
Definition LIST_REGEX (s : str) : option str :=
  let '(_, s1) := span path_char s in
  match s1 with
  | "["%char :: s2 =>
      let '(inner, s3) := span list_char s2 in
      match inner, s3 with
      | _ :: _, "]"%char :: s4 =>
          let '(_, s5) := span path_char s4 in
          if at_end s5 then Some ("[" ++ inner ++ "]") else None
      | _, _ => None
      end
  | _ => None
  end.

Definition of_option {A} (e : error) (o : option A) : result A :=
  match o with
  | Some a => Ok a
  | None => Err e
  end.

(** [range(lb, ub + 1)] *)
Definition range_incl (lb ub : nat) : list nat := seq lb (ub + 1 - lb).

(** [utils.parse_file_paths] *)
Definition parse_file_paths (env : Env) (path_spec : str) : result (list str) :=
  if negb (PyStr.has "*" path_spec) && negb (PyStr.has "[" path_spec)
     && negb (PyStr.has "]" path_spec)
  then Ok [path_spec]
  else if PyStr.has "*" path_spec then
    if negb (PyStr.contains "**" path_spec)
    then of_option GlobbingException (glob env path_spec)
    else
      let '(base_path, altered_path_spec) :=
        if PyStr.startswith "/" path_spec
        then (lit "/", PyStr.lstrip "/" path_spec)
        else (lit ".", path_spec) in
      do fs <- of_option GlobbingException (path_glob env base_path altered_path_spec);
      Ok (List.filter (isfile env) fs)
  else if PyStr.has "[" path_spec && PyStr.has "]" path_spec then
    do guts <- of_option (Builtin IndexError) (snd (PyStr.split1 "[" path_spec));
    if negb (PyStr.has "]" guts) then Err ShoelacesCrossed
    else
      let guts := fst (PyStr.split1 "]" guts) in
      if PyStr.has "," guts then
        match LIST_REGEX path_spec with
        | None => Err InvalidListExpression
        | Some expr =>
            let parts := PyStr.split "," (removelast (tl expr)) in
            Ok (map (fun p => PyStr.replace expr p path_spec)
                    (List.filter (fun p => negb (PyStr.eqb p "")) parts))
        end
      else if PyStr.has "-" guts then
        match RANGE_REGEX path_spec with
        | None => Err InvalidRangeExpression
        | Some m =>
            let expr := r_expr m in
            let lb := PyStr.to_nat (r_lower m) in
            let ub := PyStr.to_nat (r_upper m) in
            if negb (Nat.ltb lb ub) then Err UpperNotGreaterThanLower
            else Ok (map (fun i => PyStr.replace expr (PyStr.of_nat i) path_spec)
                         (range_incl lb ub))
        end
      else Err NoRangeOrListExpression
  else Err UnbalancedBrackets.

(** [utils.merge_yaml_data].  The loop over [data2.items()] is the inner
    [fix]; [return_dict] starts as the copy of [data1]. *)
Fixpoint merge_yaml_data (data1 data2 : yaml) {struct data2} : yaml :=
  match data1, data2 with
  | YStr _, YStr _ => data2
  | YList l1, YList l2 => YList (l1 ++ l2)
  | YDict d1, YDict d2 =>
      YDict
        ((fix items (d2 : dict) (return_dict : dict) {struct d2} : dict :=
            match d2 with
            | [] => return_dict
            | (key, val) :: rest =>
                items rest
                  (match dict_get key return_dict with
                   | Some old => dict_set key (merge_yaml_data old val) return_dict
                   | None => dict_set key val return_dict
                   end)
            end) d2 d1)
  | _, _ => data2
  end.

(** The loop of the mapping case, as a function of its own. *)
Fixpoint merge_items (d2 : dict) (return_dict : dict) : dict :=
  match d2 with
  | [] => return_dict
  | (key, val) :: rest =>
      merge_items rest
        (match dict_get key return_dict with
         | Some old => dict_set key (merge_yaml_data old val) return_dict
         | None => dict_set key val return_dict
         end)
  end.

End Utils.

(** ** config.py *)

Module Config.

(** One element of the list that [compute_mapping] returns.  [chmod],
    [chown], [dst_key] and [translate] are values of the configuration,
    passed through. *)
Record path_mapping := {
  chmod : yaml;
  chown : yaml;
  dst_key : yaml;
  full_dst : str;
  full_lnk : str;
  full_src : str;
  full_wrk : str;
  rel_dst : str;
  rel_lnk : str;
  rel_src : str;
  translate : yaml
}.

(** The local variables of [compute_mapping] that an iteration of its
    loop can read without having assigned them: [None] is a name not yet
    bound, and a value bound by an earlier iteration stays bound. *)
Record locals := {
  spec_full_lnk : option str;
  spec_rel_lnk : option str
}.

Definition unbound : locals := {| spec_full_lnk := None; spec_rel_lnk := None |}.

(** Reading a local variable. *)
Definition load_name (v : option str) : result str :=
  match v with
  | Some s => Ok s
  | None => Err (Builtin UnboundLocalError)
  end.

(** [[f(x) for x in xs]] *)
Fixpoint traverse {A B} (f : A -> result B) (xs : list A) : result (list B) :=
  match xs with
  | [] => Ok []
  | x :: xs' => do y <- f x; do ys <- traverse f xs'; Ok (y :: ys)
  end.

(** [for p in ps: if not os.path.exists(p): raise ...] *)
Fixpoint check_exist (env : Env) (wrap : str -> error) (ps : list str) : result unit :=
  match ps with
  | [] => Ok tt
  | p :: ps' => if path_exists env p then check_exist env wrap ps' else Err (wrap p)
  end.

(** [spec[k] if k in spec else default] *)
Definition get_default (k : str) (spec : yaml) (default : yaml) : result yaml :=
  if contains_key k spec then getitem spec k else Ok default.

Section compute_mapping.
Variable env : Env.
Variables output_dir working_dir : str.

Definition relpath := PosixPath.relpath (getcwd env).

(** The body of the loop for a specification with a [src] key. *)
Definition map_src (spec spec_dst : yaml) (vars : locals)
    : result (locals * list path_mapping) :=
  do spec_full_srcs <-
    rethrow SrcMappingError
      (do src <- getitem spec "src";
       do p <- Utils.get_path_of env src "";
       Utils.parse_file_paths env p);
  if PosixPath.is_nil spec_full_srcs then Err SrcNoValidPaths else
  do spec_rel_srcs <- traverse (fun p => relpath p (TEMPLATE_DIR env)) spec_full_srcs;
  do _ <- check_exist env SrcNotExisting spec_full_srcs;
  do spec_full_dsts <-
    rethrow DstMappingError
      (do p <- Utils.get_path_of env spec_dst output_dir;
       Utils.parse_file_paths env p);
  match spec_full_dsts with
  | [] => Err DstNoValidPaths
  | _ :: _ :: _ => Err DstExpansionWithSrc
  | [spec_full_dst] =>
      do spec_rel_dst <- relpath spec_full_dst output_dir;
      let spec_full_wrk := PosixPath.join working_dir spec_rel_dst in
      do vars <-
        (if contains_key "symlink" spec then
           if Nat.ltb 1 (length spec_full_srcs) then Err SymlinkWithExpansion
           else
             (* the two assignments that follow the [raise] are part of
                the block of the [if] above and are never executed *)
             Ok vars
         else Ok {| spec_full_lnk := Some (lit ""); spec_rel_lnk := Some (lit "") |});
      do ms <-
        traverse
          (fun '(full_src, rel_src) =>
             do chmod <- get_default "chmod" spec (YStr "");
             do chown <- get_default "chown" spec (YStr "");
             do full_lnk <- load_name (spec_full_lnk vars);
             do rel_lnk <- load_name (spec_rel_lnk vars);
             do translate <- get_default "translate" spec (YBool true);
             Ok {| chmod := chmod; chown := chown; dst_key := spec_dst;
                   full_dst := spec_full_dst; full_lnk := full_lnk;
                   full_src := full_src; full_wrk := spec_full_wrk;
                   rel_dst := spec_rel_dst; rel_lnk := rel_lnk;
                   rel_src := rel_src; translate := translate |})
          (combine spec_full_srcs spec_rel_srcs);
      Ok (vars, ms)
  end.

(** The body of the loop for a specification without a [src] key. *)
Definition map_dst (spec spec_dst : yaml) (vars : locals)
    : result (locals * list path_mapping) :=
  do spec_full_srcs <-
    rethrow SrcMappingError
      (do p <- Utils.get_path_of env spec_dst "";
       Utils.parse_file_paths env p);
  if PosixPath.is_nil spec_full_srcs then Err SrcNoValidPaths else
  do spec_rel_srcs <- traverse (fun p => relpath p (TEMPLATE_DIR env)) spec_full_srcs;
  do _ <- check_exist env SrcNotExisting spec_full_srcs;
  let spec_rel_dsts := spec_rel_srcs in
  let spec_full_dsts := map (PosixPath.join output_dir) spec_rel_dsts in
  let spec_full_wrks := map (PosixPath.join working_dir) spec_rel_dsts in
  do vars <-
    (if contains_key "symlink" spec then
       if Nat.ltb 1 (length spec_full_srcs) then Err SymlinkWithExpansion
       else
         do symlink <- getitem spec "symlink";
         do lnk <- Utils.get_path_of env symlink output_dir;
         do rel <- relpath lnk output_dir;
         Ok {| spec_full_lnk := Some lnk; spec_rel_lnk := Some rel |}
     else Ok {| spec_full_lnk := Some (lit ""); spec_rel_lnk := Some (lit "") |});
  do ms <-
    traverse
      (fun '(full_dst, (full_src, (full_wrk, (rel_dst, rel_src)))) =>
         do chmod <- get_default "chmod" spec (YStr "");
         do chown <- get_default "chown" spec (YStr "");
         do full_lnk <- load_name (spec_full_lnk vars);
         do rel_lnk <- load_name (spec_rel_lnk vars);
         do translate <- get_default "translate" spec (YBool true);
         Ok {| chmod := chmod; chown := chown; dst_key := spec_dst;
               full_dst := full_dst; full_lnk := full_lnk;
               full_src := full_src; full_wrk := full_wrk;
               rel_dst := rel_dst; rel_lnk := rel_lnk;
               rel_src := rel_src; translate := translate |})
      (combine spec_full_dsts
         (combine spec_full_srcs
            (combine spec_full_wrks (combine spec_rel_dsts spec_rel_srcs))));
  Ok (vars, ms).

(** One iteration of [for spec in conf['files']]. *)
Definition map_spec (spec : yaml) (vars : locals) : result (locals * list path_mapping) :=
  do spec_dst <- getitem spec "dst";
  if contains_key "src" spec
  then map_src spec spec_dst vars
  else map_dst spec spec_dst vars.

(** The loop, with the list [mapping] built so far. *)
Fixpoint map_specs (specs : list yaml) (vars : locals) (mapping : list path_mapping)
    : result (list path_mapping) :=
  match specs with
  | [] => Ok mapping
  | spec :: specs' =>
      do r <- map_spec spec vars;
      map_specs specs' (fst r) (mapping ++ snd r)
  end.

(** [config.compute_mapping] *)
Definition compute_mapping (conf : yaml) : result (list path_mapping) :=
  do files <- getitem conf "files";
  do specs <- iter_values files;
  map_specs specs unbound [].

End compute_mapping.

(** [flatten(f(p) for p in ps)] *)
Fixpoint flatten_map {A} (f : A -> result (list str)) (ps : list A) : result (list str) :=
  match ps with
  | [] => Ok []
  | p :: ps' => do xs <- f p; do ys <- flatten_map f ps'; Ok (xs ++ ys)
  end.

(** [config.get_lib_paths] *)
Definition get_lib_paths (env : Env) (conf : yaml) : result (list str) :=
  if negb (contains_key "lib" conf) then Ok []
  else
    do f <- getitem conf "template_configuration_file";
    do path_dir <-
      match f with
      | YStr s => Ok (PosixPath.dirname s)
      | _ => Err (Builtin TypeError)
      end;
    rethrow LibPathsError
      (do lib <- getitem conf "lib";
       do ps <- iter_values lib;
       flatten_map
         (fun p => do q <- Utils.get_path_of env p path_dir;
                   Utils.parse_file_paths env q) ps).

(** [data[k] = v] *)
Definition setitem (data : yaml) (k : str) (v : yaml) : result yaml :=
  match data with
  | YDict d => Ok (YDict (dict_set k v d))
  | _ => Err (Builtin TypeError)
  end.

(** [config.parse].  [depth] bounds the nesting of the recursive calls, as
    the recursion limit of the interpreter does. *)
Fixpoint parse (depth : nat) (env : Env) (path : str) : result yaml :=
  match depth with
  | O => Err (Builtin RecursionError)
  | S depth' =>
      if negb (isfile env path) then Err (ConfNotExisting path) else
      do conf_raw <- Utils.of_option (ConfUnableToOpen path) (read_file env path);
      do data <- Utils.of_option (ConfUnableToParse path) (safe_load env conf_raw);
      match data with
      | YDict d =>
          match dict_get "include" d with
          | None => Ok data
          | Some (YList include) =>
              let path_dir := PosixPath.dirname path in
              do flat_includes <-
                rethrow (IncludeSpecError path)
                  (flatten_map
                     (fun p => do q <- Utils.get_path_of env p path_dir;
                               Utils.parse_file_paths env q) include);
              do data <-
                (fix includes (incs : list str) (data : yaml) : result yaml :=
                   match incs with
                   | [] => Ok data
                   | i :: incs' =>
                       do idata <- parse depth' env i;
                       includes incs' (Utils.merge_yaml_data data idata)
                   end) flat_includes data;
              setitem data "template_configuration_file" (YStr (realpath env path))
          | Some _ => Err (IncludeNotList path)
          end
      | _ => Err (ConfNotDict path)
      end
  end.

(** The loop [for i in flat_includes] of [parse], as a function of its
    own; [parse_rec] is the recursive call. *)
Definition merge_includes (parse_rec : str -> result yaml)
    : list str -> yaml -> result yaml :=
  fix includes (incs : list str) (data : yaml) : result yaml :=
    match incs with
    | [] => Ok data
    | i :: incs' =>
        do idata <- parse_rec i;
        includes incs' (Utils.merge_yaml_data data idata)
    end.

(** The recursion limit of CPython, the depth used in the examples. *)
Definition recursion_limit : nat := 1000.

End Config.

(** ** merge_yaml_data on the store *)

(** [merge_yaml_data] once more, on a store of mutable objects: a list
    or a mapping is a reference to an object of the store, [copy]
    allocates, [extend] and item assignment write. *)
Module Heap.

Abbreviation loc := nat.

Inductive val :=
| VNone
| VBool (b : bool)
| VInt (z : Z)
| VStr (s : str)
| VRef (l : loc).

Inductive obj :=
| OList (items : list val)
| ODict (items : list (str * val)).

Abbreviation heap := (list obj).

(** A new object gets the next free location. *)
Definition alloc (o : obj) (h : heap) : loc * heap := (length h, h ++ [o]).

(** [x.copy()] for a list or a mapping: a new object with the same
    items. *)
Definition copy (l : loc) (h : heap) : option (loc * heap) :=
  match h !! l with
  | Some o => Some (alloc o h)
  | None => None
  end.

(** [a.extend(b)] *)
Definition extend (a b : loc) (h : heap) : option heap :=
  match h !! a, h !! b with
  | Some (OList xs), Some (OList ys) => Some (<[a := OList (xs ++ ys)]> h)
  | _, _ => None
  end.

(** [d[k] = v] *)
Definition store_item (d : loc) (k : str) (v : val) (h : heap) : option heap :=
  match h !! d with
  | Some (ODict items) => Some (<[d := ODict (dict_set k v items)]> h)
  | _ => None
  end.

(** [utils.merge_yaml_data].  [fuel] bounds the depth of the recursion
    and the number of rounds of the loop; the loop reads the item at
    position [i] of [data2] from the store at every round. *)
Fixpoint merge_yaml_data (fuel : nat) (data1 data2 : val) (h : heap)
    : option (val * heap) :=
  match fuel with
  | O => None
  | S fuel' =>
      match data1, data2 with
      | VStr _, VStr _ => Some (data2, h)
      | VRef l1, VRef l2 =>
          match h !! l1, h !! l2 with
          | Some (OList _), Some (OList _) =>
              '(return_list, h) ← copy l1 h;
              '(tmp, h) ← copy l2 h;
              h ← extend return_list tmp h;
              Some (VRef return_list, h)
          | Some (ODict _), Some (ODict _) =>
              '(return_dict, h) ← copy l1 h;
              h ← (fix items (n i : nat) (h : heap) {struct n} : option heap :=
                     match n with
                     | O => None
                     | S n' =>
                         d2 ← h !! l2;
                         match d2 with
                         | ODict kvs =>
                             match kvs !! i with
                             | None => Some h
                             | Some (key, val) =>
                                 r ← h !! return_dict;
                                 match r with
                                 | ODict cur =>
                                     match dict_get key cur with
                                     | Some old =>
                                         '(m, h) ← merge_yaml_data fuel' old val h;
                                         h ← store_item return_dict key m h;
                                         items n' (S i) h
                                     | None =>
                                         h ← store_item return_dict key val h;
                                         items n' (S i) h
                                     end
                                 | OList _ => None
                                 end
                             end
                         | OList _ => None
                         end
                     end) fuel' 0 h;
              Some (VRef return_dict, h)
          | Some _, Some _ => Some (data2, h)
          | _, _ => None
          end
      | _, _ => Some (data2, h)
      end
  end.

(** The loop of the mapping case, as a function of its own. *)
Definition merge_items (fuel : nat) (l2 return_dict : loc)
    : nat -> nat -> heap -> option heap :=
  fix items (n i : nat) (h : heap) {struct n} : option heap :=
    match n with
    | O => None
    | S n' =>
        d2 ← h !! l2;
        match d2 with
        | ODict kvs =>
            match kvs !! i with
            | None => Some h
            | Some (key, val) =>
                r ← h !! return_dict;
                match r with
                | ODict cur =>
                    match dict_get key cur with
                    | Some old =>
                        '(m, h) ← merge_yaml_data fuel old val h;
                        h ← store_item return_dict key m h;
                        items n' (S i) h
                    | None =>
                        h ← store_item return_dict key val h;
                        items n' (S i) h
                    end
                | OList _ => None
                end
            end
        | OList _ => None
        end
    end.

(** The document that a value denotes in a store, read to depth [n]
    through the objects at the locations in [dom] only. *)
Fixpoint reify_in (dom : loc -> bool) (n : nat) (h : heap) (v : val) : option yaml :=
  match n with
  | O => None
  | S n' =>
      match v with
      | VNone => Some YNull
      | VBool b => Some (YBool b)
      | VInt z => Some (YInt z)
      | VStr s => Some (YStr s)
      | VRef l =>
          if dom l then
            o ← h !! l;
            match o with
            | OList items => YList <$> mapM (reify_in dom n' h) items
            | ODict items =>
                YDict <$> mapM (fun kv => pair (fst kv) <$> reify_in dom n' h (snd kv)) items
            end
          else None
      end
  end.

(** The document that a value denotes in a store. *)
Definition reify : nat -> heap -> val -> option yaml := reify_in (fun _ => true).

(** The items of a mapping object, read through [dom]. *)
Definition reify_items (dom : loc -> bool) (n : nat) (h : heap) (kvs : list (str * val))
    : option dict :=
  mapM (fun kv => pair (fst kv) <$> reify_in dom n h (snd kv)) kvs.

(** [dom] with the locations from [lo] up to [hi]. *)
Definition dom_new (dom : loc -> bool) (lo hi : nat) : loc -> bool :=
  fun l => dom l || bool_decide (lo <= l < hi).

End Heap.

(** The statement that the merge on the store refines the merge on
    documents, for arguments read to depth [n] through [dom]. *)
Definition refines_at (n : nat) : Prop :=
  forall dom h d1 d2 t1 t2,
    (forall l, dom l = true -> l < length h) ->
    Heap.reify_in dom n h d1 = Some t1 ->
    Heap.reify_in dom n h d2 = Some t2 ->
    exists fuel r h',
      Heap.merge_yaml_data fuel d1 d2 h = Some (r, h')
      /\ Heap.reify_in (Heap.dom_new dom (length h) (length h')) n h' r
         = Some (Utils.merge_yaml_data t1 t2).

(** ** Vocabulary of the specification *)

(** A path specification with one range expression,
    [prefix[lo-hi]suffix]. *)
Definition range_spec (pre lo hi suf : str) : str :=
  pre ++ "[" ++ lo ++ "-" ++ hi ++ "]" ++ suf.

(** A path specification with one list expression,
    [prefix[part,...,part]suffix]. *)
Definition list_spec (pre : str) (parts : list str) (suf : str) : str :=
  pre ++ "[" ++ PyStr.join "," parts ++ "]" ++ suf.

(** Free of the characters that select a rule of the expander. *)
Definition plain (s : str) : Prop :=
  PyStr.has "*" s = false /\ PyStr.has "[" s = false /\ PyStr.has "]" s = false.

(** Brackets are balanced when every closing bracket closes an open one
    and none stays open; [depth] counts the open ones. *)
Fixpoint nesting (depth : nat) (s : str) : bool :=
  match s with
  | [] => Nat.eqb depth 0
  | c :: s' =>
      if Ascii.eqb c "[" then nesting (S depth) s'
      else if Ascii.eqb c "]" then
        match depth with
        | O => false
        | S d => nesting d s'
        end
      else nesting depth s'
  end.

Definition balanced (s : str) : bool := nesting 0 s.

(** The exceptions of the range rule. *)
Definition range_error (e : error) : Prop :=
  e = UpperNotGreaterThanLower \/ e = InvalidRangeExpression.

(** The exceptions of the bracket rules that reject the syntax of a
    specification. *)
Definition bracket_syntax_error (e : error) : Prop :=
  e = ShoelacesCrossed \/ e = InvalidListExpression \/ e = InvalidRangeExpression
  \/ e = NoRangeOrListExpression \/ e = UnbalancedBrackets.

(** One round of [int(s)]. *)
Definition digit_step (acc : nat) (c : ascii) : nat := 10 * acc + (nat_of_ascii c - 48).

(** A component that [relpath] keeps. *)
Definition nonempty (x : str) : bool := negb (PyStr.eqb x "").

(** A component of a normalised path: not empty, not [.] or [..],
    without a slash. *)
Definition clean_comp (c : str) : bool :=
  negb (PyStr.eqb c "") && negb (PyStr.eqb c ".") && negb (PyStr.eqb c "..")
  && negb (PyStr.has "/" c).

(** A clean component without [*], [[] and []]. *)
Definition literal_comp (c : str) : bool :=
  clean_comp c && negb (PyStr.has "*" c) && negb (PyStr.has "[" c)
  && negb (PyStr.has "]" c).

(** The normalised path with the given components, absolute or
    relative. *)
Definition root_path (absolute : bool) (comps : list str) : str :=
  (if absolute then lit "/" else lit "") ++ PyStr.join "/" comps.

(** ** Examples *)

(** The environment of the tests of the package: templates under
    [/tmp/src], every path exists, no file can be read. *)
Definition test_env : Env := {|
  TEMPLATE_DIR := "/tmp/src";
  getcwd := "/home/user";
  expanduser := fun p => p;
  path_exists := fun _ => true;
  isfile := fun _ => true;
  realpath := fun p => p;
  glob := fun _ => Some [];
  path_glob := fun _ _ => Some [];
  read_file := fun _ => None;
  safe_load := fun _ => None
|}.

(** The environment of [test_utils.test_get_path], which mocks
    [expanduser]. *)
Definition mock_env : Env := {|
  TEMPLATE_DIR := "/tmp/src";
  getcwd := "/home/user";
  expanduser := fun p => PyStr.replace "~" "/home/example" p;
  path_exists := fun _ => true;
  isfile := fun _ => true;
  realpath := fun p => p;
  glob := fun _ => Some [];
  path_glob := fun _ _ => Some [];
  read_file := fun _ => None;
  safe_load := fun _ => None
|}.

(** The environment of the tests with one file that a glob finds. *)
Definition glob_env : Env := {|
  TEMPLATE_DIR := "/tmp/src";
  getcwd := "/home/user";
  expanduser := fun p => p;
  path_exists := fun _ => true;
  isfile := fun _ => true;
  realpath := fun p => p;
  glob := fun p =>
    if PyStr.eqb p "/tmp/src/foo*[3-3].txt" then Some [lit "/tmp/src/foo3.txt"] else Some [];
  path_glob := fun _ _ => Some [];
  read_file := fun _ => None;
  safe_load := fun _ => None
|}.

(** A configuration with the given file specifications. *)
Definition files_conf (specs : list yaml) : yaml := YDict [("files" : str, YList specs)].

(** A file specification whose [src] expands to two paths, with a
    [symlink]. *)
Definition fan_in_spec : dict :=
  [("dst" : str, YStr "foo.txt");
   ("src" : str, YStr "foo[1-2].template");
   ("symlink" : str, YStr "/usr/local/bin/foo")].

(** A file specification with one source and a [symlink]. *)
Definition linked_spec : dict :=
  [("dst" : str, YStr "foo.txt");
   ("src" : str, YStr "foo.template");
   ("symlink" : str, YStr "/usr/local/bin/foo")].


(** A configuration [/etc/tmpl/root.yaml] that includes [base.yaml] and
    sets [x] and [y], next to a [base.yaml] that sets [x]. *)
Definition root_yaml : str := "/etc/tmpl/root.yaml".
Definition base_yaml : str := "/etc/tmpl/base.yaml".
Definition root_text : str := "{include: [base.yaml], x: 2, y: 3}".
Definition base_text : str := "{x: 1}".

Definition root_doc : dict :=
  [("include" : str, YList [YStr "base.yaml"]); ("x" : str, YInt 2); ("y" : str, YInt 3)].
Definition base_doc : dict := [("x" : str, YInt 1)].

Definition include_env : Env := {|
  TEMPLATE_DIR := "/srv/templates";
  getcwd := "/srv";
  expanduser := fun p => p;
  path_exists := fun p => PyStr.eqb p root_yaml || PyStr.eqb p base_yaml;
  isfile := fun p => PyStr.eqb p root_yaml || PyStr.eqb p base_yaml;
  realpath := fun p => p;
  glob := fun _ => Some [];
  path_glob := fun _ _ => Some [];
  read_file := fun p =>
    if PyStr.eqb p root_yaml then Some root_text
    else if PyStr.eqb p base_yaml then Some base_text
    else None;
  safe_load := fun text =>
    if PyStr.eqb text root_text then Some (YDict root_doc)
    else if PyStr.eqb text base_text then Some (YDict base_doc)
    else None
|}.

(** A configuration without includes that names a library. *)
Definition lib_yaml : str := "/tmp/example.yaml".
Definition lib_text : str := "{lib: [foo.py]}".
Definition lib_doc : dict := [("lib" : str, YList [YStr "foo.py"])].

Definition lib_env : Env := {|
  TEMPLATE_DIR := "/tmp/src";
  getcwd := "/tmp";
  expanduser := fun p => p;
  path_exists := fun _ => true;
  isfile := fun p => PyStr.eqb p lib_yaml;
  realpath := fun p => p;
  glob := fun _ => Some [];
  path_glob := fun _ _ => Some [];
  read_file := fun p => if PyStr.eqb p lib_yaml then Some lib_text else None;
  safe_load := fun text => if PyStr.eqb text lib_text then Some (YDict lib_doc) else None
|}.

(** A store with the mappings [{a: [1], k: 1}] at location 0 and
    [{a: [2], b: "x"}] at location 2. *)
Definition c10_store : Heap.heap :=
  [Heap.ODict [("a" : str, Heap.VRef 1); ("k" : str, Heap.VInt 1)];
   Heap.OList [Heap.VInt 1];
   Heap.ODict [("a" : str, Heap.VRef 3); ("b" : str, Heap.VStr "x")];
   Heap.OList [Heap.VInt 2]].


(** A component that [normpath] keeps: not empty, not [.], without a
    slash; it may be [..]. *)
Definition kept_comp (c : str) : bool :=
  negb (PyStr.eqb c "") && negb (PyStr.eqb c ".") && negb (PyStr.has "/" c).

(** The environment of the tests with a template root that has a range
    expression. *)
Definition range_root_env : Env := {|
  TEMPLATE_DIR := "/tmp/s[1-2]";
  getcwd := "/home/user";
  expanduser := fun p => p;
  path_exists := fun _ => true;
  isfile := fun _ => true;
  realpath := fun p => p;
  glob := fun _ => Some [];
  path_glob := fun _ _ => Some [];
  read_file := fun _ => None;
  safe_load := fun _ => None
|}.

(** The environment of the tests with a relative template root that is
    not normalised. *)
Definition dot_root_env : Env := {|
  TEMPLATE_DIR := "./conf/";
  getcwd := "/home/user";
  expanduser := fun p => p;
  path_exists := fun _ => true;
  isfile := fun _ => true;
  realpath := fun p => p;
  glob := fun _ => Some [];
  path_glob := fun _ _ => Some [];
  read_file := fun _ => None;
  safe_load := fun _ => None
|}.

(** One round of the loop of [merge_yaml_data] over [data2.items()]:
    the entry written for [key]. *)
Definition merge_step (key : str) (val : yaml) (return_dict : dict) : dict :=
  match dict_get key return_dict with
  | Some old => dict_set key (Utils.merge_yaml_data old val) return_dict
  | None => dict_set key val return_dict
  end.


(** A configuration [/etc/tmpl/loop.yaml] that includes itself. *)
Definition loop_yaml : str := "/etc/tmpl/loop.yaml".
Definition loop_text : str := "{include: [loop.yaml]}".
Definition loop_doc : dict := [("include" : str, YList [YStr "loop.yaml"])].

Definition loop_env : Env := {|
  TEMPLATE_DIR := "/srv/templates";
  getcwd := "/srv";
  expanduser := fun p => p;
  path_exists := fun p => PyStr.eqb p loop_yaml;
  isfile := fun p => PyStr.eqb p loop_yaml;
  realpath := fun p => p;
  glob := fun _ => Some [];
  path_glob := fun _ _ => Some [];
  read_file := fun p => if PyStr.eqb p loop_yaml then Some loop_text else None;
  safe_load := fun text => if PyStr.eqb text loop_text then Some (YDict loop_doc) else None
|}.

(** A configuration [/etc/tmpl/site.yaml] that includes [base.yaml] and
    names a library. *)
Definition site_yaml : str := "/etc/tmpl/site.yaml".
Definition site_text : str := "{include: [base.yaml], lib: [lib/*.py]}".
Definition site_doc : dict :=
  [("include" : str, YList [YStr "base.yaml"]); ("lib" : str, YList [YStr "lib/*.py"])].

Definition site_env : Env := {|
  TEMPLATE_DIR := "/srv/templates";
  getcwd := "/srv";
  expanduser := fun p => p;
  path_exists := fun _ => true;
  isfile := fun p => PyStr.eqb p site_yaml || PyStr.eqb p base_yaml;
  realpath := fun p => p;
  glob := fun p =>
    if PyStr.eqb p "/etc/tmpl/lib/*.py" then Some [lit "/etc/tmpl/lib/net.py"] else Some [];
  path_glob := fun _ _ => Some [];
  read_file := fun p =>
    if PyStr.eqb p site_yaml then Some site_text
    else if PyStr.eqb p base_yaml then Some base_text
    else None;
  safe_load := fun text =>
    if PyStr.eqb text site_text then Some (YDict site_doc)
    else if PyStr.eqb text base_text then Some (YDict base_doc)
    else None
|}.

(** The path specifications of an [include] or [lib] list, resolved
    against [path_dir] and expanded. *)
Definition expand_all (env : Env) (path_dir : str) (specs : list yaml) : result (list str) :=
  Config.flatten_map
    (fun p => do q <- Utils.get_path_of env p path_dir; Utils.parse_file_paths env q) specs.

(** What [compute_mapping] records in a mapping [m] that it builds from
    the file specification [spec]. *)
Definition mapped_from (env : Env) (output_dir working_dir : str) (spec : yaml)
    (m : Config.path_mapping) : Prop :=
  getitem spec "dst" = Ok (Config.dst_key m)
  /\ (exists s, Config.dst_key m = YStr s)
  /\ Config.get_default "chmod" spec (YStr "") = Ok (Config.chmod m)
  /\ Config.get_default "chown" spec (YStr "") = Ok (Config.chown m)
  /\ Config.get_default "translate" spec (YBool true) = Ok (Config.translate m)
  /\ path_exists env (Config.full_src m) = true
  /\ Config.relpath env (Config.full_src m) (TEMPLATE_DIR env) = Ok (Config.rel_src m)
  /\ Config.full_wrk m = PosixPath.join working_dir (Config.rel_dst m)
  /\ (if contains_key "src" spec
      then Config.relpath env (Config.full_dst m) output_dir = Ok (Config.rel_dst m)
      else Config.rel_dst m = Config.rel_src m
           /\ Config.full_dst m = PosixPath.join output_dir (Config.rel_dst m))
  /\ (if contains_key "symlink" spec
      then contains_key "src" spec = false ->
           exists l, getitem spec "symlink" = Ok (YStr l)
                     /\ Config.full_lnk m = Utils.get_path env l output_dir
                     /\ Config.relpath env (Config.full_lnk m) output_dir
                        = Ok (Config.rel_lnk m)
      else Config.full_lnk m = lit "" /\ Config.rel_lnk m = lit "").

(** ** config.validate *)

Definition is_list (v : yaml) : bool := match v with YList _ => true | _ => false end.
Definition is_dict (v : yaml) : bool := match v with YDict _ => true | _ => false end.
Definition is_str (v : yaml) : bool := match v with YStr _ => true | _ => false end.

(** The exceptions of [validate], named after their messages. *)
Inductive validate_error :=
| FilesNotSpecList
| FilesWithoutDst
| LibNotPathList.

(** The checks of [validate] on the [files] key. *)
Definition validate_files (conf : dict) : validate_error + unit :=
  if dict_has "files" conf then
    match dict_get "files" conf with
    | Some (YList files) =>
        if existsb (fun t => negb (is_dict t)) files then inl FilesNotSpecList
        else if existsb (fun t => negb (contains_key "dst" t)) files then inl FilesWithoutDst
        else inr tt
    | _ => inl FilesNotSpecList
    end
  else inr tt.

(** The checks of [validate] on the [lib] key. *)
Definition validate_lib (conf : dict) : validate_error + unit :=
  if dict_has "lib" conf then
    match dict_get "lib" conf with
    | Some (YList lib) =>
        if existsb (fun l => negb (is_str l)) lib then inl LibNotPathList else inr tt
    | _ => inl LibNotPathList
    end
  else inr tt.

(** [config.validate] on the mapping that [parse] returns: [inr tt] when
    it returns, [inl e] when it raises. *)
Definition validate (conf : dict) : validate_error + unit :=
  match validate_files conf with
  | inl e => inl e
  | inr _ => validate_lib conf
  end.


(** ** jfuncs.py *)

Module JFuncs.

(** [os.path.basename(p)]: the text after the last slash. *)
Definition basename (p : str) : str := rev (fst (PyStr.split1 "/" (rev p))).

(** [s.strip(c)] *)
Definition strip (c : ascii) (s : str) : str := PyStr.lstrip c (PyStr.rstrip c s).

(** [jfuncs.t_domain_join] *)
Definition t_domain_join (variables : list str) : str :=
  PyStr.join "." (map (strip ".") variables).

(** [jfuncs.t_file_ext]; the subscript [[1]] raises when the split has
    one part. *)
Definition t_file_ext (path : str) : result str :=
  let basename := basename path in
  if negb (PyStr.has "." basename) then Ok (lit "")
  else Utils.of_option (Builtin IndexError) (snd (PyStr.split1 "." basename)).

(** [jfuncs.t_file_name] *)
Definition t_file_name (path : str) : str :=
  let basename := basename path in
  if negb (PyStr.has "." basename) then basename
  else fst (PyStr.split1 "." basename).

End JFuncs.

(** ** The selection of a configuration file in [validate_environment] *)

Module Select.

(** [f.rsplit('.', 1)[0]]: the text before the last dot, or all of [f]. *)
Definition rsplit_head (c : ascii) (f : str) : str :=
  match PyStr.split1 c (rev f) with
  | (_, Some h) => rev h
  | (_, None) => f
  end.

(** [x in files] *)
Definition mem (x : str) (files : list str) : bool := existsb (PyStr.eqb x) files.

Definition simple_matches (hostname fqdn : str) : list str :=
  [lit "tmpl.yaml"; lit "tmpl.yml"; fqdn ++ ".yaml"; fqdn ++ ".yml";
   hostname ++ ".yaml"; hostname ++ ".yml"].

(** The condition of the second search: a YAML file whose name without
    its extension occurs in the host name. *)
Definition host_match (hostname f : str) : bool :=
  (PyStr.endswith ".yaml" f || PyStr.endswith ".yml" f)
  && PyStr.contains (rsplit_head "." f) hostname.

(** The two messages with which the selection bails out, and the
    exception of [next] on a generator that yields nothing. *)
Inductive select_error := NoConfFiles | NoSelectableConf | StopIteration.

(** The file that [validate_environment] selects among the regular
    files [files] of the directory given as [template_conf]; the new
    [template_conf] is this name joined to the directory.  [next(...)]
    is [find]. *)
Definition select_conf (files : list str) (hostname fqdn : str) : select_error + str :=
  if PosixPath.is_nil files then inl NoConfFiles
  else if existsb (fun x => mem x files) (simple_matches hostname fqdn) then
    match find (fun x => mem x files) (simple_matches hostname fqdn) with
    | Some x => inr x
    | None => inl StopIteration
    end
  else if existsb (host_match hostname) files then
    match find (host_match hostname) files with
    | Some f => inr f
    | None => inl StopIteration
    end
  else inl NoSelectableConf.

End Select.

(** ** __init__.py: translate_templates and write_output *)

Module Main.

(** The truth value of a value of the configuration. *)
Definition truthy (v : yaml) : bool :=
  match v with
  | YNull => false
  | YBool b => b
  | YInt z => negb (Z.eqb z 0)
  | YStr s => negb (PosixPath.is_nil s)
  | YList l => negb (PosixPath.is_nil l)
  | YDict d => negb (PosixPath.is_nil d)
  end.

(** [a == b] on values of the configuration: a boolean equals the
    integer 0 or 1, lists are compared item by item, and mappings have
    the same keys with equal values. *)
Fixpoint py_eq (a b : yaml) {struct a} : bool :=
  match a, b with
  | YNull, YNull => true
  | YBool x, YBool y => Bool.eqb x y
  | YBool x, YInt z => Z.eqb z (if x then 1 else 0)
  | YInt z, YBool x => Z.eqb z (if x then 1 else 0)
  | YInt x, YInt y => Z.eqb x y
  | YStr x, YStr y => PyStr.eqb x y
  | YList l1, YList l2 =>
      (fix items (l1 l2 : list yaml) {struct l1} : bool :=
         match l1, l2 with
         | [], [] => true
         | x :: l1', y :: l2' => py_eq x y && items l1' l2'
         | _, _ => false
         end) l1 l2
  | YDict d1, YDict d2 =>
      Nat.eqb (length d1) (length d2)
      && (fix items (d1 : dict) {struct d1} : bool :=
            match d1 with
            | [] => true
            | (k, v) :: d1' =>
                match dict_get k d2 with
                | Some v' => py_eq v v'
                | None => false
                end && items d1'
            end) d1
  | _, _ => false
  end.

(** The command-line arguments that [write_output] reads. *)
Record Args := {
  delete : bool;
  dry_run : bool;
  exclude : list str;
  chmod : bool;
  chown : bool;
  symlinks : bool;
  output : str;
  working_directory : str;
  rsync_executable : str
}.

(** The commands given to [utils.run_process].  The line of [rsync] is
    a string of the program; [chmod] and [chown] are kept with the
    value that the f-string formats. *)
Inductive command :=
| Rsync (line : str)
| Chmod (mode : yaml) (path : str)
| Chown (owner : yaml) (path : str).

(** The calls with an effect outside the program.  [Render] is
    [template.render] on [aug], of which it keeps the entries [file]
    and [this]; [WriteRendered] writes the rendered text. *)
Inductive effect :=
| GetTemplate (rel_src : str)
| Render (rel_src file : str) (this : yaml)
| WriteRendered (path : str)
| CopyFile (src dst : str)
| Makedirs (p : str)
| RunProcess (c : command)
| Unlink (p : str)
| Symlink (target link : str).

(** The file system and the processes.  [perform] gives the state
    after a call and, unless the call raises, the exit code of the
    process run (0 for a call that runs none). *)
Record World := {
  state : Type;
  isdir : state -> str -> bool;
  islink : state -> str -> bool;
  lexists : state -> str -> bool;
  perform : effect -> state -> state * option nat
}.

(** How a part of the program ends: it returns, it calls [sys.exit],
    or an exception escapes. *)
Inductive exit (A : Type) :=
| Return (a : A)
| Exit (ec : nat)
| Raise (e : error).
Arguments Return {A} a.
Arguments Exit {A} ec.
Arguments Raise {A} e.

Section programs.
Variable wd : World.

(** A part of the program: from a state, the state after it, the calls
    it made in order, and how it ended.  Messages on the terminal and
    in the log are left out. *)
Definition prog (A : Type) : Type := state wd -> state wd * list effect * exit A.

Definition pret {A} (a : A) : prog A := fun w => (w, [], Return a).

Definition pbind {A B} (p : prog A) (k : A -> prog B) : prog B :=
  fun w =>
    match p w with
    | (w1, t1, Return a) => let '(w2, t2, r) := k a w1 in (w2, t1 ++ t2, r)
    | (w1, t1, Exit ec) => (w1, t1, Exit ec)
    | (w1, t1, Raise e) => (w1, t1, Raise e)
    end.

Notation "'run' x <- p ; k" := (pbind p (fun x => k))
  (at level 10, x name, p at level 100, k at level 200).

(** [bail(msg, ec)] *)
Definition bail {A} (ec : nat) : prog A := fun w => (w, [], Exit ec).

(** A call inside [try: ... except Exception: bail(msg, ec)]. *)
Definition call (e : effect) (ec : nat) : prog nat :=
  fun w =>
    match perform wd e w with
    | (w', Some code) => (w', [e], Return code)
    | (w', None) => (w', [e], Exit ec)
    end.

Definition query {A} (f : state wd -> A) : prog A := fun w => (w, [], Return (f w)).

(** A computation of the program outside any [try]. *)
Definition lift {A} (r : result A) : prog A :=
  match r with
  | Ok a => pret a
  | Err e => fun w => (w, [], Raise e)
  end.

Definition when (b : bool) (p : prog unit) : prog unit := if b then p else pret tt.

Fixpoint for_each {A} (xs : list A) (body : A -> prog unit) : prog unit :=
  match xs with
  | [] => pret tt
  | x :: xs' => run _ <- body x; for_each xs' body
  end.

(** [if not os.path.isdir(parent_dir): os.makedirs(parent_dir)] with
    exit code [ec] *)
Definition ensure_dir (parent_dir : str) (ec : nat) : prog unit :=
  run d <- query (fun w => isdir wd w parent_dir);
  when (negb d) (run _ <- call (Makedirs parent_dir) ec; pret tt).

(** The body of the inner loop of [translate_templates]. *)
Definition translate_one (spec : yaml) (spec_map : Config.path_mapping) : prog unit :=
  if truthy (Config.translate spec_map) then
    run _ <- call (GetTemplate (Config.rel_src spec_map)) 8;
    run _ <- call (Render (Config.rel_src spec_map)
                     (JFuncs.basename (Config.rel_dst spec_map)) spec) 8;
    run _ <- ensure_dir (PosixPath.dirname (Config.full_wrk spec_map)) 8;
    run _ <- call (WriteRendered (Config.full_wrk spec_map)) 8;
    pret tt
  else
    run _ <- ensure_dir (PosixPath.dirname (Config.full_wrk spec_map)) 8;
    run _ <- call (CopyFile (Config.full_src spec_map) (Config.full_wrk spec_map)) 8;
    pret tt.

(** [cli.fsubstep(v)] concatenates strings: a value that is not a
    string raises. *)
Definition fsubstep (v : yaml) : result unit :=
  match v with
  | YStr _ => Ok tt
  | _ => Err (Builtin TypeError)
  end.

(** The body of the loop of [translate_templates] over the
    specifications. *)
Definition translate_spec (mapping : list Config.path_mapping) (spec : yaml) : prog unit :=
  run dst <- lift (getitem spec "dst");
  run _ <- lift (fsubstep dst);
  let spec_maps := List.filter (fun m => py_eq (Config.dst_key m) dst) mapping in
  for_each spec_maps (translate_one spec).

(** [translate_templates] *)
Definition translate_templates (conf : yaml) (mapping : list Config.path_mapping)
    : prog unit :=
  run files <- lift (getitem conf "files");
  run specs <- lift (iter_values files);
  for_each specs (translate_spec mapping).

Definition quote : str := [ascii_of_nat 34].

(** The arguments of [rsync]. *)
Definition rsync_args (args : Args) : str :=
  "-a -h --progress"
  ++ (if delete args then lit " --delete" else lit "")
  ++ (if dry_run args then lit " --dry-run" else lit "")
  ++ (if negb (PosixPath.is_nil (exclude args))
         && negb (PosixPath.is_nil (hd (lit "") (exclude args)))
      then concat (map (fun x => " --exclude " ++ x) (exclude args))
      else lit "").

(** The command line of [rsync]. *)
Definition rsync_command (args : Args) : str :=
  let rsync_src := PyStr.rstrip "/" (working_directory args) ++ "/" in
  let rsync_dst := PyStr.rstrip "/" (output args) ++ "/" in
  rsync_executable args ++ " " ++ rsync_args args ++ " "
  ++ quote ++ rsync_src ++ quote ++ " " ++ quote ++ rsync_dst ++ quote.

(** A process run inside [try]; a non-zero exit code bails out as an
    exception does. *)
Definition run_checked (c : command) (ec : nat) : prog unit :=
  run code <- call (RunProcess c) ec;
  when (negb (Nat.eqb code 0)) (bail ec).

(** The body of the loop of [write_output] over the mappings. *)
Definition finish_one (args : Args) (m : Config.path_mapping) : prog unit :=
  let full_dst := Config.full_dst m in
  let symlink := Config.full_lnk m in
  run _ <- when (chmod args && truthy (Config.chmod m) && negb (dry_run args))
             (run_checked (Chmod (Config.chmod m) full_dst) 10);
  run _ <- when (chown args && truthy (Config.chown m) && negb (dry_run args))
             (run_checked (Chown (Config.chown m) full_dst) 10);
  when (symlinks args && negb (PosixPath.is_nil symlink) && negb (dry_run args))
    (run is_link <- query (fun w => islink wd w symlink);
     run _ <- (if is_link then run _ <- call (Unlink symlink) 10; pret tt
               else run there <- query (fun w => lexists wd w symlink);
                    when there (bail 10));
     let full_lnk_dir := PosixPath.dirname symlink in
     run d <- query (fun w => isdir wd w full_lnk_dir);
     run _ <- when (negb (PosixPath.is_nil full_lnk_dir) && negb d)
                (run _ <- call (Makedirs full_lnk_dir) 10; pret tt);
     run _ <- call (Symlink full_dst symlink) 10;
     pret tt).

(** [write_output] *)
Definition write_output (args : Args) (mapping : list Config.path_mapping) : prog unit :=
  run d <- query (fun w => isdir wd w (output args));
  run _ <- when (negb d)
             (when (negb (dry_run args))
                (run _ <- call (Makedirs (output args)) 9; pret tt));
  run _ <- run_checked (Rsync (rsync_command args)) 9;
  for_each mapping (finish_one args).

End programs.

(** The path that a call writes in the working directory. *)
Definition written (e : effect) : option str :=
  match e with
  | WriteRendered p => Some p
  | CopyFile _ p => Some p
  | _ => None
  end.

(** The paths that a sequence of calls writes in the working
    directory, in order. *)
Definition targets (tr : list effect) : list str :=
  flat_map (fun e => match written e with Some p => [p] | None => [] end) tr.

(** The calls that a part of the program makes. *)
Definition trace {wd : World} {A} (r : state wd * list effect * exit A) : list effect :=
  snd (fst r).

(** Every call that [p] makes satisfies [P]. *)
Definition emits (wd : World) {A} (P : effect -> Prop) (p : prog wd A) : Prop :=
  forall w, Forall P (trace (p w)).

(** What [write_output] may do with the given arguments and
    mappings. *)
Definition allowed (args : Args) (mapping : list Config.path_mapping) (e : effect) : Prop :=
  match e with
  | RunProcess (Rsync line) => line = rsync_command args
  | RunProcess (Chmod mode p) =>
      chmod args = true /\ dry_run args = false
      /\ exists m, In m mapping /\ mode = Config.chmod m /\ truthy mode = true
                   /\ p = Config.full_dst m
  | RunProcess (Chown owner p) =>
      chown args = true /\ dry_run args = false
      /\ exists m, In m mapping /\ owner = Config.chown m /\ truthy owner = true
                   /\ p = Config.full_dst m
  | Makedirs p =>
      dry_run args = false
      /\ (p = output args
          \/ (symlinks args = true
              /\ exists m, In m mapping /\ p = PosixPath.dirname (Config.full_lnk m)))
  | Unlink p =>
      symlinks args = true /\ dry_run args = false
      /\ exists m, In m mapping /\ p = Config.full_lnk m
  | Symlink target link =>
      symlinks args = true /\ dry_run args = false /\ link <> []
      /\ exists m, In m mapping /\ target = Config.full_dst m /\ link = Config.full_lnk m
  | _ => False
  end.

End Main.

(** A world in which every directory exists, nothing is a link and
    every call succeeds. *)
Definition quiet_world : Main.World := {|
  Main.state := unit;
  Main.isdir := fun _ _ => true;
  Main.islink := fun _ _ => false;
  Main.lexists := fun _ _ => false;
  Main.perform := fun _ w => (w, Some 0)
|}.

(** * Properties *)

(** ** Dictionaries *)

Lemma str_eqb_eq (a b : str) : PyStr.eqb a b = true <-> a = b.
Proof.
  revert b. induction a as [|x a IH]; intros [|y b]; cbn; try done.
  rewrite andb_true_iff, Ascii.eqb_eq, IH. split; [intros [-> ->]|intros [= -> ->]]; done.
Qed.

Lemma str_eqb_refl (a : str) : PyStr.eqb a a = true.
Proof. by apply str_eqb_eq. Qed.

Lemma str_eqb_neq (a b : str) : PyStr.eqb a b = false <-> a <> b.
Proof.
  rewrite <- str_eqb_eq. destruct (PyStr.eqb a b); split; try done.
Qed.

Lemma dict_get_set {V} (k k' : str) (v : V) (d : list (str * V)) :
  dict_get k' (dict_set k v d) = if PyStr.eqb k k' then Some v else dict_get k' d.
Proof.
  induction d as [|[k0 v0] d IH]; cbn; [done|].
  destruct (PyStr.eqb k0 k) eqn:E0; cbn.
  - apply str_eqb_eq in E0 as ->. by destruct (PyStr.eqb k k').
  - rewrite IH. destruct (PyStr.eqb k0 k') eqn:E1; [|done].
    apply str_eqb_eq in E1 as ->.
    destruct (PyStr.eqb k k') eqn:E2; [|done].
    apply str_eqb_eq in E2 as ->. by rewrite str_eqb_refl in E0.
Qed.

Lemma dict_has_set {V} (k k' : str) (v : V) (d : list (str * V)) :
  dict_has k' d = true -> dict_has k' (dict_set k v d) = true.
Proof.
  unfold dict_has. rewrite dict_get_set. by destruct (PyStr.eqb k k').
Qed.

(** ** Strings *)

Module StrFacts.
Import PyStr.

Lemma has_app (c : ascii) (a b : str) : has c (a ++ b) = has c a || has c b.
Proof.
  induction a as [|x a IH]; cbn; [done|]. rewrite IH. by destruct (Ascii.eqb x c).
Qed.

Lemma has_outside (f : ascii -> bool) (c : ascii) (s : str) :
  forallb f s = true -> f c = false -> has c s = false.
Proof.
  intros Hs Hc. induction s as [|x s IH]; cbn in *; [done|].
  apply andb_true_iff in Hs as [Hx Hs]. rewrite (IH Hs), orb_false_r.
  destruct (Ascii.eqb x c) eqn:E; [|done]. apply Ascii.eqb_eq in E as ->. congruence.
Qed.

Lemma has_cons_false (c x : ascii) (s : str) :
  has c (x :: s) = false -> Ascii.eqb x c = false /\ has c s = false.
Proof. cbn. by intros [??]%orb_false_iff. Qed.

Lemma split1_app (c : ascii) (a b : str) :
  has c a = false -> split1 c (a ++ c :: b) = (a, Some b).
Proof.
  induction a as [|x a IH]; cbn.
  - by rewrite Ascii.eqb_refl.
  - intros [-> Ha]%orb_false_iff. by rewrite (IH Ha).
Qed.

Lemma split1_has (c : ascii) (s : str) :
  has c s = true -> exists a b, split1 c s = (a, Some b) /\ s = a ++ c :: b /\ has c a = false.
Proof.
  induction s as [|x s IH]; cbn; [done|].
  destruct (Ascii.eqb x c) eqn:E; cbn.
  - intros _. apply Ascii.eqb_eq in E as ->. by exists [], s.
  - intros H. destruct (IH H) as (a & b & -> & -> & Ha).
    exists (x :: a), b. cbn. by rewrite E, Ha.
Qed.

Lemma startswith_app (p s : str) : startswith p (p ++ s) = true.
Proof. induction p as [|x p IH]; cbn; [done|]. by rewrite Ascii.eqb_refl. Qed.

Lemma replace_scan_skip (old new a s : str) :
  replace_scan old new (length a) (a ++ s) = replace_scan old new 0 s.
Proof.
  induction a as [|x a IH]; cbn; [done|]. exact IH.
Qed.

Lemma replace_scan_absent (c : ascii) (old new s : str) :
  has c s = false -> replace_scan (c :: old) new 0 s = s.
Proof.
  induction s as [|x s IH]; [done|].
  intros [Hx Hs]%has_cons_false. cbn [replace_scan startswith].
  rewrite Ascii.eqb_sym, Hx. cbn. by rewrite (IH Hs).
Qed.

(** Replacing an expression that occurs once. *)
Lemma replace_once (c : ascii) (old new pre suf : str) :
  has c pre = false -> has c suf = false ->
  replace (c :: old) new (pre ++ (c :: old) ++ suf) = pre ++ new ++ suf.
Proof.
  intros Hpre Hsuf. unfold replace.
  induction pre as [|x pre IH].
  - pose proof (startswith_app (c :: old) suf) as Hs.
    cbn [app] in *. cbn [replace_scan]. rewrite Hs.
    replace (length (c :: old) - 1) with (length old) by (cbn; lia).
    f_equal. rewrite replace_scan_skip. by apply replace_scan_absent.
  - apply has_cons_false in Hpre as [Hx Hpre].
    cbn [app replace_scan startswith]. rewrite Ascii.eqb_sym, Hx. cbn.
    f_equal. by apply IH.
Qed.

Lemma span_app (f : ascii -> bool) (a b : str) :
  forallb f a = true ->
  match b with [] => True | x :: _ => f x = false end ->
  Utils.span f (a ++ b) = (a, b).
Proof.
  intros Ha Hb. induction a as [|x a IH]; cbn in *.
  - destruct b as [|y b]; [done|]. cbn. by rewrite Hb.
  - apply andb_true_iff in Ha as [-> Ha]. by rewrite (IH Ha).
Qed.

Lemma span_spec (f : ascii -> bool) (s a b : str) :
  Utils.span f s = (a, b) ->
  s = a ++ b /\ forallb f a = true /\ match b with [] => True | x :: _ => f x = false end.
Proof.
  revert a b. induction s as [|x s IH]; intros a b; cbn.
  - by intros [= <- <-].
  - destruct (f x) eqn:E.
    + destruct (Utils.span f s) as [a' b']. intros [= <- <-].
      destruct (IH _ _ eq_refl) as (-> & Ha & Hb). cbn. by rewrite E, Ha.
    + intros [= <- <-]. done.
Qed.

(** *** Decimal numerals *)

Lemma to_nat_fold (s : str) : to_nat s = fold_left digit_step s 0.
Proof. reflexivity. Qed.

Lemma numeral_spec (d : Decimal.uint) :
  let s := list_ascii_of_string (NilEmpty.string_of_uint d) in
  forallb is_digit s = true
  /\ forall acc, fold_left digit_step s acc = Nat.of_uint_acc d acc.
Proof.
  induction d as [|d [IH1 IH2]|d [IH1 IH2]|d [IH1 IH2]|d [IH1 IH2]|d [IH1 IH2]
                  |d [IH1 IH2]|d [IH1 IH2]|d [IH1 IH2]|d [IH1 IH2]|d [IH1 IH2]];
    cbn zeta in *; (split; [try done|intros acc; try done]);
    try (cbn [NilEmpty.string_of_uint list_ascii_of_string forallb]; by rewrite IH1);
    cbn [NilEmpty.string_of_uint list_ascii_of_string fold_left Nat.of_uint_acc];
    rewrite IH2; f_equal; rewrite Nat.tail_mul_spec; unfold digit_step;
    match goal with
    | |- context [nat_of_ascii ?c] =>
        let v := eval vm_compute in (nat_of_ascii c) in
        change (nat_of_ascii c) with v
    end; lia.
Qed.

Lemma of_nat_unfold (n : nat) :
  exists d, d <> Decimal.Nil /\ Nat.of_uint d = n
            /\ of_nat n = list_ascii_of_string (NilEmpty.string_of_uint d).
Proof.
  destruct (Nat.to_uint n) eqn:E.
  { exists (Decimal.D0 Decimal.Nil). split; [done|split].
    - by rewrite <- (Unsigned.of_to n), E.
    - unfold of_nat. by rewrite E. }
  all: exists (Nat.to_uint n); (split; [by rewrite E|split; [apply Unsigned.of_to|]]);
    unfold of_nat; by rewrite E.
Qed.

(** [int(str(n)) == n], and [str(n)] is a non-empty run of digits. *)
Lemma to_nat_of_nat (n : nat) : to_nat (of_nat n) = n.
Proof.
  destruct (of_nat_unfold n) as (d & _ & Hd & ->).
  rewrite to_nat_fold. destruct (numeral_spec d) as [_ H]. by rewrite H.
Qed.

Lemma of_nat_digits (n : nat) : forallb is_digit (of_nat n) = true.
Proof.
  destruct (of_nat_unfold n) as (d & _ & _ & ->). apply numeral_spec.
Qed.

Lemma of_nat_nonempty (n : nat) : of_nat n <> [].
Proof.
  destruct (of_nat_unfold n) as (d & Hd & _ & ->). by destruct d.
Qed.

End StrFacts.

(** ** The expander *)

Module ExpandFacts.
Import PyStr Utils.

(** No character of the class is a bracket, a star or a comma. *)
Lemma path_chars_plain (s : str) :
  forallb path_char s = true ->
  has "[" s = false /\ has "]" s = false /\ has "*" s = false /\ has "," s = false.
Proof.
  intros H. repeat split; by apply (StrFacts.has_outside path_char).
Qed.

Lemma digits_plain (s : str) :
  forallb is_digit s = true ->
  has "[" s = false /\ has "]" s = false /\ has "*" s = false /\ has "," s = false
  /\ has "-" s = false.
Proof.
  intros H. repeat split; by apply (StrFacts.has_outside is_digit).
Qed.

Lemma range_spec_chars (pre lo hi suf : str) :
  range_spec pre lo hi suf
  = pre ++ "["%char :: lo ++ "-"%char :: hi ++ "]"%char :: suf.
Proof. reflexivity. Qed.

(** [RANGE_REGEX] matches a range expression between two runs of the
    class, and its groups are the bounds as written. *)
Lemma RANGE_REGEX_matches (pre lo hi suf : str) :
  forallb path_char pre = true -> forallb path_char suf = true ->
  forallb is_digit lo = true -> lo <> [] ->
  forallb is_digit hi = true -> hi <> [] ->
  RANGE_REGEX (range_spec pre lo hi suf)
  = Some {| r_expr := "["%char :: lo ++ "-"%char :: hi ++ ["]"%char];
            r_lower := lo; r_upper := hi |}.
Proof.
  intros Hpre Hsuf Hlo Hlo0 Hhi Hhi0. rewrite range_spec_chars. unfold RANGE_REGEX.
  rewrite (StrFacts.span_app path_char pre) by done.
  rewrite (StrFacts.span_app is_digit lo) by done.
  destruct lo as [|l0 lo]; [done|].
  rewrite (StrFacts.span_app is_digit hi) by done.
  destruct hi as [|h0 hi]; [done|].
  rewrite <- (app_nil_r suf).
  rewrite (StrFacts.span_app path_char suf) by done.
  reflexivity.
Qed.

(** What a match of [RANGE_REGEX] says about the text. *)
Lemma RANGE_REGEX_sound (s : str) (m : range_groups) :
  RANGE_REGEX s = Some m ->
  exists pre suf,
    s = pre ++ "["%char :: r_lower m ++ "-"%char :: r_upper m ++ "]"%char :: suf
    /\ forallb path_char pre = true
    /\ forallb is_digit (r_lower m) = true
    /\ forallb is_digit (r_upper m) = true
    /\ has "[" suf = false /\ has "]" suf = false.
Proof.
  unfold RANGE_REGEX.
  destruct (span path_char s) as [pre s1] eqn:E1.
  apply StrFacts.span_spec in E1 as (-> & Hpre & _).
  destruct s1 as [|c s2]; [done|].
  destruct (Ascii.eqb c "[") eqn:Ec; [apply Ascii.eqb_eq in Ec as ->|];
    [|by destruct c as [[] [] [] [] [] [] [] []]].
  destruct (span is_digit s2) as [lower s3] eqn:E2.
  apply StrFacts.span_spec in E2 as (-> & Hlo & _).
  destruct lower as [|l0 lower]; [done|].
  destruct s3 as [|c s4]; [done|].
  destruct (Ascii.eqb c "-") eqn:Ec; [apply Ascii.eqb_eq in Ec as ->|];
    [|by destruct c as [[] [] [] [] [] [] [] []]].
  destruct (span is_digit s4) as [upper s5] eqn:E3.
  apply StrFacts.span_spec in E3 as (-> & Hhi & _).
  destruct upper as [|h0 upper]; [done|].
  destruct s5 as [|c s6]; [done|].
  destruct (Ascii.eqb c "]") eqn:Ec; [apply Ascii.eqb_eq in Ec as ->|];
    [|by destruct c as [[] [] [] [] [] [] [] []]].
  destruct (span path_char s6) as [suf0 s7] eqn:E4.
  apply StrFacts.span_spec in E4 as (-> & Hsuf & _).
  destruct (at_end s7) eqn:Hend; [|done]. intros [= <-]. cbn [r_lower r_upper].
  exists pre, (suf0 ++ s7). repeat split; try done.
  - rewrite StrFacts.has_app. destruct (path_chars_plain _ Hsuf) as (-> & _).
    destruct s7 as [|c [|]]; try done. cbn in Hend. apply Ascii.eqb_eq in Hend as ->. done.
  - rewrite StrFacts.has_app. destruct (path_chars_plain _ Hsuf) as (_ & -> & _).
    destruct s7 as [|c [|]]; try done. cbn in Hend. apply Ascii.eqb_eq in Hend as ->. done.
Qed.

Lemma path_chars_are_plain (s : str) : forallb path_char s = true -> plain s.
Proof. intros H. destruct (path_chars_plain s H) as (? & ? & ? & ?). by repeat split. Qed.

Ltac has_split :=
  repeat first [rewrite !StrFacts.has_app | progress cbn [PyStr.has]].

(** A specification without [*], [[] and []] is its own expansion. *)
Lemma parse_literal (env : Env) (s : str) :
  plain s -> parse_file_paths env s = Ok [s].
Proof.
  intros (H1 & H2 & H3). unfold parse_file_paths. by rewrite H1, H2, H3.
Qed.

(** A range specification reaches the range rule. *)
Lemma parse_range_rule (env : Env) (pre lo hi suf : str) :
  plain pre -> plain suf ->
  forallb is_digit lo = true -> forallb is_digit hi = true ->
  parse_file_paths env (range_spec pre lo hi suf)
  = match RANGE_REGEX (range_spec pre lo hi suf) with
    | None => Err InvalidRangeExpression
    | Some m =>
        if negb (Nat.ltb (to_nat (r_lower m)) (to_nat (r_upper m)))
        then Err UpperNotGreaterThanLower
        else Ok (map (fun i => replace (r_expr m) (of_nat i) (range_spec pre lo hi suf))
                     (range_incl (to_nat (r_lower m)) (to_nat (r_upper m))))
    end.
Proof.
  intros (Hp1 & Hp2 & Hp3) (Hs1 & Hs2 & Hs3) Hlo Hhi.
  destruct (digits_plain lo Hlo) as (Hl1 & Hl2 & Hl3 & Hl4 & Hl5).
  destruct (digits_plain hi Hhi) as (Hh1 & Hh2 & Hh3 & Hh4 & Hh5).
  unfold parse_file_paths.
  assert (Hstar : has "*" (range_spec pre lo hi suf) = false).
  { rewrite range_spec_chars. has_split. rewrite Hp1, Hl3, Hh3, Hs1. reflexivity. }
  assert (Hopen : has "[" (range_spec pre lo hi suf) = true).
  { rewrite range_spec_chars, StrFacts.has_app. cbn. apply orb_true_r. }
  assert (Hclose : has "]" (range_spec pre lo hi suf) = true).
  { rewrite range_spec_chars. has_split. cbn. rewrite !orb_true_r. reflexivity. }
  rewrite Hstar, Hopen, Hclose. cbn [negb andb].
  rewrite range_spec_chars at 1. rewrite (StrFacts.split1_app "[" pre) by done.
  cbn [snd of_option bind].
  assert (Hguts : has "]" (lo ++ "-"%char :: hi ++ "]"%char :: suf) = true).
  { has_split. cbn. rewrite !orb_true_r. reflexivity. }
  rewrite Hguts. cbn [negb].
  replace (lo ++ "-"%char :: hi ++ "]"%char :: suf)
    with ((lo ++ "-"%char :: hi) ++ "]"%char :: suf)
    by (by rewrite <- app_assoc).
  rewrite (StrFacts.split1_app "]"); cycle 1.
  { rewrite StrFacts.has_app. cbn [has]. by rewrite Hl2, Hh2. }
  cbn [fst].
  assert (Hcomma : has "," (lo ++ "-"%char :: hi) = false).
  { rewrite StrFacts.has_app. cbn [has]. by rewrite Hl4, Hh4. }
  assert (Hdash : has "-" (lo ++ "-"%char :: hi) = true).
  { rewrite StrFacts.has_app. cbn. apply orb_true_r. }
  rewrite Hcomma, Hdash. reflexivity.
Qed.

Lemma range_incl_seq (lb ub : nat) : lb < ub -> range_incl lb ub = seq lb (ub - lb + 1).
Proof. intros H. unfold range_incl. f_equal. lia. Qed.

(** The range rule on a specification whose prefix and suffix are in the
    class of the expression. *)
Lemma expand_range (env : Env) (pre lo hi suf : str) :
  forallb path_char pre = true -> forallb path_char suf = true ->
  forallb is_digit lo = true -> lo <> [] ->
  forallb is_digit hi = true -> hi <> [] ->
  to_nat lo < to_nat hi ->
  parse_file_paths env (range_spec pre lo hi suf)
  = Ok (map (fun i => pre ++ of_nat i ++ suf) (seq (to_nat lo) (to_nat hi - to_nat lo + 1))).
Proof.
  intros Hpre Hsuf Hlo Hlo0 Hhi Hhi0 Hlt.
  rewrite parse_range_rule by (try done; by apply path_chars_are_plain).
  rewrite RANGE_REGEX_matches by done. cbn [r_lower r_upper r_expr].
  apply Nat.ltb_lt in Hlt as Hb. rewrite Hb. cbn [negb].
  rewrite range_incl_seq by done. f_equal. apply map_ext. intros i.
  replace (range_spec pre lo hi suf)
    with (pre ++ ("["%char :: lo ++ "-"%char :: hi ++ ["]"%char]) ++ suf).
  - apply StrFacts.replace_once; by apply path_chars_plain.
  - rewrite range_spec_chars. cbn [app]. do 2 f_equal. rewrite <- app_assoc.
    cbn [app]. f_equal. f_equal. by rewrite <- app_assoc.
Qed.

(** The groups of a match are the bounds of the specification. *)
Lemma RANGE_REGEX_groups (pre lo hi suf : str) (m : range_groups) :
  has "[" pre = false ->
  forallb is_digit lo = true -> forallb is_digit hi = true ->
  RANGE_REGEX (range_spec pre lo hi suf) = Some m ->
  r_lower m = lo /\ r_upper m = hi.
Proof.
  intros Hpre Hlo Hhi Hm.
  apply RANGE_REGEX_sound in Hm as (pre' & suf' & Hs & Hpre' & Hlo' & Hhi' & _).
  destruct (digits_plain _ Hlo) as (_ & _ & _ & _ & Hd1).
  destruct (digits_plain _ Hlo') as (_ & _ & _ & _ & Hd2).
  destruct (digits_plain _ Hhi) as (_ & Hb1 & _).
  destruct (digits_plain _ Hhi') as (_ & Hb2 & _).
  destruct (path_chars_plain _ Hpre') as (Hpre2 & _).
  rewrite range_spec_chars in Hs.
  apply (f_equal (split1 "[")) in Hs.
  rewrite !StrFacts.split1_app in Hs by done. injection Hs as _ Hs.
  apply (f_equal (split1 "-")) in Hs.
  rewrite !StrFacts.split1_app in Hs by done. injection Hs as Hl Hs.
  apply (f_equal (split1 "]")) in Hs.
  rewrite !StrFacts.split1_app in Hs by done. injection Hs as Hh _.
  done.
Qed.

(** A range whose upper bound is not above the lower one. *)
Lemma expand_bad_range (env : Env) (pre lo hi suf : str) :
  plain pre -> plain suf ->
  forallb is_digit lo = true -> lo <> [] ->
  forallb is_digit hi = true -> hi <> [] ->
  to_nat hi <= to_nat lo ->
  parse_file_paths env (range_spec pre lo hi suf)
  = Err (if forallb path_char pre && forallb path_char suf
         then UpperNotGreaterThanLower else InvalidRangeExpression)
  \/ parse_file_paths env (range_spec pre lo hi suf) = Err UpperNotGreaterThanLower.
Proof.
  intros Hpre Hsuf Hlo Hlo0 Hhi Hhi0 Hle.
  rewrite parse_range_rule by done.
  assert (Hb : Nat.ltb (to_nat lo) (to_nat hi) = false) by by apply Nat.ltb_ge.
  destruct (forallb path_char pre && forallb path_char suf) eqn:Hc.
  - apply andb_true_iff in Hc as [H1 H2]. rewrite RANGE_REGEX_matches by done.
    cbn [r_lower r_upper]. rewrite Hb. by left.
  - destruct (RANGE_REGEX _) as [m|] eqn:Hm; [|by left].
    apply RANGE_REGEX_groups in Hm as [-> ->]; try done; [|apply Hpre].
    rewrite Hb. by right.
Qed.

Lemma nesting_skip (n : nat) (a b : str) :
  has "[" a = false -> has "]" a = false -> nesting n (a ++ b) = nesting n b.
Proof.
  induction a as [|x a IH]; [done|].
  intros [H1 Ha1]%StrFacts.has_cons_false [H2 Ha2]%StrFacts.has_cons_false.
  cbn [app nesting]. rewrite H1, H2. by apply IH.
Qed.

Lemma one_pair_balanced (pre inner suf : str) :
  has "[" pre = false -> has "]" pre = false ->
  has "[" inner = false -> has "]" inner = false ->
  has "[" suf = false -> has "]" suf = false ->
  balanced (pre ++ "["%char :: inner ++ "]"%char :: suf) = true.
Proof.
  intros. unfold balanced. rewrite nesting_skip by done. cbn [nesting Ascii.eqb].
  cbn. rewrite nesting_skip by done. cbn.
  rewrite <- (app_nil_r suf). by rewrite nesting_skip.
Qed.

Lemma list_chars_plain (s : str) :
  forallb list_char s = true -> has "[" s = false /\ has "]" s = false.
Proof. intros H. split; by apply (StrFacts.has_outside list_char). Qed.

Lemma at_end_plain (s : str) :
  at_end s = true -> has "[" s = false /\ has "]" s = false.
Proof.
  destruct s as [|c [|]]; try done. cbn [at_end]. intros ->%Ascii.eqb_eq. done.
Qed.

(** What a match of [LIST_REGEX] says about the text: one pair of
    brackets, and none elsewhere. *)
Lemma LIST_REGEX_sound (s expr : str) :
  LIST_REGEX s = Some expr ->
  exists pre inner suf,
    s = pre ++ "["%char :: inner ++ "]"%char :: suf
    /\ expr = "["%char :: inner ++ ["]"%char]
    /\ forallb path_char pre = true
    /\ forallb list_char inner = true /\ inner <> []
    /\ has "[" suf = false /\ has "]" suf = false.
Proof.
  unfold LIST_REGEX.
  destruct (span path_char s) as [pre s1] eqn:E1.
  apply StrFacts.span_spec in E1 as (-> & Hpre & _).
  destruct s1 as [|c s2]; [done|].
  destruct (Ascii.eqb c "[") eqn:Ec; [apply Ascii.eqb_eq in Ec as ->|];
    [|by destruct c as [[] [] [] [] [] [] [] []]].
  destruct (span list_char s2) as [inner s3] eqn:E2.
  apply StrFacts.span_spec in E2 as (-> & Hin & _).
  destruct inner as [|i0 inner]; [done|].
  destruct s3 as [|c s4]; [done|].
  destruct (Ascii.eqb c "]") eqn:Ec; [apply Ascii.eqb_eq in Ec as ->|];
    [|by destruct c as [[] [] [] [] [] [] [] []]].
  destruct (span path_char s4) as [suf0 s5] eqn:E3.
  apply StrFacts.span_spec in E3 as (-> & Hsuf & _).
  destruct (at_end s5) eqn:Hend; [|done]. intros [= <-].
  exists pre, (i0 :: inner), (suf0 ++ s5).
  destruct (path_chars_plain _ Hsuf) as (Hs1 & Hs2 & _).
  destruct (at_end_plain _ Hend) as [He1 He2].
  rewrite !StrFacts.has_app, Hs1, Hs2, He1, He2. by repeat split.
Qed.

(** A specification that some bracket rule expands has balanced
    brackets. *)
Lemma LIST_REGEX_balanced (s expr : str) : LIST_REGEX s = Some expr -> balanced s = true.
Proof.
  intros (pre & inner & suf & -> & _ & Hpre & Hin & _ & Hs1 & Hs2)%LIST_REGEX_sound.
  destruct (path_chars_plain _ Hpre) as (? & ? & _).
  destruct (list_chars_plain _ Hin) as (? & ?).
  by apply one_pair_balanced.
Qed.

Lemma RANGE_REGEX_balanced (s : str) (m : range_groups) :
  RANGE_REGEX s = Some m -> balanced s = true.
Proof.
  intros (pre & suf & -> & Hpre & Hlo & Hhi & Hs1 & Hs2)%RANGE_REGEX_sound.
  destruct (path_chars_plain _ Hpre) as (? & ? & _).
  destruct (digits_plain _ Hlo) as (Hl1 & Hl2 & _).
  destruct (digits_plain _ Hhi) as (Hh1 & Hh2 & _).
  replace (r_lower m ++ "-"%char :: r_upper m ++ "]"%char :: suf)
    with ((r_lower m ++ "-"%char :: r_upper m) ++ "]"%char :: suf)
    by (by rewrite <- app_assoc).
  apply one_pair_balanced; try done; has_split; by rewrite ?Hl1, ?Hl2, ?Hh1, ?Hh2.
Qed.

Lemma expand_unbalanced (env : Env) (s : str) :
  has "*" s = false ->
  has "[" s || has "]" s = true ->
  balanced s = false ->
  exists e, parse_file_paths env s = Err e /\ bracket_syntax_error e.
Proof.
  intros Hstar Hbr Hbal. unfold parse_file_paths, bracket_syntax_error. rewrite Hstar.
  destruct (has "[" s) eqn:Hopen; cycle 1.
  { cbn in Hbr. rewrite Hbr. cbn. eauto 10. }
  cbn [negb andb].
  destruct (has "]" s) eqn:Hclose; [|eauto 10]. cbn [negb andb].
  destruct (StrFacts.split1_has _ _ Hopen) as (a & b & -> & _ & _).
  cbn [snd of_option bind].
  destruct (has "]" b); cbn [negb]; [|eauto 10].
  destruct (has "," _).
  - destruct (LIST_REGEX s) as [expr|] eqn:E; [|eauto 10].
    apply LIST_REGEX_balanced in E. congruence.
  - destruct (has "-" _); [|eauto 10].
    destruct (RANGE_REGEX s) as [m|] eqn:E; [|eauto 10].
    apply RANGE_REGEX_balanced in E. congruence.
Qed.

(** Counting a character. *)
Lemma count_has (c : ascii) (s : str) :
  (has c s = false -> count_occ ascii_dec s c = 0)
  /\ (has c s = true -> 1 <= count_occ ascii_dec s c).
Proof.
  induction s as [|x s [IH0 IH1]]; cbn [has count_occ]; [by split|].
  destruct (ascii_dec x c) as [->|Hne].
  - rewrite Ascii.eqb_refl. split; [discriminate|lia].
  - apply Ascii.eqb_neq in Hne. rewrite Hne. by split.
Qed.

(** A text with one pair of brackets has one of each. *)
Lemma one_pair_counts (pre inner suf : str) :
  has "[" pre = false -> has "]" pre = false ->
  has "[" inner = false -> has "]" inner = false ->
  has "[" suf = false -> has "]" suf = false ->
  count_occ ascii_dec (pre ++ "["%char :: inner ++ "]"%char :: suf) "["%char = 1
  /\ count_occ ascii_dec (pre ++ "["%char :: inner ++ "]"%char :: suf) "]"%char = 1.
Proof.
  intros H1 H2 H3 H4 H5 H6.
  rewrite !count_occ_app. cbn [count_occ]. rewrite !count_occ_app. cbn [count_occ].
  rewrite !(proj1 (count_has _ _)) by done.
  split; repeat (destruct (ascii_dec _ _) as [?|?]; try done).
Qed.

(** A range expression after brackets of its own, or before them, has
    more than one bracket of a kind. *)
Lemma range_spec_counts (pre lo hi suf : str) :
  has "[" pre || has "]" pre || has "[" suf || has "]" suf = true ->
  2 <= count_occ ascii_dec (range_spec pre lo hi suf) "["%char
  \/ 2 <= count_occ ascii_dec (range_spec pre lo hi suf) "]"%char.
Proof.
  intros H. rewrite range_spec_chars.
  rewrite !count_occ_app. cbn [count_occ]. rewrite !count_occ_app. cbn [count_occ].
  rewrite !count_occ_app. cbn [count_occ].
  repeat (destruct (ascii_dec _ _) as [?|?]; try done).
  apply orb_true_iff in H as [H|H]; [apply orb_true_iff in H as [H|H];
    [apply orb_true_iff in H as [H|H]|]|];
    apply (proj2 (count_has _ _)) in H; [left|right|left|right]; lia.
Qed.

(** A range expression next to other brackets, in a specification
    without [*]: no bracket rule accepts it. *)
Lemma expand_bracketed_range (env : Env) (pre lo hi suf : str) :
  has "*" pre = false -> has "*" suf = false ->
  forallb is_digit lo = true -> forallb is_digit hi = true ->
  has "[" pre || has "]" pre || has "[" suf || has "]" suf = true ->
  exists e,
    parse_file_paths env (range_spec pre lo hi suf) = Err e /\ bracket_syntax_error e.
Proof.
  intros Hp Hs Hlo Hhi Hbr.
  destruct (digits_plain lo Hlo) as (_ & _ & Hl3 & _).
  destruct (digits_plain hi Hhi) as (_ & _ & Hh3 & _).
  pose proof (range_spec_counts pre lo hi suf Hbr) as Hcount.
  assert (Hstar : has "*" (range_spec pre lo hi suf) = false).
  { rewrite range_spec_chars. has_split. rewrite Hp, Hl3, Hh3, Hs. reflexivity. }
  assert (Hopen : has "[" (range_spec pre lo hi suf) = true).
  { rewrite range_spec_chars, StrFacts.has_app. cbn. apply orb_true_r. }
  assert (Hclose : has "]" (range_spec pre lo hi suf) = true).
  { rewrite range_spec_chars. has_split. cbn. rewrite !orb_true_r. reflexivity. }
  revert Hcount Hstar Hopen Hclose. generalize (range_spec pre lo hi suf). intros s.
  intros Hcount Hstar Hopen Hclose.
  unfold parse_file_paths, bracket_syntax_error. rewrite Hstar, Hopen, Hclose.
  cbn [negb andb].
  destruct (StrFacts.split1_has _ _ Hopen) as (a & b & -> & _ & _).
  cbn [snd of_option bind].
  destruct (has "]" b); cbn [negb]; [|eauto 10].
  destruct (has "," _).
  - destruct (LIST_REGEX s) as [expr|] eqn:E; [|eauto 10]. exfalso.
    apply LIST_REGEX_sound in E
      as (pre' & inner & suf' & -> & _ & Hpre' & Hin & _ & Hs1 & Hs2).
    destruct (path_chars_plain _ Hpre') as (? & ? & _).
    destruct (list_chars_plain _ Hin) as (? & ?).
    destruct (one_pair_counts pre' inner suf') as [Hc1 Hc2]; try done. lia.
  - destruct (has "-" _); [|eauto 10].
    destruct (RANGE_REGEX s) as [m|] eqn:E; [|eauto 10]. exfalso.
    apply RANGE_REGEX_sound in E as (pre' & suf' & -> & Hpre' & Hlo' & Hhi' & Hs1 & Hs2).
    destruct (path_chars_plain _ Hpre') as (? & ? & _).
    destruct (digits_plain _ Hlo') as (Hl1 & Hl2 & _).
    destruct (digits_plain _ Hhi') as (Hh1 & Hh2 & _).
    replace (r_lower m ++ "-"%char :: r_upper m ++ "]"%char :: suf')
      with ((r_lower m ++ "-"%char :: r_upper m) ++ "]"%char :: suf') in Hcount
      by (by rewrite <- app_assoc).
    destruct (one_pair_counts pre' (r_lower m ++ "-"%char :: r_upper m) suf')
      as [Hc1 Hc2]; try done; try (has_split; by rewrite ?Hl1, ?Hl2, ?Hh1, ?Hh2). lia.
Qed.

End ExpandFacts.

(** Claim C6 fails: a prefix free of [*], [[] and []] need not be in the
    class of [RANGE_REGEX], and then no path is returned. *)
Lemma C6_prefix_outside_class :
  plain "a+b" /\ plain ".txt" /\ 1 < 3
  /\ Utils.parse_file_paths test_env
       (range_spec "a+b" (PyStr.of_nat 1) (PyStr.of_nat 3) ".txt")
     = Err InvalidRangeExpression.
Proof.
  repeat split; try reflexivity. lia.
Qed.

(** C6, amended. For a range specification [prefix[N-M]suffix] whose
    prefix and suffix consist of characters of the class [[/\w\.\-\ ]]
    (letters, digits, underscore, slash, dot, hyphen, space) and with
    [M > N], the expander returns exactly the [M - N + 1] paths
    [prefix{i}suffix], for [i] from [N] to [M] in ascending order. *)
Theorem C6_range_expansion (env : Env) (pre suf : str) (N M : nat) :
  forallb Utils.path_char pre = true ->
  forallb Utils.path_char suf = true ->
  N < M ->
  exists paths,
    Utils.parse_file_paths env (range_spec pre (PyStr.of_nat N) (PyStr.of_nat M) suf)
      = Ok paths
    /\ paths = map (fun i => pre ++ PyStr.of_nat i ++ suf) (seq N (M - N + 1))
    /\ length paths = M - N + 1.
Proof.
  intros Hpre Hsuf Hlt. eexists. split; [|split; [reflexivity|]].
  - rewrite ExpandFacts.expand_range;
      rewrite ?StrFacts.to_nat_of_nat;
      auto using StrFacts.of_nat_digits, StrFacts.of_nat_nonempty.
  - by rewrite length_map, length_seq.
Qed.

Lemma C6_range_expansion_witness :
  exists paths,
    Utils.parse_file_paths test_env
      (range_spec "/foo/bar-" (PyStr.of_nat 1) (PyStr.of_nat 3) ".txt") = Ok paths
    /\ paths = map (fun i => lit "/foo/bar-" ++ PyStr.of_nat i ++ lit ".txt") (seq 1 (3 - 1 + 1))
    /\ length paths = 3 - 1 + 1.
Proof.
  apply (C6_range_expansion test_env "/foo/bar-" ".txt" 1 3).
  - reflexivity.
  - reflexivity.
  - lia.
Defined.

(** Claim C7 fails for a range with a [*] in its prefix: the
    specification is handed to glob, whatever its brackets, and with
    [M <= N] it returns what glob finds, a file or nothing. *)
Lemma C7_star_range_is_globbed :
  3 <= 3
  /\ Utils.parse_file_paths glob_env
       (range_spec "/tmp/src/foo*" (PyStr.of_nat 3) (PyStr.of_nat 3) ".txt")
     = Ok [lit "/tmp/src/foo3.txt"]
  /\ 1 <= 3
  /\ Utils.parse_file_paths glob_env
       (range_spec "/tmp/src/foo*" (PyStr.of_nat 3) (PyStr.of_nat 1) ".txt")
     = Ok [].
Proof. repeat split; try lia; reflexivity. Qed.

(** C7, amended. The expander fails in the malformed-bracket cases of a
    specification without [*].  A range [prefix[N-M]suffix] with
    [M <= N] raises an exception: one of the range rule when prefix and
    suffix have no bracket, the one for the bounds when they are in the
    class of the expression, and one for the syntax of brackets when
    they have a bracket.  A specification whose brackets are not
    balanced raises one of the exceptions for the syntax of brackets. *)
Theorem C7_malformed_brackets_fail (env : Env) :
  (forall (pre suf : str) (N M : nat),
      PyStr.has "*" pre = false -> PyStr.has "*" suf = false -> M <= N ->
      exists e,
        Utils.parse_file_paths env
          (range_spec pre (PyStr.of_nat N) (PyStr.of_nat M) suf) = Err e
        /\ (range_error e \/ bracket_syntax_error e)
        /\ (PyStr.has "[" pre = false -> PyStr.has "]" pre = false ->
            PyStr.has "[" suf = false -> PyStr.has "]" suf = false ->
            range_error e)
        /\ (forallb Utils.path_char pre = true -> forallb Utils.path_char suf = true ->
            e = UpperNotGreaterThanLower))
  /\ (forall s : str,
        PyStr.has "*" s = false ->
        PyStr.has "[" s || PyStr.has "]" s = true ->
        balanced s = false ->
        exists e, Utils.parse_file_paths env s = Err e /\ bracket_syntax_error e).
Proof.
  split.
  - intros pre suf N M Hpre Hsuf Hle.
    destruct (PyStr.has "[" pre || PyStr.has "]" pre
              || PyStr.has "[" suf || PyStr.has "]" suf) eqn:Hbr.
    + destruct (ExpandFacts.expand_bracketed_range env pre (PyStr.of_nat N)
                  (PyStr.of_nat M) suf) as (e & He & Hsyn);
        auto using StrFacts.of_nat_digits.
      exists e. split; [exact He|]. split; [by right|]. split.
      * intros H1 H2 H3 H4. by rewrite H1, H2, H3, H4 in Hbr.
      * intros H1 H2.
        destruct (ExpandFacts.path_chars_plain _ H1) as (P1 & P2 & _).
        destruct (ExpandFacts.path_chars_plain _ H2) as (S1 & S2 & _).
        by rewrite P1, P2, S1, S2 in Hbr.
    + apply orb_false_iff in Hbr as [Hbr S2]. apply orb_false_iff in Hbr as [Hbr S1].
      apply orb_false_iff in Hbr as [P1 P2].
      assert (Hp : plain pre) by done. assert (Hs : plain suf) by done.
      destruct (ExpandFacts.expand_bad_range env pre (PyStr.of_nat N) (PyStr.of_nat M) suf)
        as [H|H];
        rewrite ?StrFacts.to_nat_of_nat;
        auto using StrFacts.of_nat_digits, StrFacts.of_nat_nonempty.
      * eexists. split; [exact H|]. unfold range_error.
        destruct (forallb Utils.path_char pre && forallb Utils.path_char suf) eqn:E.
        -- auto.
        -- split; [auto|]. split; [auto|]. intros H1 H2. by rewrite H1, H2 in E.
      * eexists. split; [exact H|]. unfold range_error. auto.
  - apply ExpandFacts.expand_unbalanced.
Qed.

Lemma C7_malformed_brackets_fail_witness :
  (exists e,
      Utils.parse_file_paths test_env
        (range_spec "/foo/bar-" (PyStr.of_nat 3) (PyStr.of_nat 1) ".txt") = Err e
      /\ (range_error e \/ bracket_syntax_error e)
      /\ (PyStr.has "[" "/foo/bar-" = false -> PyStr.has "]" "/foo/bar-" = false ->
          PyStr.has "[" ".txt" = false -> PyStr.has "]" ".txt" = false ->
          range_error e)
      /\ (forallb Utils.path_char "/foo/bar-" = true ->
          forallb Utils.path_char ".txt" = true ->
          e = UpperNotGreaterThanLower))
  /\ (exists e, Utils.parse_file_paths test_env "/foo/bar-[1-3.txt" = Err e
                /\ bracket_syntax_error e).
Proof.
  split.
  - apply (proj1 (C7_malformed_brackets_fail test_env) "/foo/bar-" ".txt" 3 1).
    + reflexivity.
    + reflexivity.
    + lia.
  - apply (proj2 (C7_malformed_brackets_fail test_env) "/foo/bar-[1-3.txt"); reflexivity.
Defined.
(** ** The merge *)

(** A key of [data1] is a key of the merge. *)
Lemma merge_items_has (k : str) (d2 d1 : dict) :
  dict_has k d1 = true -> dict_has k (Utils.merge_items d2 d1) = true.
Proof.
  revert d1. induction d2 as [|[key v] rest IH]; intros d1 H; cbn; [done|].
  apply IH. destruct (dict_get key d1); by apply dict_has_set.
Qed.

Lemma merge_dict_unfold (d1 d2 : dict) :
  Utils.merge_yaml_data (YDict d1) (YDict d2) = YDict (Utils.merge_items d2 d1).
Proof.
  reflexivity.
Qed.

(** C5. Deep merge of one-key mappings: the right scalar wins, sequences
    are concatenated left then right, nested mappings are merged key by
    key. *)
Theorem C5_merge_equations :
  Utils.merge_yaml_data (YDict [("a" : str, YInt 1)]) (YDict [("a" : str, YInt 2)])
    = YDict [("a" : str, YInt 2)]
  /\ Utils.merge_yaml_data (YDict [("a" : str, YList [YInt 1])])
                           (YDict [("a" : str, YList [YInt 2])])
    = YDict [("a" : str, YList [YInt 1; YInt 2])]
  /\ Utils.merge_yaml_data (YDict [("a" : str, YDict [("b" : str, YInt 1)])])
                           (YDict [("a" : str, YDict [("c" : str, YInt 2)])])
    = YDict [("a" : str, YDict [("b" : str, YInt 1); ("c" : str, YInt 2)])].
Proof.
  repeat split; reflexivity.
Qed.

(** ** The store model of the merge *)

Module HeapFacts.
Import Heap.

Lemma merge_unfold (fuel : nat) (d1 d2 : val) (h : heap) :
  merge_yaml_data (S fuel) d1 d2 h =
  match d1, d2 with
  | VStr _, VStr _ => Some (d2, h)
  | VRef l1, VRef l2 =>
      match h !! l1, h !! l2 with
      | Some (OList _), Some (OList _) =>
          '(return_list, h) ← copy l1 h;
          '(tmp, h) ← copy l2 h;
          h ← extend return_list tmp h;
          Some (VRef return_list, h)
      | Some (ODict _), Some (ODict _) =>
          '(return_dict, h) ← copy l1 h;
          h ← merge_items fuel l2 return_dict fuel 0 h;
          Some (VRef return_dict, h)
      | Some _, Some _ => Some (d2, h)
      | _, _ => None
      end
  | _, _ => Some (d2, h)
  end.
Proof. reflexivity. Qed.

Lemma copy_spec l h r h' :
  copy l h = Some (r, h') -> exists o, h !! l = Some o /\ r = length h /\ h' = h ++ [o].
Proof.
  unfold copy, alloc. destruct (h !! l) as [o|] eqn:E; [|discriminate].
  intros [= <- <-]. eauto.
Qed.

Lemma insert_keeps_prefix (h0 h : heap) (l : loc) (o : obj) :
  h0 `prefix_of` h -> length h0 <= l -> h0 `prefix_of` <[l := o]> h.
Proof.
  intros [ext ->] Hl. exists (<[l - length h0 := o]> ext).
  apply insert_app_r_alt. exact Hl.
Qed.

Lemma extend_keeps_prefix h0 a b h h' :
  extend a b h = Some h' -> h0 `prefix_of` h -> length h0 <= a -> h0 `prefix_of` h'.
Proof.
  unfold extend. destruct (h !! a) as [[xs|]|]; try discriminate.
  destruct (h !! b) as [[ys|]|]; try discriminate.
  intros [= <-] Hp Hl. by apply insert_keeps_prefix.
Qed.

Lemma store_item_keeps_prefix h0 d k v h h' :
  store_item d k v h = Some h' -> h0 `prefix_of` h -> length h0 <= d -> h0 `prefix_of` h'.
Proof.
  unfold store_item. destruct (h !! d) as [[|items]|]; try discriminate.
  intros [= <-] Hp Hl. by apply insert_keeps_prefix.
Qed.

Lemma merge_items_frame fuel
  (IH : forall d1 d2 h r h', merge_yaml_data fuel d1 d2 h = Some (r, h') -> h `prefix_of` h') :
  forall n l2 rd i h h' h0,
    merge_items fuel l2 rd n i h = Some h' ->
    h0 `prefix_of` h -> length h0 <= rd -> h0 `prefix_of` h'.
Proof.
  induction n as [|n IHn]; intros l2 rd i h h' h0 Hm Hp Hl; [discriminate|].
  cbn [merge_items] in Hm. fold (merge_items fuel l2 rd) in Hm.
  destruct (h !! l2) as [[|kvs]|]; try discriminate. cbn in Hm.
  destruct (kvs !! i) as [[key v]|]; [|by injection Hm as <-].
  destruct (h !! rd) as [[|cur]|]; try discriminate. cbn in Hm.
  destruct (dict_get key cur) as [old|].
  - destruct (merge_yaml_data fuel old v h) as [[m h1]|] eqn:E1; [|discriminate]. cbn in Hm.
    destruct (store_item rd key m h1) as [h2|] eqn:E2; [|discriminate]. cbn in Hm.
    eapply IHn; [exact Hm| |exact Hl].
    eapply store_item_keeps_prefix; [exact E2| |exact Hl].
    etransitivity; [exact Hp|]. eapply IH, E1.
  - destruct (store_item rd key v h) as [h2|] eqn:E2; [|discriminate]. cbn in Hm.
    eapply IHn; [exact Hm| |exact Hl].
    eapply store_item_keeps_prefix; [exact E2|exact Hp|exact Hl].
Qed.

Lemma merge_frame fuel :
  forall d1 d2 h r h', merge_yaml_data fuel d1 d2 h = Some (r, h') -> h `prefix_of` h'.
Proof.
  induction fuel as [|fuel IH]; intros d1 d2 h r h' Hm; [discriminate|].
  rewrite merge_unfold in Hm.
  destruct d1 as [| | | |l1]; destruct d2 as [| | | |l2];
    try (injection Hm as <- <-; reflexivity).
  destruct (h !! l1) as [[xs|kv1]|] eqn:E1; [| |discriminate];
    (destruct (h !! l2) as [[ys|kv2]|] eqn:E2; [| |discriminate]);
    try (injection Hm as <- <-; reflexivity).
  - destruct (copy l1 h) as [[rl h1]|] eqn:C1; [|discriminate]. cbn in Hm.
    destruct (copy l2 h1) as [[tmp h2]|] eqn:C2; [|discriminate]. cbn in Hm.
    destruct (extend rl tmp h2) as [h3|] eqn:X; [|discriminate]. cbn in Hm.
    injection Hm as <- <-.
    apply copy_spec in C1 as (o1 & _ & -> & ->).
    apply copy_spec in C2 as (o2 & _ & _ & ->).
    eapply extend_keeps_prefix; [exact X| |reflexivity].
    rewrite <- app_assoc. by apply prefix_app_r.
  - destruct (copy l1 h) as [[rd h1]|] eqn:C1; [|discriminate]. cbn in Hm.
    destruct (merge_items fuel l2 rd fuel 0 h1) as [h2|] eqn:M; [|discriminate]. cbn in Hm.
    injection Hm as <- <-.
    apply copy_spec in C1 as (o1 & _ & -> & ->).
    eapply (merge_items_frame fuel IH); [exact M| |reflexivity].
    by apply prefix_app_r.
Qed.

Lemma mapM_mono {A B} (f g : A -> option B) (l : list A) (ys : list B) :
  (forall x y, f x = Some y -> g x = Some y) ->
  mapM f l = Some ys -> mapM g l = Some ys.
Proof.
  intros Hfg. revert ys. induction l as [|x l IH]; intros ys; [done|].
  cbn. destruct (f x) as [y|] eqn:Ex; [|discriminate]. cbn.
  destruct (mapM f l) as [k|]; [|discriminate]. cbn. intros [= <-].
  rewrite (Hfg _ _ Ex). cbn. rewrite (IH k eq_refl). reflexivity.
Qed.

(** What a value denotes through [dom] depends on the objects at [dom]
    only, and grows with [dom]. *)
Lemma reify_in_mono (dom dom' : loc -> bool) (n : nat) (h h' : heap) (v : val) (t : yaml) :
  (forall l, dom l = true -> dom' l = true /\ h' !! l = h !! l) ->
  reify_in dom n h v = Some t -> reify_in dom' n h' v = Some t.
Proof.
  intros Hd. revert v t. induction n as [|n IH]; intros v t; [discriminate|].
  cbn [reify_in]. destruct v as [| | | |l]; try done.
  destruct (dom l) eqn:El; [|discriminate].
  destruct (Hd l El) as [-> ->].
  destruct (h !! l) as [o|] eqn:E; [|discriminate]. cbn.
  destruct o as [items|items]; cbn.
  - destruct (mapM (reify_in dom n h) items) as [ys|] eqn:M; [|discriminate].
    rewrite (mapM_mono _ (reify_in dom' n h') _ _ (IH) M). done.
  - destruct (mapM _ items) as [ys|] eqn:M; [|discriminate].
    erewrite mapM_mono; [done| |exact M].
    intros [k x] y. cbn. destruct (reify_in dom n h x) as [tx|] eqn:Ex; [|discriminate].
    rewrite (IH _ _ Ex). done.
Qed.

(** Values that a store can reify use its locations only. *)
Lemma reify_in_bounds (n : nat) (h : heap) (v : val) (t : yaml) :
  reify n h v = Some t -> reify_in (fun l => bool_decide (l < length h)) n h v = Some t.
Proof.
  unfold reify. revert v t. induction n as [|n IH]; intros v t; [discriminate|].
  cbn [reify_in]. destruct v as [| | | |l]; try done.
  destruct (h !! l) as [o|] eqn:E; [|discriminate].
  rewrite bool_decide_eq_true_2 by (by eapply lookup_lt_Some). cbn.
  destruct o as [items|items]; cbn.
  - destruct (mapM _ items) as [ys|] eqn:M; [|discriminate].
    rewrite (mapM_mono _ _ _ _ (IH) M). done.
  - destruct (mapM _ items) as [ys|] eqn:M; [|discriminate].
    erewrite mapM_mono; [done| |exact M].
    intros [k x] y. cbn. destruct (reify_in _ n h x) as [tx|] eqn:Ex; [|discriminate].
    rewrite (IH _ _ Ex). done.
Qed.

(** What a value denotes is not changed by allocation. *)
Lemma reify_prefix (n : nat) (h h' : heap) (v : val) (t : yaml) :
  h `prefix_of` h' -> reify n h v = Some t -> reify n h' v = Some t.
Proof.
  intros Hp Hin%reify_in_bounds. eapply reify_in_mono; [|exact Hin].
  intros l Hl. apply bool_decide_eq_true in Hl. split; [done|].
  destruct Hp as [ext ->]. by apply lookup_app_l.
Qed.

(** The result is the second argument or a new object. *)
Lemma merge_result (fuel : nat) (d1 d2 r : val) (h h' : heap) :
  merge_yaml_data fuel d1 d2 h = Some (r, h') ->
  r = d2 \/ r = VRef (length h).
Proof.
  destruct fuel as [|fuel]; [discriminate|]. rewrite merge_unfold.
  destruct d1 as [| | | |l1]; destruct d2 as [| | | |l2];
    try (intros [= <- <-]; by left).
  destruct (h !! l1) as [[xs|kv1]|] eqn:E1; [| |discriminate];
    (destruct (h !! l2) as [[ys|kv2]|] eqn:E2; [| |discriminate]);
    try (intros [= <- <-]; by left).
  - destruct (copy l1 h) as [[rl h1]|] eqn:C1; [|discriminate]. cbn.
    destruct (copy l2 h1) as [[tmp h2]|] eqn:C2; [|discriminate]. cbn.
    destruct (extend rl tmp h2) as [h3|]; [|discriminate]. cbn.
    intros [= <- <-]. apply copy_spec in C1 as (o1 & _ & -> & _). by right.
  - destruct (copy l1 h) as [[rd h1]|] eqn:C1; [|discriminate]. cbn.
    destruct (merge_items fuel l2 rd fuel 0 h1) as [h2|]; [|discriminate]. cbn.
    intros [= <- <-]. apply copy_spec in C1 as (o1 & _ & -> & _). by right.
Qed.

End HeapFacts.

Module HeapRefine.
Import Heap HeapFacts.

Lemma merge_items_unfold fuel l2 rd n i h :
  merge_items fuel l2 rd (S n) i h =
  (d2 ← h !! l2;
   match d2 with
   | ODict kvs =>
       match kvs !! i with
       | None => Some h
       | Some (key, val) =>
           r ← h !! rd;
           match r with
           | ODict cur =>
               match dict_get key cur with
               | Some old =>
                   '(m, h) ← merge_yaml_data fuel old val h;
                   h ← store_item rd key m h;
                   merge_items fuel l2 rd n (S i) h
               | None =>
                   h ← store_item rd key val h;
                   merge_items fuel l2 rd n (S i) h
               end
           | OList _ => None
           end
       end
   | OList _ => None
   end).
Proof. reflexivity. Qed.

Lemma merge_items_mono fuel fuel'
  (IH : forall d1 d2 h res, merge_yaml_data fuel d1 d2 h = Some res ->
                            merge_yaml_data fuel' d1 d2 h = Some res) :
  forall n n' l2 rd i h h',
    n <= n' ->
    merge_items fuel l2 rd n i h = Some h' ->
    merge_items fuel' l2 rd n' i h = Some h'.
Proof.
  induction n as [|n IHn]; intros n' l2 rd i h h' Hle; [discriminate|].
  destruct n' as [|n']; [lia|]. rewrite !merge_items_unfold.
  destruct (h !! l2) as [[|kvs]|]; try done. cbn.
  destruct (kvs !! i) as [[key v]|]; [|done].
  destruct (h !! rd) as [[|cur]|]; try done. cbn.
  destruct (dict_get key cur) as [old|].
  - destruct (merge_yaml_data fuel old v h) as [[m h1]|] eqn:E1; [|discriminate].
    rewrite (IH _ _ _ _ E1). cbn.
    destruct (store_item rd key m h1) as [h2|]; [|discriminate]. cbn.
    apply IHn. lia.
  - destruct (store_item rd key v h) as [h2|]; [|discriminate]. cbn.
    apply IHn. lia.
Qed.

(** More fuel does not change a result. *)
Lemma merge_fuel_mono fuel :
  forall fuel' d1 d2 h res,
    fuel <= fuel' ->
    merge_yaml_data fuel d1 d2 h = Some res ->
    merge_yaml_data fuel' d1 d2 h = Some res.
Proof.
  induction fuel as [|fuel IH]; intros fuel' d1 d2 h res Hle; [discriminate|].
  destruct fuel' as [|fuel']; [lia|]. rewrite !merge_unfold.
  destruct d1 as [| | | |l1]; destruct d2 as [| | | |l2]; try done.
  destruct (h !! l1) as [[xs|kv1]|]; [| |done];
    (destruct (h !! l2) as [[ys|kv2]|]; [| |done]); try done.
  destruct (copy l1 h) as [[rd h1]|]; [|done]. cbn.
  destruct (merge_items fuel l2 rd fuel 0 h1) as [h2|] eqn:M; [|discriminate].
  rewrite (merge_items_mono fuel fuel' (fun d1 d2 h res => IH fuel' d1 d2 h res ltac:(lia))
             fuel fuel' l2 rd 0 h1 h2 ltac:(lia) M).
  done.
Qed.

Lemma reify_items_mono dom dom' n h h' kvs tkvs :
  (forall l, dom l = true -> dom' l = true /\ h' !! l = h !! l) ->
  reify_items dom n h kvs = Some tkvs -> reify_items dom' n h' kvs = Some tkvs.
Proof.
  intros Hd. apply mapM_mono. intros [k x] y. cbn.
  destruct (reify_in dom n h x) as [tx|] eqn:Ex; [|discriminate].
  by rewrite (reify_in_mono _ _ _ _ _ _ _ Hd Ex).
Qed.

Lemma reify_items_cons dom n h k v kvs tkvs :
  reify_items dom n h ((k, v) :: kvs) = Some tkvs ->
  exists tv tkvs', tkvs = (k, tv) :: tkvs' /\ reify_in dom n h v = Some tv
                   /\ reify_items dom n h kvs = Some tkvs'.
Proof.
  unfold reify_items. cbn.
  destruct (reify_in dom n h v) as [tv|]; [|discriminate]. cbn.
  destruct (mapM _ kvs) as [tkvs'|]; [|discriminate]. cbn.
  intros [= <-]. eauto.
Qed.

Lemma reify_items_cons_intro dom n h k v kvs tv tkvs :
  reify_in dom n h v = Some tv -> reify_items dom n h kvs = Some tkvs ->
  reify_items dom n h ((k, v) :: kvs) = Some ((k, tv) :: tkvs).
Proof. unfold reify_items. cbn. by intros -> ->. Qed.

Lemma reify_items_get dom n h kvs tkvs (k : str) :
  reify_items dom n h kvs = Some tkvs ->
  match dict_get k kvs with
  | Some old => exists told, reify_in dom n h old = Some told /\ dict_get k tkvs = Some told
  | None => dict_get k tkvs = None
  end.
Proof.
  revert tkvs. induction kvs as [|[k0 v0] kvs IH]; intros tkvs.
  - by intros [= <-].
  - intros (tv & tkvs' & -> & Hv & Hk)%reify_items_cons. cbn.
    destruct (PyStr.eqb k0 k); [eauto|]. by apply IH.
Qed.

Lemma reify_items_set dom n h kvs tkvs (k : str) v tv :
  reify_items dom n h kvs = Some tkvs -> reify_in dom n h v = Some tv ->
  reify_items dom n h (dict_set k v kvs) = Some (dict_set k tv tkvs).
Proof.
  intros Hk Hv. revert tkvs Hk. induction kvs as [|[k0 v0] kvs IH]; intros tkvs.
  - intros [= <-]. cbn [dict_set]. by apply reify_items_cons_intro.
  - intros (tv0 & tkvs' & -> & Hv0 & Hk)%reify_items_cons. cbn [dict_set].
    destruct (PyStr.eqb k0 k).
    + by apply reify_items_cons_intro.
    + apply reify_items_cons_intro; [done|]. by apply IH.
Qed.

Lemma reify_items_lookup dom n h kvs tkvs (i : nat) :
  reify_items dom n h kvs = Some tkvs ->
  match kvs !! i with
  | Some (k, v) => exists tv, reify_in dom n h v = Some tv /\ tkvs !! i = Some (k, tv)
  | None => tkvs !! i = None
  end.
Proof.
  revert tkvs i. induction kvs as [|[k0 v0] kvs IH]; intros tkvs i.
  - by intros [= <-].
  - intros (tv0 & tkvs' & -> & Hv0 & Hk)%reify_items_cons.
    destruct i as [|i]; cbn; [eauto|]. by apply IH.
Qed.

Lemma dom_new_true dom lo hi l :
  dom_new dom lo hi l = true <-> dom l = true \/ lo <= l < hi.
Proof.
  unfold dom_new. rewrite orb_true_iff, bool_decide_eq_true. done.
Qed.

Section loop.
Variable n : nat.
Hypothesis IH : refines_at n.
Variables (dom : loc -> bool) (h : heap) (l2 : loc).
Variables (kvs2 : list (str * val)) (tkvs2 : dict).
Hypothesis Hdom : forall l, dom l = true -> l < length h.
Hypothesis Hl2 : h !! l2 = Some (ODict kvs2).
Hypothesis Hkvs2 : reify_items dom n h kvs2 = Some tkvs2.

Let rd := length h.

Lemma loop_refines (k : nat) :
  forall i hc cur tcur,
    length kvs2 - i <= k ->
    h `prefix_of` hc -> rd < length hc ->
    hc !! rd = Some (ODict cur) ->
    reify_items (dom_new dom (S rd) (length hc)) n hc cur = Some tcur ->
    exists fuel hf curf,
      (forall cnt, k < cnt -> merge_items fuel l2 rd cnt i hc = Some hf)
      /\ h `prefix_of` hf /\ rd < length hf
      /\ hf !! rd = Some (ODict curf)
      /\ reify_items (dom_new dom (S rd) (length hf)) n hf curf
         = Some (Utils.merge_items (drop i tkvs2) tcur).
Proof.
  induction k as [|k IHk]; intros i hc cur tcur Hk Hpre Hrd Hcur Hr.
  - pose proof (reify_items_lookup _ _ _ _ _ i Hkvs2) as Hi.
    assert (Hnone : kvs2 !! i = None) by (apply lookup_ge_None; lia).
    rewrite Hnone in Hi. apply lookup_ge_None in Hi.
    exists 0, hc, cur. split; [|by rewrite drop_ge by lia].
    intros [|cnt] Hcnt; [lia|]. rewrite merge_items_unfold.
    rewrite (prefix_lookup_Some _ _ _ _ Hl2 Hpre). cbn. by rewrite Hnone.
  - pose proof (reify_items_lookup _ _ _ _ _ i Hkvs2) as Hi.
    destruct (kvs2 !! i) as [[key v]|] eqn:Ei; cycle 1.
    { apply lookup_ge_None in Hi.
      exists 0, hc, cur. split; [|by rewrite drop_ge by lia].
      intros [|cnt] Hcnt; [lia|]. rewrite merge_items_unfold.
      rewrite (prefix_lookup_Some _ _ _ _ Hl2 Hpre). cbn. by rewrite Ei. }
    destruct Hi as (tv & Hv & Hti).
    assert (Hagree : forall l, dom l = true ->
              dom_new dom (S rd) (length hc) l = true /\ hc !! l = h !! l).
    { intros l Hl. split; [apply dom_new_true; by left|].
      destruct Hpre as [ext ->]. apply lookup_app_l. by apply Hdom. }
    assert (Hvc : reify_in (dom_new dom (S rd) (length hc)) n hc v = Some tv)
      by (by eapply reify_in_mono).
    rewrite (drop_S _ _ _ Hti). cbn [Utils.merge_items].
    pose proof (reify_items_get _ _ _ _ _ key Hr) as Hget.
    assert (Hstep : forall m tm h1,
              hc `prefix_of` h1 ->
              reify_in (dom_new (dom_new dom (S rd) (length hc)) (length hc) (length h1)) n h1 m
                = Some tm ->
              exists h2,
                store_item rd key m h1 = Some h2
                /\ h `prefix_of` h2 /\ rd < length h2
                /\ h2 !! rd = Some (ODict (dict_set key m cur))
                /\ reify_items (dom_new dom (S rd) (length h2)) n h2 (dict_set key m cur)
                   = Some (dict_set key tm tcur)).
    { intros m tm h1 Hp1 Hm.
      assert (Hlen : length hc <= length h1) by (by apply prefix_length).
      exists (<[rd := ODict (dict_set key m cur)]> h1).
      unfold store_item. rewrite (prefix_lookup_Some _ _ _ _ Hcur Hp1).
      split; [done|]. split; [|split; [|split]].
      - apply insert_keeps_prefix; [by etransitivity|done].
      - rewrite length_insert. lia.
      - apply list_lookup_insert_eq. lia.
      - rewrite length_insert. apply reify_items_set.
        + eapply reify_items_mono; [|exact Hr].
          intros l [Hl|Hl]%dom_new_true.
          * split; [apply dom_new_true; by left|].
            apply Hdom in Hl. rewrite list_lookup_insert_ne by (unfold rd; lia).
            destruct Hp1 as [ext ->]. apply lookup_app_l. lia.
          * split; [apply dom_new_true; right; lia|].
            rewrite list_lookup_insert_ne by lia.
            destruct Hp1 as [ext ->]. apply lookup_app_l. lia.
        + eapply reify_in_mono; [|exact Hm].
          intros l [[Hl|Hl]%dom_new_true|Hl]%dom_new_true.
          * split; [apply dom_new_true; by left|].
            apply Hdom in Hl. rewrite list_lookup_insert_ne by (unfold rd; lia). done.
          * split; [apply dom_new_true; right; lia|].
            rewrite list_lookup_insert_ne by lia. done.
          * split; [apply dom_new_true; right; lia|].
            rewrite list_lookup_insert_ne by lia. done. }
    destruct (dict_get key cur) as [old|] eqn:Eold.
    + destruct Hget as (told & Hold & ->).
      destruct (IH (dom_new dom (S rd) (length hc)) hc old v told tv) as (f1 & m & h1 & Hm & Hrm);
        [|done|done|].
      { intros l [Hl|Hl]%dom_new_true; [|lia]. apply Hdom in Hl.
        apply prefix_length in Hpre. lia. }
      pose proof (merge_frame _ _ _ _ _ _ Hm) as Hp1.
      destruct (Hstep m _ h1 Hp1 Hrm) as (h2 & Hst & Hp2 & Hrd2 & Hcur2 & Hr2).
      destruct (IHk (S i) h2 _ _ ltac:(lia) Hp2 Hrd2 Hcur2 Hr2)
        as (f2 & hf & curf & Hloop & Hpf & Hrdf & Hcurf & Hrf).
      exists (Nat.max f1 f2), hf, curf. split; [|done].
      intros [|cnt] Hcnt; [lia|]. rewrite merge_items_unfold.
      rewrite (prefix_lookup_Some _ _ _ _ Hl2 Hpre). cbn. rewrite Ei, Hcur. cbn.
      rewrite Eold.
      rewrite (merge_fuel_mono f1 (Nat.max f1 f2) _ _ _ _ ltac:(lia) Hm). cbn.
      rewrite Hst. cbn.
      eapply (merge_items_mono f2); [|reflexivity|apply Hloop; lia].
      intros ????. apply merge_fuel_mono. lia.
    + rewrite Hget.
      destruct (Hstep v tv hc ltac:(done)) as (h2 & Hst & Hp2 & Hrd2 & Hcur2 & Hr2).
      { eapply reify_in_mono; [|exact Hvc].
        intros l Hl. split; [apply dom_new_true; by left|done]. }
      destruct (IHk (S i) h2 _ _ ltac:(lia) Hp2 Hrd2 Hcur2 Hr2)
        as (f2 & hf & curf & Hloop & Hpf & Hrdf & Hcurf & Hrf).
      exists f2, hf, curf. split; [|done].
      intros [|cnt] Hcnt; [lia|]. rewrite merge_items_unfold.
      rewrite (prefix_lookup_Some _ _ _ _ Hl2 Hpre). cbn. rewrite Ei, Hcur. cbn.
      rewrite Eold, Hst. cbn. apply Hloop. lia.
Qed.

End loop.

Lemma mapM_app_Some {A B} (f : A -> option B) (xs ys : list A) (txs tys : list B) :
  mapM f xs = Some txs -> mapM f ys = Some tys -> mapM f (xs ++ ys) = Some (txs ++ tys).
Proof.
  revert txs. induction xs as [|x xs IHx]; intros txs; cbn.
  - by intros [= <-].
  - destruct (f x) as [tx|]; [|discriminate]. cbn.
    destruct (mapM f xs) as [txs'|]; [|discriminate]. cbn.
    intros [= <-] Hys. by rewrite (IHx _ eq_refl Hys).
Qed.

(** A scalar, or a pair of objects of different kinds: the merge is the
    second document. *)
Lemma merge_second (t1 t2 : yaml) :
  match t1, t2 with
  | YList _, YList _ | YDict _, YDict _ => False
  | _, _ => True
  end ->
  Utils.merge_yaml_data t1 t2 = t2.
Proof. by destruct t1, t2. Qed.

Lemma refines : forall n, refines_at n.
Proof.
  induction n as [|n IH]; intros dom h d1 d2 t1 t2 Hdom H1 H2; [discriminate|].
  assert (Hsame : forall t, reify_in dom (S n) h d2 = Some t ->
            reify_in (dom_new dom (length h) (length h)) (S n) h d2 = Some t).
  { intros t. apply reify_in_mono. intros l Hl. split; [|done].
    apply dom_new_true. by left. }
  destruct d1 as [| | | |l1]; destruct d2 as [| | | |l2];
    try (eexists 1, _, _; split; [reflexivity|];
         rewrite merge_second; [by apply Hsame|];
         cbn [reify_in] in H1, H2;
         first [injection H1 as <-; by destruct t2|injection H2 as <-; by destruct t1]).
  cbn [reify_in] in H1, H2.
  destruct (dom l1) eqn:Ed1; [|discriminate].
  destruct (dom l2) eqn:Ed2; [|discriminate].
  destruct (h !! l1) as [o1|] eqn:E1; [|discriminate].
  destruct (h !! l2) as [o2|] eqn:E2; [|discriminate]. cbn in H1, H2.
  destruct o1 as [xs|kvs1], o2 as [ys|kvs2].
  - (* two lists *)
    destruct (mapM (reify_in dom n h) xs) as [txs|] eqn:Mx; [|discriminate].
    destruct (mapM (reify_in dom n h) ys) as [tys|] eqn:My; [|discriminate].
    cbn in H1, H2. injection H1 as <-. injection H2 as <-.
    set (h2 := (h ++ [OList xs]) ++ [OList ys]).
    exists 1, (VRef (length h)), (<[length h := OList (xs ++ ys)]> h2). split.
    + rewrite merge_unfold, E1, E2. unfold copy, alloc. rewrite E1. cbn.
      rewrite (lookup_app_l_Some _ _ _ _ E2). cbn.
      unfold extend. rewrite length_app. cbn [length].
      replace ((h ++ [OList xs]) ++ [OList ys]) with (h ++ [OList xs; OList ys])
        by (by rewrite <- app_assoc).
      rewrite (lookup_app_r h) by lia. rewrite Nat.sub_diag. cbn.
      rewrite (lookup_app_r h) by lia.
      replace (length h + 1 - length h) with 1 by lia. cbn.
      subst h2. by rewrite <- app_assoc.
    + cbn [reify_in Utils.merge_yaml_data].
      assert (Hlen : length (<[length h := OList (xs ++ ys)]> h2) = length h + 2).
      { rewrite length_insert. subst h2. rewrite !length_app. cbn. lia. }
      rewrite Hlen.
      assert (Hin : dom_new dom (length h) (length h + 2) (length h) = true)
        by (apply dom_new_true; right; lia).
      rewrite Hin. rewrite list_lookup_insert_eq by (subst h2; rewrite !length_app; cbn; lia).
      cbn.
      assert (Hagree : forall l, dom l = true ->
                dom_new dom (length h) (length h + 2) l = true
                /\ <[length h := OList (xs ++ ys)]> h2 !! l = h !! l).
      { intros l Hl. split; [apply dom_new_true; by left|].
        apply Hdom in Hl. rewrite list_lookup_insert_ne by lia.
        subst h2. rewrite <- app_assoc. by apply lookup_app_l. }
      erewrite mapM_app_Some; [done| |].
      * eapply mapM_mono; [|exact Mx]. intros x y. by apply reify_in_mono.
      * eapply mapM_mono; [|exact My]. intros x y. by apply reify_in_mono.
  - (* a list and a mapping *)
    exists 1, (VRef l2), h. split; [by rewrite merge_unfold, E1, E2|].
    destruct (mapM _ xs) as [txs|]; [|discriminate].
    destruct (mapM _ kvs2) as [tkvs|] eqn:M2; [|discriminate].
    cbn in H1, H2. injection H1 as <-. injection H2 as <-.
    cbn [Utils.merge_yaml_data]. apply Hsame. cbn [reify_in]. rewrite Ed2, E2. cbn.
    by rewrite M2.
  - (* a mapping and a list *)
    exists 1, (VRef l2), h. split; [by rewrite merge_unfold, E1, E2|].
    destruct (mapM _ kvs1) as [tkvs|]; [|discriminate].
    destruct (mapM _ ys) as [tys|] eqn:M2; [|discriminate].
    cbn in H1, H2. injection H1 as <-. injection H2 as <-.
    cbn [Utils.merge_yaml_data]. apply Hsame. cbn [reify_in]. rewrite Ed2, E2. cbn.
    by rewrite M2.
  - (* two mappings *)
    destruct (mapM _ kvs1) as [tkvs1|] eqn:M1; [|discriminate].
    destruct (mapM _ kvs2) as [tkvs2|] eqn:M2; [|discriminate].
    cbn in H1, H2. injection H1 as <-. injection H2 as <-.
    set (h1 := h ++ [ODict kvs1]).
    destruct (loop_refines n IH dom h l2 kvs2 tkvs2 Hdom E2 M2 (length kvs2)
                0 h1 kvs1 tkvs1) as (f & hf & curf & Hloop & Hpf & Hrdf & Hcurf & Hrf).
    + lia.
    + by apply prefix_app_r.
    + subst h1. rewrite length_app. cbn. lia.
    + subst h1. rewrite lookup_app_r by lia. by rewrite Nat.sub_diag.
    + eapply reify_items_mono; [|exact M1].
      intros l Hl. split; [apply dom_new_true; by left|].
      apply lookup_app_l. by apply Hdom.
    + set (F := Nat.max f (S (length kvs2))).
      exists (S F), (VRef (length h)), hf. split.
      * rewrite merge_unfold, E1, E2. unfold copy, alloc. rewrite E1. cbn.
        fold h1.
        erewrite (merge_items_mono f F); [done| |reflexivity|apply Hloop; lia].
        intros ????. apply merge_fuel_mono. lia.
      * rewrite merge_dict_unfold. cbn [reify_in].
        assert (Hin : dom_new dom (length h) (length hf) (length h) = true)
          by (apply dom_new_true; right; lia).
        rewrite Hin, Hcurf. cbn.
        rewrite drop_0 in Hrf. fold (reify_items (dom_new dom (length h) (length hf)) n hf curf).
        erewrite reify_items_mono; [done| |exact Hrf].
        intros l [Hl|Hl]%dom_new_true; (split; [|done]); apply dom_new_true; [by left|right; lia].
Qed.

(** On arguments that denote documents, the merge on the store returns
    with enough fuel, and its result denotes the merge of the
    documents. *)
Theorem merge_on_store_refines (n : nat) (h : heap) (d1 d2 : val) (t1 t2 : yaml) :
  reify n h d1 = Some t1 ->
  reify n h d2 = Some t2 ->
  exists fuel r h',
    merge_yaml_data fuel d1 d2 h = Some (r, h')
    /\ reify n h' r = Some (Utils.merge_yaml_data t1 t2).
Proof.
  intros H1%reify_in_bounds H2%reify_in_bounds.
  destruct (refines n (fun l => bool_decide (l < length h)) h d1 d2 t1 t2)
    as (fuel & r & h' & Hm & Hr); [|done|done|].
  { intros l. by rewrite bool_decide_eq_true. }
  exists fuel, r, h'. split; [done|].
  eapply reify_in_mono; [|exact Hr]. done.
Qed.

(** The two mappings of [c10_store]: the merge on the store denotes the
    merge of the documents. *)
Example merge_on_store_example :
  exists r h',
    merge_yaml_data 4 (VRef 0) (VRef 2) c10_store = Some (r, h')
    /\ reify 3 c10_store (VRef 0)
       = Some (YDict [("a" : str, YList [YInt 1]); ("k" : str, YInt 1)])
    /\ reify 3 c10_store (VRef 2)
       = Some (YDict [("a" : str, YList [YInt 2]); ("b" : str, YStr "x")])
    /\ reify 3 h' r
       = Some (YDict [("a" : str, YList [YInt 1; YInt 2]); ("k" : str, YInt 1);
                      ("b" : str, YStr "x")]).
Proof.
  eexists _, _. split; [vm_compute; reflexivity|]. repeat split; reflexivity.
Qed.

End HeapRefine.

(** C10. [merge_yaml_data] does not mutate its arguments: when the call
    returns, every object that was in the store before the call is
    unchanged, so [d1] and [d2] denote the documents they denoted
    before; what is written is a copy, the result being a new object
    unless it is [d2] itself. *)
Theorem C10_merge_non_destructive (fuel : nat) (d1 d2 r : Heap.val) (h h' : Heap.heap) :
  Heap.merge_yaml_data fuel d1 d2 h = Some (r, h') ->
  (forall l o, h !! l = Some o -> h' !! l = Some o)
  /\ (forall n t, Heap.reify n h d1 = Some t -> Heap.reify n h' d1 = Some t)
  /\ (forall n t, Heap.reify n h d2 = Some t -> Heap.reify n h' d2 = Some t)
  /\ (r = d2 \/ r = Heap.VRef (length h)).
Proof.
  intros Hm. pose proof (HeapFacts.merge_result _ _ _ _ _ _ Hm) as Hr.
  apply HeapFacts.merge_frame in Hm.
  split; [|split; [|split]].
  - intros l o Hl. eapply prefix_lookup_Some; eassumption.
  - intros n t. by apply HeapFacts.reify_prefix.
  - intros n t. by apply HeapFacts.reify_prefix.
  - exact Hr.
Qed.

Lemma C10_merge_non_destructive_witness :
  exists r h',
    Heap.merge_yaml_data 4 (Heap.VRef 0) (Heap.VRef 2) c10_store = Some (r, h')
    /\ (forall l o, c10_store !! l = Some o -> h' !! l = Some o)
    /\ (forall n t, Heap.reify n c10_store (Heap.VRef 0) = Some t ->
                    Heap.reify n h' (Heap.VRef 0) = Some t)
    /\ (forall n t, Heap.reify n c10_store (Heap.VRef 2) = Some t ->
                    Heap.reify n h' (Heap.VRef 2) = Some t)
    /\ (r = Heap.VRef 2 \/ r = Heap.VRef (length c10_store)).
Proof.
  eexists _, _. split; [vm_compute; reflexivity|].
  eapply (C10_merge_non_destructive 4 (Heap.VRef 0) (Heap.VRef 2)).
  vm_compute. reflexivity.
Defined.


(** ** Paths *)

Module PathFacts.
Import PyStr.

Lemma split_nonempty (c : ascii) (s : str) : split c s <> [].
Proof.
  induction s as [|x s IH]; cbn; [done|].
  destruct (Ascii.eqb x c); [done|]. by destruct (split c s).
Qed.

Lemma split_app (c : ascii) (a b : str) :
  split c (a ++ c :: b) = split c a ++ split c b.
Proof.
  induction a as [|x a IH]; cbn [app split].
  - by rewrite Ascii.eqb_refl.
  - rewrite IH. destruct (Ascii.eqb x c); [done|].
    pose proof (split_nonempty c a). by destruct (split c a).
Qed.

Lemma split_absent (c : ascii) (a : str) : has c a = false -> split c a = [a].
Proof.
  induction a as [|x a IH]; [done|].
  intros [Hx Ha]%StrFacts.has_cons_false. cbn. by rewrite Hx, (IH Ha).
Qed.

Lemma join_cons (sep x : str) (l : list str) :
  l <> [] -> join sep (x :: l) = x ++ sep ++ join sep l.
Proof. by destruct l. Qed.

Lemma join_app (sep : str) (a b : list str) :
  a <> [] -> b <> [] -> join sep (a ++ b) = join sep a ++ sep ++ join sep b.
Proof.
  intros Ha Hb. induction a as [|x a IH]; [done|].
  destruct a as [|y a].
  - cbn [app]. by rewrite join_cons.
  - change ((x :: y :: a) ++ b) with (x :: (y :: a) ++ b).
    rewrite !join_cons by done. rewrite IH by done. by rewrite <- !app_assoc.
Qed.

Lemma clean_comp_spec (c : str) :
  clean_comp c = true ->
  c <> [] /\ eqb c "" = false /\ eqb c "." = false /\ eqb c ".." = false
  /\ has "/" c = false.
Proof.
  unfold clean_comp. rewrite !andb_true_iff, !negb_true_iff.
  intros [[[H1 H2] H3] H4]. repeat split; try done. by intros ->.
Qed.

Lemma literal_comp_spec (c : str) :
  literal_comp c = true ->
  clean_comp c = true /\ has "*" c = false /\ has "[" c = false /\ has "]" c = false.
Proof.
  unfold literal_comp. rewrite !andb_true_iff, !negb_true_iff. tauto.
Qed.

Lemma literal_comps_clean (comps : list str) :
  forallb literal_comp comps = true -> forallb clean_comp comps = true.
Proof.
  induction comps as [|c comps IH]; cbn; [done|].
  intros [Hc H]%andb_true_iff. apply literal_comp_spec in Hc as [-> _]. by apply IH.
Qed.

(** Splitting the joined components gives them back. *)
Lemma split_join (comps : list str) :
  comps <> [] -> forallb clean_comp comps = true ->
  split "/" (join "/" comps) = comps.
Proof.
  induction comps as [|x comps IH]; [done|]. intros _. cbn [forallb].
  intros [Hx Hc]%andb_true_iff. apply clean_comp_spec in Hx as (_ & _ & _ & _ & Hx).
  destruct comps as [|y comps].
  - by apply split_absent.
  - rewrite join_cons by done. change (lit "/" ++ ?r) with ("/"%char :: r).
    rewrite split_app, split_absent by done. cbn [app]. by rewrite IH.
Qed.

Lemma clean_nonempty (comps : list str) :
  forallb clean_comp comps = true -> List.filter nonempty comps = comps.
Proof.
  induction comps as [|c comps IH]; cbn; [done|].
  intros [Hc H]%andb_true_iff. apply clean_comp_spec in Hc as (_ & Hc & _).
  unfold nonempty at 1. rewrite Hc. cbn. by rewrite IH.
Qed.

(** On components that are empty or clean, the loop of [normpath] keeps
    the clean ones. *)
Lemma normpath_loop (n : nat) (comps acc : list str) :
  forallb (fun c => eqb c "" || clean_comp c) comps = true ->
  fold_left (PosixPath.normpath_step n) comps acc = acc ++ List.filter nonempty comps.
Proof.
  revert acc. induction comps as [|c comps IH]; intros acc; cbn [fold_left forallb List.filter].
  - intros _. by rewrite app_nil_r.
  - intros [Hc H]%andb_true_iff. rewrite IH by done. unfold nonempty at 2.
    unfold PosixPath.normpath_step.
    destruct (eqb c "") eqn:E; [done|]. cbn [orb negb] in *.
    apply clean_comp_spec in Hc as (_ & _ & -> & -> & _). cbn [orb negb].
    by rewrite <- app_assoc.
Qed.

Lemma starts_with_slash (c : str) (r : str) :
  c <> [] -> has "/" c = false -> startswith "/" (c ++ r) = false.
Proof.
  destruct c as [|x c]; [done|]. intros _ [Hx _]%StrFacts.has_cons_false.
  change (lit "/") with ["/"%char]. cbn [app startswith].
  by rewrite Ascii.eqb_sym, Hx.
Qed.

Lemma join_starts (comps : list str) (r : str) :
  comps <> [] -> forallb clean_comp comps = true ->
  startswith "/" (join "/" comps ++ r) = false.
Proof.
  destruct comps as [|c comps]; [done|]. intros _. cbn [forallb].
  intros [Hc _]%andb_true_iff. apply clean_comp_spec in Hc as (Hc0 & _ & _ & _ & Hc).
  destruct comps as [|y comps].
  - by apply starts_with_slash.
  - rewrite join_cons by done. rewrite <- app_assoc. by apply starts_with_slash.
Qed.

Lemma ends_with_slash (x c : str) :
  c <> [] -> has "/" c = false -> endswith "/" (x ++ c) = false.
Proof.
  intros Hc0 Hc. unfold endswith. rewrite rev_app_distr.
  change (rev (lit "/")) with (lit "/").
  apply starts_with_slash.
  - intros H. apply (f_equal (@rev ascii)) in H. rewrite rev_involutive in H. done.
  - clear Hc0. induction c as [|y c IH]; [done|].
    apply StrFacts.has_cons_false in Hc as [Hy Hc]. cbn [rev].
    rewrite StrFacts.has_app, (IH Hc). cbn [has orb]. by rewrite Hy.
Qed.

Lemma join_ends (x : str) (comps : list str) :
  comps <> [] -> forallb clean_comp comps = true ->
  endswith "/" (x ++ join "/" comps) = false.
Proof.
  revert x. induction comps as [|c comps IH]; [done|]. intros x _. cbn [forallb].
  intros [Hc H]%andb_true_iff. apply clean_comp_spec in Hc as (Hc0 & _ & _ & _ & Hc).
  destruct comps as [|y comps].
  - by apply ends_with_slash.
  - rewrite join_cons by done. rewrite !app_assoc. by apply IH.
Qed.

Lemma eqb_app_nonempty (x c : str) : c <> [] -> eqb (x ++ c) "" = false.
Proof. intros Hc. apply str_eqb_neq. intros H. by destruct x, c. Qed.

(** [os.path.join] of clean components is the components joined by
    slashes. *)
Lemma join_all_clean (pre a : str) (ps : list str) :
  forallb clean_comp (a :: ps) = true ->
  PosixPath.join_all (pre ++ a) ps = pre ++ join "/" (a :: ps).
Proof.
  unfold PosixPath.join_all. revert pre a.
  induction ps as [|b ps IH]; intros pre a; [done|].
  cbn [forallb fold_left]. intros [Ha [Hb Hps]%andb_true_iff]%andb_true_iff.
  apply clean_comp_spec in Ha as (Ha0 & _ & _ & _ & Ha).
  pose proof (clean_comp_spec _ Hb) as (Hb0 & _ & _ & _ & Hb1).
  assert (Hj : PosixPath.join (pre ++ a) b = (pre ++ a ++ "/") ++ b).
  { unfold PosixPath.join.
    rewrite <- (app_nil_r b) at 1. rewrite starts_with_slash by done.
    rewrite eqb_app_nonempty, ends_with_slash by done. cbn [orb].
    by rewrite <- !app_assoc. }
  rewrite Hj, IH by (cbn [forallb]; by rewrite Hb, Hps).
  rewrite (join_cons _ a) by done. by rewrite <- !app_assoc.
Qed.

Lemma split_root (absolute : bool) (comps : list str) :
  forallb clean_comp comps = true ->
  split "/" (root_path absolute comps)
  = (if absolute then [lit ""] else [])
    ++ match comps with [] => [lit ""] | _ => comps end.
Proof.
  intros Hc. unfold root_path.
  assert (Hj : split "/" (join "/" comps) = match comps with [] => [lit ""] | _ => comps end).
  { destruct comps as [|c comps]; [done|]. by apply split_join. }
  destruct absolute.
  - change (lit "/" ++ ?r) with ([] ++ "/"%char :: r). by rewrite split_app, Hj.
  - change (lit "" ++ ?r) with r. by rewrite Hj.
Qed.

Lemma parts_root (absolute : bool) (comps : list str) :
  forallb clean_comp comps = true ->
  PosixPath.nonempty_parts (root_path absolute comps) = comps.
Proof.
  intros Hc. unfold PosixPath.nonempty_parts. rewrite split_root by done.
  fold nonempty. rewrite List.filter_app.
  replace (List.filter nonempty (if absolute then [lit ""] else [])) with (@nil str)
    by (by destruct absolute).
  destruct comps as [|c comps]; [done|]. by apply clean_nonempty.
Qed.

Lemma root_starts (comps : list str) :
  forallb clean_comp comps = true -> startswith "/" (root_path false comps) = false.
Proof.
  intros Hc. unfold root_path. destruct comps as [|c comps]; [done|].
  rewrite <- (app_nil_r (join _ _)). by apply join_starts.
Qed.

Lemma initial_slashes_root (absolute : bool) (comps : list str) :
  forallb clean_comp comps = true ->
  PosixPath.initial_slashes (root_path absolute comps) = if absolute then 1 else 0.
Proof.
  intros Hc. unfold PosixPath.initial_slashes. destruct absolute.
  - pose proof (root_starts comps Hc) as H. unfold root_path in *.
    change (startswith "/" (lit "/" ++ ?r)) with true.
    change (startswith "//" (lit "/" ++ ?r)) with (startswith "/" r).
    change (lit "" ++ ?r) with r in H. by rewrite H.
  - by rewrite root_starts.
Qed.

(** [normpath] on a text whose components are empty or clean. *)
Lemma normpath_clean (s : str) :
  eqb s "" = false ->
  forallb (fun c => eqb c "" || clean_comp c) (split "/" s) = true ->
  PosixPath.normpath s
  = let p := repeat "/"%char (PosixPath.initial_slashes s)
             ++ join "/" (PosixPath.nonempty_parts s) in
    if eqb p "" then lit "." else p.
Proof.
  intros Hs Hc. unfold PosixPath.normpath. rewrite Hs.
  by rewrite normpath_loop.
Qed.

Lemma clean_or_empty (comps : list str) :
  forallb clean_comp comps = true ->
  forallb (fun c => eqb c "" || clean_comp c) comps = true.
Proof.
  induction comps as [|c comps IH]; cbn; [done|].
  intros [-> H]%andb_true_iff. rewrite orb_true_r. by apply IH.
Qed.

Lemma root_nonempty (absolute : bool) (comps : list str) :
  forallb clean_comp comps = true -> absolute = true \/ comps <> [] ->
  eqb (root_path absolute comps) "" = false.
Proof.
  intros Hc Hne. unfold root_path. destruct absolute; [done|].
  destruct Hne as [|Hne]; [done|]. destruct comps as [|c comps]; [done|].
  cbn [forallb] in Hc. apply andb_true_iff in Hc as [Hc _].
  apply clean_comp_spec in Hc as (Hc & _).
  cbn [app lit list_ascii_of_string]. destruct comps; [by destruct c|].
  rewrite join_cons by done. by destruct c.
Qed.

(** A normalised path is a fixed point of [normpath]. *)
Lemma normpath_root (absolute : bool) (comps : list str) :
  forallb clean_comp comps = true -> absolute = true \/ comps <> [] ->
  PosixPath.normpath (root_path absolute comps) = root_path absolute comps.
Proof.
  intros Hc Hne. rewrite normpath_clean.
  - rewrite parts_root, initial_slashes_root by done. cbn zeta.
    replace (repeat "/"%char (if absolute then 1 else 0) ++ join "/" comps)
      with (root_path absolute comps) by (by destruct absolute).
    by rewrite root_nonempty.
  - by apply root_nonempty.
  - rewrite split_root by done. rewrite forallb_app. apply andb_true_iff. split.
    + by destruct absolute.
    + destruct comps; [done|]. by apply clean_or_empty.
Qed.

(** Joining a normalised root and a normalised relative path. *)
Lemma join_root (absolute : bool) (tcomps dcomps : list str) :
  forallb clean_comp tcomps = true -> forallb clean_comp dcomps = true ->
  dcomps <> [] ->
  PosixPath.join (root_path absolute tcomps) (join "/" dcomps)
  = root_path absolute (tcomps ++ dcomps).
Proof.
  intros Ht Hd Hd0. unfold PosixPath.join.
  rewrite <- (app_nil_r (join "/" dcomps)) at 1. rewrite join_starts by done.
  destruct tcomps as [|t tcomps].
  - by destruct absolute.
  - unfold root_path at 1 2. rewrite eqb_app_nonempty; cycle 1.
    { destruct tcomps; [|by rewrite join_cons; destruct t].
      cbn [forallb] in Ht. apply andb_true_iff in Ht as [Ht _].
      by apply clean_comp_spec in Ht as (Ht & _). }
    rewrite join_ends by done. cbn [orb]. unfold root_path.
    rewrite join_app by done. by rewrite <- !app_assoc.
Qed.

Lemma common_len_app (a b : list str) : PosixPath.common_len a (a ++ b) = length a.
Proof.
  induction a as [|x a IH]; [by destruct b|]. cbn. by rewrite str_eqb_refl, IH.
Qed.

(** The components of the absolute form of a normalised path, in a
    working directory that is itself normalised. *)
Lemma abspath_parts (absolute : bool) (ccomps comps : list str) :
  forallb clean_comp ccomps = true -> forallb clean_comp comps = true ->
  PosixPath.nonempty_parts (PosixPath.abspath (root_path true ccomps) (root_path absolute comps))
  = (if absolute then [] else ccomps) ++ comps.
Proof.
  intros Hcc Hc. unfold PosixPath.abspath, PosixPath.isabs. destruct absolute.
  - change (startswith "/" (root_path true comps)) with true. cbn [app].
    rewrite normpath_root by auto. by apply parts_root.
  - rewrite root_starts by done.
    destruct comps as [|c comps].
    + rewrite app_nil_r. change (root_path false []) with (lit "").
      destruct ccomps as [|cc ccomps]; [done|].
      assert (Hj : PosixPath.join (root_path true (cc :: ccomps)) "" =
                   root_path true (cc :: ccomps) ++ "/"%char :: []).
      { unfold PosixPath.join. change (startswith "/" "") with false. cbv iota.
        unfold root_path. rewrite eqb_app_nonempty; cycle 1.
        { destruct ccomps; [|by rewrite join_cons; destruct cc].
          cbn [forallb] in Hcc. apply andb_true_iff in Hcc as [Hcc _].
          by apply clean_comp_spec in Hcc as (Hcc & _). }
        by rewrite join_ends. }
      rewrite Hj.
      assert (Hsp : split "/" (root_path true (cc :: ccomps) ++ "/"%char :: [])
                    = lit "" :: (cc :: ccomps) ++ [lit ""]).
      { rewrite split_app, split_root by done. reflexivity. }
      assert (Hparts : PosixPath.nonempty_parts (root_path true (cc :: ccomps) ++ "/"%char :: [])
                       = cc :: ccomps).
      { unfold PosixPath.nonempty_parts. rewrite Hsp. fold nonempty.
        change (List.filter nonempty (lit "" :: ?l)) with (List.filter nonempty l).
        rewrite List.filter_app, clean_nonempty by done. by rewrite app_nil_r. }
      rewrite normpath_clean.
      * rewrite Hparts. cbn zeta.
        replace (PosixPath.initial_slashes _) with 1.
        { change (repeat "/"%char 1 ++ ?r) with (root_path true (cc :: ccomps)).
          rewrite root_nonempty by auto. by apply parts_root. }
        pose proof (join_starts (cc :: ccomps) ["/"%char] ltac:(done) Hcc) as Hi.
        unfold PosixPath.initial_slashes, root_path.
        change (lit "/" ++ ?r) with ("/"%char :: r). cbn [app].
        change (startswith "/" ("/"%char :: ?r)) with true.
        change (startswith "//" ("/"%char :: ?r)) with (startswith "/" r).
        by rewrite Hi.
      * apply eqb_app_nonempty. done.
      * rewrite Hsp. change (lit "" :: ?l) with ([lit ""] ++ l).
        rewrite !forallb_app. rewrite (clean_or_empty (cc :: ccomps)) by done.
        reflexivity.
    + change (root_path false (c :: comps)) with (join "/" (c :: comps)).
      rewrite (join_root true ccomps (c :: comps)) by done.
      assert (Hall : forallb clean_comp (ccomps ++ c :: comps) = true)
        by (rewrite forallb_app; by rewrite Hcc, Hc).
      rewrite normpath_root by auto. by apply parts_root.
Qed.

(** The path of a file below a normalised root, relative to the root,
    is the path it was joined from. *)
Lemma relpath_root (absolute : bool) (ccomps tcomps dcomps : list str) :
  forallb clean_comp ccomps = true -> forallb clean_comp tcomps = true ->
  forallb clean_comp dcomps = true -> dcomps <> [] ->
  PosixPath.relpath (root_path true ccomps)
    (root_path absolute (tcomps ++ dcomps)) (root_path absolute tcomps)
  = Ok (join "/" dcomps).
Proof.
  intros Hcc Ht Hd Hd0.
  assert (Hall : forallb clean_comp (tcomps ++ dcomps) = true)
    by (rewrite forallb_app; by rewrite Ht, Hd).
  unfold PosixPath.relpath. rewrite root_nonempty; [|done|right; by destruct tcomps, dcomps].
  rewrite !abspath_parts by done. rewrite app_assoc, common_len_app, Nat.sub_diag.
  cbn [repeat app]. rewrite skipn_app, skipn_all, Nat.sub_diag. cbn [skipn app].
  destruct dcomps as [|a ps]; [done|]. f_equal.
  by apply (join_all_clean [] a ps).
Qed.

Lemma has_join (c : ascii) (comps : list str) :
  Ascii.eqb "/" c = false ->
  forallb (fun x => negb (has c x)) comps = true ->
  has c (join "/" comps) = false.
Proof.
  intros Hc. induction comps as [|x comps IH]; [done|]. cbn [forallb].
  intros [Hx H]%andb_true_iff. apply negb_true_iff in Hx.
  destruct comps as [|y comps]; [done|].
  rewrite join_cons by done. change (lit "/" ++ ?r) with ("/"%char :: r).
  rewrite StrFacts.has_app. cbn [has]. by rewrite Hx, Hc, IH.
Qed.

(** A path of literal components selects the literal rule. *)
Lemma plain_root (absolute : bool) (comps : list str) :
  forallb literal_comp comps = true -> plain (root_path absolute comps).
Proof.
  intros H. unfold plain, root_path. rewrite !StrFacts.has_app.
  assert (Hj : forall c, Ascii.eqb "/" c = false ->
                 (forall x, literal_comp x = true -> has c x = false) ->
                 has c (join "/" comps) = false).
  { intros c Hc Hx. apply has_join; [done|]. clear -H Hx.
    induction comps as [|x comps IH]; [done|]. cbn [forallb] in *.
    apply andb_true_iff in H as [H1 H2]. by rewrite (Hx _ H1), IH. }
  rewrite !Hj; try done; try (intros x Hx; by apply literal_comp_spec in Hx as (_ & ? & ? & ?)).
  by destruct absolute.
Qed.

End PathFacts.

(** ** Paths below any root *)

Module PathGeneral.
Import PyStr.

Abbreviation step := PosixPath.normpath_step.
Abbreviation no_slash := (fun c : str => negb (has "/" c)).

Lemma step_skip (n : nat) (acc : list str) (c : str) :
  eqb c "" || eqb c "." = true -> step n acc c = acc.
Proof. intros H. unfold PosixPath.normpath_step. by rewrite H. Qed.

Lemma step_append (n : nat) (acc : list str) (c : str) :
  eqb c "" = false -> eqb c "." = false -> eqb c ".." = false ->
  step n acc c = acc ++ [c].
Proof. intros H1 H2 H3. unfold PosixPath.normpath_step. by rewrite H1, H2, H3. Qed.

(** The loop of [normpath] only asks whether the path is absolute. *)
Lemma step_mode (n : nat) (acc : list str) (c : str) :
  n <> 0 -> step n acc c = step 1 acc c.
Proof. intros Hn. unfold PosixPath.normpath_step. by destruct n. Qed.

Lemma fold_mode (n : nat) (comps acc : list str) :
  n <> 0 -> fold_left (step n) comps acc = fold_left (step 1) comps acc.
Proof.
  intros Hn. revert acc. induction comps as [|c comps IH]; intros acc; [done|].
  cbn [fold_left]. by rewrite IH, step_mode.
Qed.

Lemma kept_spec (c : str) :
  kept_comp c = true ->
  eqb c "" = false /\ eqb c "." = false /\ has "/" c = false /\ c <> [].
Proof.
  unfold kept_comp. rewrite !andb_true_iff, !negb_true_iff.
  intros [[H1 H2] H3]. repeat split; try done. by intros ->.
Qed.

Lemma clean_kept (comps : list str) :
  forallb clean_comp comps = true -> forallb kept_comp comps = true.
Proof.
  induction comps as [|c comps IH]; cbn [forallb]; [done|].
  intros [Hc H]%andb_true_iff. rewrite IH by done.
  apply PathFacts.clean_comp_spec in Hc as (_ & H1 & H2 & _ & H4).
  unfold kept_comp. by rewrite H1, H2, H4.
Qed.

Lemma forallb_removelast {A} (f : A -> bool) (l : list A) :
  forallb f l = true -> forallb f (removelast l) = true.
Proof.
  induction l as [|x l IH]; [done|]. cbn [forallb removelast].
  intros [Hx H]%andb_true_iff. destruct l as [|y l]; [done|].
  cbn [forallb]. rewrite Hx. by apply IH.
Qed.

Lemma forallb_snoc {A} (f : A -> bool) (l : list A) (x : A) :
  forallb f l = true -> f x = true -> forallb f (l ++ [x]) = true.
Proof. intros Hl Hx. rewrite forallb_app. cbn. by rewrite Hl, Hx. Qed.

Lemma step_kept (n : nat) (acc : list str) (c : str) :
  forallb kept_comp acc = true -> has "/" c = false ->
  forallb kept_comp (step n acc c) = true.
Proof.
  intros Hacc Hc. unfold PosixPath.normpath_step.
  destruct (eqb c "") eqn:E1; [done|]. destruct (eqb c ".") eqn:E2; [done|]. cbn [orb].
  assert (Hk : kept_comp c = true) by (unfold kept_comp; by rewrite E1, E2, Hc).
  destruct (_ || _ || _); [by apply forallb_snoc|].
  destruct (negb _); [by apply forallb_removelast|done].
Qed.

Lemma fold_kept (n : nat) (comps : list str) :
  forallb no_slash comps = true ->
  forall acc, forallb kept_comp acc = true ->
    forallb kept_comp (fold_left (step n) comps acc) = true.
Proof.
  induction comps as [|c comps IH]; cbn [forallb fold_left]; [done|].
  intros [Hc H]%andb_true_iff acc Hacc. apply negb_true_iff in Hc.
  apply IH; [done|]. by apply step_kept.
Qed.

Lemma split_no_slash (s : str) : forallb no_slash (split "/" s) = true.
Proof.
  induction s as [|x s IH]; [done|]. cbn [split].
  destruct (Ascii.eqb x "/") eqn:E; [by cbn [forallb has]|].
  pose proof (PathFacts.split_nonempty "/" s) as Hne.
  destruct (split "/" s) as [|w ws]; [done|]. cbn [forallb has] in *. by rewrite E.
Qed.

Lemma last_clean (acc : list str) :
  forallb clean_comp acc = true -> eqb (List.last acc []) ".." = false.
Proof.
  induction acc as [|x acc IH]; [done|]. cbn [forallb].
  intros [Hx H]%andb_true_iff. destruct acc as [|y acc]; [|by apply IH].
  cbn [List.last]. by apply PathFacts.clean_comp_spec in Hx as (_ & _ & _ & ? & _).
Qed.

(** The components of an absolute path never hold [..]. *)
Lemma step_clean (n : nat) (acc : list str) (c : str) :
  n <> 0 -> forallb clean_comp acc = true -> has "/" c = false ->
  forallb clean_comp (step n acc c) = true.
Proof.
  intros Hn Hacc Hc. unfold PosixPath.normpath_step.
  destruct (eqb c "") eqn:E1; [done|]. destruct (eqb c ".") eqn:E2; [done|]. cbn [orb].
  destruct (eqb c "..") eqn:E3; cbn [negb orb].
  - rewrite (last_clean acc Hacc), andb_false_r, orb_false_r.
    destruct n; [done|]. cbn [Nat.eqb andb].
    destruct (negb _); [by apply forallb_removelast|done].
  - apply forallb_snoc; [done|]. unfold clean_comp. by rewrite E1, E2, E3, Hc.
Qed.

Lemma fold_clean (n : nat) (comps : list str) :
  n <> 0 -> forallb no_slash comps = true ->
  forall acc, forallb clean_comp acc = true ->
    forallb clean_comp (fold_left (step n) comps acc) = true.
Proof.
  intros Hn. induction comps as [|c comps IH]; cbn [forallb fold_left]; [done|].
  intros [Hc H]%andb_true_iff acc Hacc. apply negb_true_iff in Hc.
  apply IH; [done|]. by apply step_clean.
Qed.

Lemma split_slashes (n : nat) (z : str) :
  split "/" (repeat "/"%char n ++ z) = repeat (lit "") n ++ split "/" z.
Proof.
  induction n as [|n IH]; [done|]. cbn [repeat app split].
  change (Ascii.eqb "/" "/") with true. cbv iota. by rewrite IH.
Qed.

(** The non-empty components of a normalised absolute path. *)
Lemma parts_slashes (n : nat) (comps : list str) :
  forallb clean_comp comps = true ->
  PosixPath.nonempty_parts (repeat "/"%char n ++ join "/" comps) = comps.
Proof.
  intros Hc. unfold PosixPath.nonempty_parts. rewrite split_slashes.
  fold nonempty. rewrite List.filter_app.
  replace (List.filter nonempty (repeat (lit "") n)) with (@nil str)
    by (induction n; [done|]; cbn; done).
  destruct comps as [|c comps]; [done|].
  rewrite PathFacts.split_join by done. by apply PathFacts.clean_nonempty.
Qed.

Lemma starts_abs (s : str) :
  startswith "/" s = true <-> exists r, s = "/"%char :: r.
Proof.
  change (lit "/") with ["/"%char]. destruct s as [|x s]; cbn [startswith].
  - split; [discriminate|]. by intros [r [=]].
  - rewrite andb_true_r. split.
    + intros <-%Ascii.eqb_eq. eauto.
    + intros [r [= -> _]]. apply Ascii.eqb_refl.
Qed.

Lemma initial_slashes_abs (s : str) :
  startswith "/" s = true -> PosixPath.initial_slashes s <> 0.
Proof.
  intros H. unfold PosixPath.initial_slashes. rewrite H. by destruct (_ && _).
Qed.

Lemma initial_slashes_rel (s : str) :
  startswith "/" s = false -> PosixPath.initial_slashes s = 0.
Proof. intros H. unfold PosixPath.initial_slashes. by rewrite H. Qed.

(** The non-empty components of [normpath] of an absolute path are
    what its loop computes. *)
Lemma normpath_abs_parts (s : str) :
  startswith "/" s = true ->
  PosixPath.nonempty_parts (PosixPath.normpath s)
  = fold_left (step 1) (split "/" s) [].
Proof.
  intros Hs. pose proof (initial_slashes_abs s Hs) as Hn.
  apply starts_abs in Hs as Hs'. destruct Hs' as [r ->].
  unfold PosixPath.normpath. change (eqb ("/"%char :: r) "") with false. cbv iota zeta.
  set (n := PosixPath.initial_slashes ("/"%char :: r)) in *.
  rewrite (fold_mode n) by done.
  set (comps := fold_left (step 1) (split "/" ("/"%char :: r)) []).
  assert (Hc : forallb clean_comp comps = true).
  { apply fold_clean; [done|apply split_no_slash|done]. }
  destruct n as [|n]; [done|].
  change (eqb (repeat "/"%char (S n) ++ join "/" comps) "") with false. cbv iota.
  by apply parts_slashes.
Qed.

Lemma endswith_slash (a : str) :
  endswith "/" a = true -> exists a', a = a' ++ ["/"%char].
Proof.
  unfold endswith. change (rev (lit "/")) with (lit "/").
  intros [r Hr]%starts_abs. exists (rev r).
  apply (f_equal (@rev ascii)) in Hr. rewrite rev_involutive in Hr. by rewrite Hr.
Qed.

(** The loop of [normpath] on a joined path goes through the first
    path and then through the second. *)
Lemma fold_join (n : nat) (a b : str) (acc : list str) :
  startswith "/" b = false ->
  fold_left (step n) (split "/" (PosixPath.join a b)) acc
  = fold_left (step n) (split "/" b) (fold_left (step n) (split "/" a) acc).
Proof.
  intros Hb. unfold PosixPath.join. rewrite Hb.
  destruct (eqb a "") eqn:Ea.
  { apply str_eqb_eq in Ea as ->. cbn [orb app]. by cbn. }
  cbn [orb]. destruct (endswith "/" a) eqn:Ee.
  - apply endswith_slash in Ee as [a' ->]. rewrite <- app_assoc. cbn [app].
    rewrite !PathFacts.split_app, !fold_left_app. by cbn.
  - change (lit "/" ++ ?r) with ("/"%char :: r).
    by rewrite PathFacts.split_app, fold_left_app.
Qed.

Lemma join_relative (a b : str) :
  startswith "/" a = false -> startswith "/" b = false ->
  startswith "/" (PosixPath.join a b) = false.
Proof.
  intros Ha Hb. unfold PosixPath.join. rewrite Hb.
  destruct a as [|x a]; [done|]. change (lit "/") with ["/"%char] in *.
  cbn [startswith] in *. by destruct (_ || _).
Qed.

Lemma join_abs (a b : str) :
  startswith "/" a = true -> startswith "/" (PosixPath.join a b) = true.
Proof.
  intros Ha. unfold PosixPath.join. destruct (startswith "/" b) eqn:Hb; [done|].
  apply starts_abs in Ha as [r ->]. by destruct (eqb _ "" || endswith "/" _).
Qed.

Lemma join_nonempty (a b : str) : b <> [] -> eqb (PosixPath.join a b) "" = false.
Proof.
  intros Hb. unfold PosixPath.join. destruct (startswith "/" b); [by destruct b|].
  destruct (_ || _); [by apply PathFacts.eqb_app_nonempty|].
  rewrite app_assoc. by apply PathFacts.eqb_app_nonempty.
Qed.

Lemma step_pop (n : nat) (acc : list str) (x : str) :
  n <> 0 -> eqb x ".." = false -> step n (acc ++ [x]) ".." = acc.
Proof.
  intros Hn Hx. unfold PosixPath.normpath_step.
  rewrite last_last, Hx, removelast_last. destruct n; [done|].
  cbn. by destruct acc.
Qed.

(** One round of the loop on an absolute base after a round of the loop
    on a relative path. *)
Lemma absorb_step (n : nat) (acc CC : list str) (c : str) :
  n <> 0 -> forallb kept_comp acc = true ->
  fold_left (step n) (step 0 acc c) CC = step n (fold_left (step n) acc CC) c.
Proof.
  intros Hn Hacc.
  destruct (eqb c "" || eqb c ".") eqn:E0.
  { by rewrite (step_skip 0 acc c), (step_skip n _ c). }
  apply orb_false_iff in E0 as [E1 E2].
  destruct (eqb c "..") eqn:E3; cycle 1.
  { rewrite (step_append 0 acc c), (step_append n _ c) by done.
    rewrite fold_left_app. cbn [fold_left]. by rewrite (step_append n _ c). }
  apply str_eqb_eq in E3 as ->. clear E1 E2.
  destruct acc as [|a0 acc0] eqn:Eacc.
  { reflexivity. }
  rewrite <- Eacc in *. assert (Hne : acc <> []) by (by rewrite Eacc).
  clear Eacc a0 acc0.
  destruct (eqb (List.last acc []) "..") eqn:El.
  - replace (step 0 acc "..") with (acc ++ [lit ".."]).
    + by rewrite fold_left_app.
    + unfold PosixPath.normpath_step. rewrite El. cbn [eqb Ascii.eqb]. cbn.
      destruct acc; [done|]. by cbn.
  - replace (step 0 acc "..") with (removelast acc); cycle 1.
    { unfold PosixPath.normpath_step. rewrite El. cbn [eqb Ascii.eqb]. cbn.
      destruct acc; [done|]. by cbn. }
    pose proof (app_removelast_last [] Hne) as Hsplit.
    set (x := List.last acc []) in *. set (acc' := removelast acc) in *.
    assert (Hx : kept_comp x = true).
    { rewrite Hsplit, forallb_app in Hacc. cbn in Hacc.
      apply andb_true_iff in Hacc as [_ Hacc]. by rewrite andb_true_r in Hacc. }
    apply kept_spec in Hx as (X1 & X2 & _).
    rewrite Hsplit at 1. rewrite fold_left_app. cbn [fold_left].
    rewrite (step_append n _ x) by done.
    by rewrite step_pop.
Qed.

Lemma absorb (n : nat) (comps : list str) :
  n <> 0 -> forallb no_slash comps = true ->
  forall acc CC, forallb kept_comp acc = true ->
    fold_left (step n) (fold_left (step 0) comps acc) CC
    = fold_left (step n) comps (fold_left (step n) acc CC).
Proof.
  intros Hn. induction comps as [|c comps IH]; cbn [forallb fold_left]; [done|].
  intros [Hc H]%andb_true_iff acc CC Hacc. apply negb_true_iff in Hc.
  rewrite IH by (try done; by apply step_kept). by rewrite absorb_step.
Qed.

Lemma step_subset (n : nat) (acc : list str) (c x : str) :
  In x (step n acc c) -> In x acc \/ x = c.
Proof.
  unfold PosixPath.normpath_step. destruct (_ || _); [by left|].
  destruct (_ || _ || _).
  - intros [H|[<-|[]]]%in_app_or; [by left|by right].
  - destruct (negb _); [|by left]. intros H. left.
    destruct acc as [|a acc]; [done|].
    rewrite (app_removelast_last [] (l := a :: acc)) by done.
    apply in_or_app. by left.
Qed.

Lemma fold_subset (n : nat) (comps : list str) (x : str) :
  forall acc, In x (fold_left (step n) comps acc) -> In x acc \/ In x comps.
Proof.
  induction comps as [|c comps IH]; intros acc; cbn [fold_left]; [by left|].
  intros [[H| ->]%step_subset|H]%IH; [by left|right; by left|right; by right].
Qed.

Lemma split_char_from (c d : ascii) (s p : str) :
  In p (split d s) -> has c p = true -> has c s = true.
Proof.
  revert p. induction s as [|x s IH]; intros p; cbn [split].
  - intros [<-|[]]. done.
  - destruct (Ascii.eqb x d) eqn:Ex.
    + intros [<-|Hin]; [done|]. intros Hp. cbn [has]. rewrite (IH _ Hin Hp).
      apply orb_true_r.
    + pose proof (PathFacts.split_nonempty d s) as Hne.
      destruct (split d s) as [|w ws] eqn:Es; [done|].
      intros [<-|Hin]; cbn [has].
      * intros [H|H]%orb_true_iff; [by rewrite H|].
        rewrite (IH w (or_introl eq_refl) H). apply orb_true_r.
      * intros Hp. rewrite (IH p (or_intror Hin) Hp). apply orb_true_r.
Qed.

Lemma fold_empties (n k : nat) (acc : list str) :
  fold_left (step n) (repeat (lit "") k) acc = acc.
Proof.
  induction k as [|k IH]; [done|]. cbn [repeat fold_left].
  by rewrite (step_skip n acc (lit "")).
Qed.

Lemma join_comps_nonempty (comps : list str) :
  comps <> [] -> forallb kept_comp comps = true -> join "/" comps <> [].
Proof.
  destruct comps as [|c comps]; [done|]. intros _. cbn [forallb].
  intros [Hc _]%andb_true_iff. apply kept_spec in Hc as (_ & _ & _ & Hc).
  destruct comps; [done|]. rewrite PathFacts.join_cons by done. by destruct c.
Qed.

Lemma join_kept_relative (comps : list str) :
  comps <> [] -> forallb kept_comp comps = true ->
  startswith "/" (join "/" comps) = false.
Proof.
  destruct comps as [|c comps]; [done|]. intros _. cbn [forallb].
  intros [Hc _]%andb_true_iff. apply kept_spec in Hc as (_ & _ & Hs & Hc).
  destruct comps as [|y comps].
  - rewrite <- (app_nil_r (join _ _)). by apply PathFacts.starts_with_slash.
  - rewrite PathFacts.join_cons by done. by apply PathFacts.starts_with_slash.
Qed.

Lemma split_join_kept (comps : list str) :
  comps <> [] -> forallb kept_comp comps = true ->
  split "/" (join "/" comps) = comps.
Proof.
  induction comps as [|x comps IH]; [done|]. intros _. cbn [forallb].
  intros [Hx Hc]%andb_true_iff. apply kept_spec in Hx as (_ & _ & Hx & _).
  destruct comps as [|y comps].
  - by apply PathFacts.split_absent.
  - rewrite PathFacts.join_cons by done. change (lit "/" ++ ?r) with ("/"%char :: r).
    rewrite PathFacts.split_app, PathFacts.split_absent by done. cbn [app]. by rewrite IH.
Qed.

Lemma fold_clean_comps (n : nat) (comps acc : list str) :
  forallb clean_comp comps = true ->
  fold_left (step n) comps acc = acc ++ comps.
Proof.
  intros Hc. rewrite PathFacts.normpath_loop by (by apply PathFacts.clean_or_empty).
  by rewrite PathFacts.clean_nonempty.
Qed.

(** [normpath] of a normalised relative path joined to any root: the
    components of the root as the loop leaves them, then those of the
    path. *)
Lemma normpath_below (T : str) (dcomps : list str) :
  forallb clean_comp dcomps = true -> dcomps <> [] ->
  PosixPath.normpath (PosixPath.join T (join "/" dcomps))
  = repeat "/"%char (PosixPath.initial_slashes (PosixPath.join T (join "/" dcomps)))
    ++ join "/"
         (fold_left (step (PosixPath.initial_slashes (PosixPath.join T (join "/" dcomps))))
            (split "/" T) [] ++ dcomps).
Proof.
  intros Hd Hd0. pose proof (clean_kept _ Hd) as Hk.
  pose proof (join_comps_nonempty _ Hd0 Hk) as Hdst.
  unfold PosixPath.normpath. rewrite join_nonempty by done. cbv zeta.
  rewrite fold_join by (by apply join_kept_relative).
  rewrite PathFacts.split_join, fold_clean_comps by done.
  set (n := PosixPath.initial_slashes _). set (NT := fold_left (step n) (split "/" T) []).
  assert (Hne : eqb (repeat "/"%char n ++ join "/" (NT ++ dcomps)) "" = false).
  { apply PathFacts.eqb_app_nonempty. apply join_comps_nonempty; [by destruct NT, dcomps|].
    rewrite forallb_app, Hk, andb_true_r. apply fold_kept; [apply split_no_slash|done]. }
  by rewrite Hne.
Qed.

(** The non-empty components of the absolute forms of a root and of a
    normalised relative path below it. *)
Lemma abspath_below (cwd T : str) (dcomps : list str) :
  startswith "/" cwd = true -> forallb clean_comp dcomps = true -> dcomps <> [] ->
  exists S,
    PosixPath.nonempty_parts (PosixPath.abspath cwd T) = S
    /\ PosixPath.nonempty_parts
         (PosixPath.abspath cwd (PosixPath.normpath (PosixPath.join T (join "/" dcomps))))
       = S ++ dcomps.
Proof.
  intros Hcwd Hd Hd0. pose proof (clean_kept _ Hd) as Hk.
  rewrite normpath_below by done.
  set (J := PosixPath.join T (join "/" dcomps)).
  unfold PosixPath.abspath, PosixPath.isabs.
  destruct (startswith "/" T) eqn:HT.
  - pose proof (initial_slashes_abs J (join_abs _ _ HT)) as Hn.
    rewrite (fold_mode _ _ _ Hn).
    set (S := fold_left (step 1) (split "/" T) []).
    assert (HS : forallb clean_comp S = true).
    { apply fold_clean; [done|apply split_no_slash|done]. }
    assert (Hall : forallb clean_comp (S ++ dcomps) = true)
      by (by rewrite forallb_app, HS, Hd).
    exists S. split; [by apply normpath_abs_parts|].
    assert (Habs : startswith "/" (repeat "/"%char (PosixPath.initial_slashes J)
                                     ++ join "/" (S ++ dcomps)) = true).
    { by destruct (PosixPath.initial_slashes J). }
    rewrite Habs, normpath_abs_parts by done.
    rewrite split_slashes, fold_left_app, fold_empties.
    rewrite PathFacts.split_join by (try done; by destruct S, dcomps).
    by apply (fold_clean_comps 1 _ []).
  - rewrite (initial_slashes_rel J) by (apply join_relative; [done|by apply join_kept_relative]).
    cbn [repeat app].
    set (NT := fold_left (step 0) (split "/" T) []).
    assert (HNT : forallb kept_comp (NT ++ dcomps) = true).
    { rewrite forallb_app, Hk, andb_true_r. apply fold_kept; [apply split_no_slash|done]. }
    assert (Hne : NT ++ dcomps <> []) by (by destruct NT, dcomps).
    rewrite (join_kept_relative _ Hne HNT).
    set (CC := fold_left (step 1) (split "/" cwd) []).
    assert (HCC : forallb clean_comp CC = true).
    { apply fold_clean; [done|apply split_no_slash|done]. }
    exists (fold_left (step 1) (split "/" T) CC). split.
    + rewrite normpath_abs_parts by (by apply join_abs). by rewrite fold_join.
    + rewrite normpath_abs_parts by (by apply join_abs).
      rewrite fold_join by (by apply join_kept_relative).
      rewrite split_join_kept by done. rewrite fold_left_app.
      unfold NT. rewrite absorb by (try done; apply split_no_slash). cbn [fold_left].
      by apply fold_clean_comps.
Qed.

(** A normalised relative path below any root, taken relative to the
    root, is the path itself. *)
Lemma relpath_below (cwd T : str) (dcomps : list str) :
  startswith "/" cwd = true -> forallb clean_comp dcomps = true -> dcomps <> [] ->
  PosixPath.relpath cwd (PosixPath.normpath (PosixPath.join T (join "/" dcomps))) T
  = Ok (join "/" dcomps).
Proof.
  intros Hcwd Hd Hd0. unfold PosixPath.relpath.
  destruct (abspath_below cwd T dcomps Hcwd Hd Hd0) as (S & -> & ->).
  assert (Hne : eqb (PosixPath.normpath (PosixPath.join T (join "/" dcomps))) "" = false).
  { rewrite normpath_below by done. apply PathFacts.eqb_app_nonempty.
    apply join_comps_nonempty; [by destruct (fold_left _ _ _), dcomps|].
    rewrite forallb_app, (clean_kept _ Hd), andb_true_r.
    apply fold_kept; [apply split_no_slash|done]. }
  rewrite Hne, PathFacts.common_len_app, Nat.sub_diag. cbn [repeat app].
  rewrite skipn_app, skipn_all, Nat.sub_diag. cbn [skipn app].
  destruct dcomps as [|a ps]; [done|]. f_equal.
  by apply (PathFacts.join_all_clean [] a ps).
Qed.

(** A character that is neither in the root nor in the path is not in
    the path below the root. *)
Lemma has_below (c : ascii) (T : str) (dcomps : list str) :
  Ascii.eqb "/" c = false ->
  forallb clean_comp dcomps = true -> dcomps <> [] ->
  has c T = false -> forallb (fun x => negb (has c x)) dcomps = true ->
  has c (PosixPath.normpath (PosixPath.join T (join "/" dcomps))) = false.
Proof.
  intros Hc Hd Hd0 HT Hdc. rewrite normpath_below by done.
  rewrite StrFacts.has_app. apply orb_false_iff. split.
  - induction (PosixPath.initial_slashes _) as [|n IH]; [done|]. cbn [repeat has].
    by rewrite Hc, IH.
  - apply PathFacts.has_join; [done|]. rewrite forallb_app, Hdc, andb_true_r.
    apply forallb_forall. intros x [[]|Hx]%fold_subset. apply negb_true_iff.
    destruct (has c x) eqn:E; [|done].
    by rewrite (split_char_from c "/" T x Hx E) in HT.
Qed.

End PathGeneral.
(** ** compute_mapping *)

Module MappingFacts.
Import Config.

(** Once a specification fails the loop fails, whatever was mapped before. *)
Lemma map_specs_fails env out wrk (pre post : list yaml) (spec : yaml) :
  (forall vars, exists e, map_spec env out wrk spec vars = Err e) ->
  forall vars acc, exists e,
    map_specs env out wrk (pre ++ spec :: post) vars acc = Err e.
Proof.
  intros Hspec. induction pre as [|s0 pre IH]; intros vars acc; cbn [app map_specs].
  - destruct (Hspec vars) as [e ->]. cbn. eauto.
  - destruct (map_spec env out wrk s0 vars) as [[vars' ms]|e]; cbn; [apply IH|eauto].
Qed.

(** A specification with [src] and [symlink] whose [src] expands to
    several paths fails, with any bindings of the local variables. *)
Lemma map_spec_symlink_fan_in env out wrk (d : dict) (s : str) (srcs : list str) :
  dict_get "src" d = Some (YStr s) ->
  dict_has "symlink" d = true ->
  Utils.parse_file_paths env (Utils.get_path env s "") = Ok srcs ->
  1 < length srcs ->
  forall vars, exists e, map_spec env out wrk (YDict d) vars = Err e.
Proof.
  intros Hsrc Hsym Hexp Hlen vars. unfold map_spec.
  destruct (getitem (YDict d) "dst") as [spec_dst|e]; cbn [bind]; [|eauto].
  assert (Hk : contains_key "src" (YDict d) = true)
    by (unfold contains_key, dict_has; by rewrite Hsrc).
  rewrite Hk. unfold map_src. cbn [getitem]. rewrite Hsrc. cbn [bind Utils.get_path_of].
  rewrite Hexp. cbn [rethrow bind].
  destruct srcs as [|p1 [|p2 srcs]]; cbn in Hlen; try lia. cbn [PosixPath.is_nil].
  destruct (traverse _ (p1 :: p2 :: srcs)) as [rels|e]; cbn [bind]; [|eauto].
  destruct (check_exist env SrcNotExisting (p1 :: p2 :: srcs)) as [[]|e]; cbn [bind]; [|eauto].
  destruct (rethrow DstMappingError _) as [dsts|e]; cbn [bind]; [|eauto].
  destruct dsts as [|q [|q' dsts]]; [eauto| |eauto].
  destruct (relpath env q out) as [rel|e]; cbn [bind]; [|eauto].
  cbn [contains_key]. rewrite Hsym. cbn. eauto.
Qed.

Lemma get_default_dict (k : str) (d : dict) (default : yaml) :
  get_default k (YDict d) default
  = Ok (match dict_get k d with Some v => v | None => default end).
Proof.
  unfold get_default, contains_key, dict_has, getitem. by destruct (dict_get k d).
Qed.

(** [get_path] of a normalised relative path joins it to the template
    root, whatever the form of the root. *)
Lemma get_path_below (env : Env) (dcomps : list str) :
  forallb clean_comp dcomps = true -> dcomps <> [] ->
  PyStr.startswith "~" (PyStr.join "/" dcomps) = false ->
  Utils.get_path env (PyStr.join "/" dcomps) ""
  = PosixPath.normpath (PosixPath.join (TEMPLATE_DIR env) (PyStr.join "/" dcomps)).
Proof.
  intros Hd Hd0 Htilde. unfold Utils.get_path.
  rewrite PathGeneral.join_kept_relative by (try done; by apply PathGeneral.clean_kept).
  by rewrite Htilde.
Qed.

(** Below a root without [*], [[] and []], a normalised relative path
    of components without them resolves to a path without them. *)
Lemma plain_below (T : str) (dcomps : list str) :
  plain T -> forallb literal_comp dcomps = true -> dcomps <> [] ->
  plain (PosixPath.normpath (PosixPath.join T (PyStr.join "/" dcomps))).
Proof.
  intros (H1 & H2 & H3) Hd Hd0.
  pose proof (PathFacts.literal_comps_clean _ Hd) as Hdc.
  assert (Hc : forall c, (forall x, literal_comp x = true -> PyStr.has c x = false) ->
                 forallb (fun x => negb (PyStr.has c x)) dcomps = true).
  { intros c Hx. apply forallb_forall. intros x Hin. apply negb_true_iff, Hx.
    by apply (proj1 (forallb_forall _ _) Hd). }
  repeat split; apply PathGeneral.has_below; try done; apply Hc;
    intros x Hx; apply PathFacts.literal_comp_spec in Hx; tauto.
Qed.

End MappingFacts.

(** C9. A file specification with both [src] and [symlink] whose [src]
    expands to more than one path makes [compute_mapping] fail: no
    mapping is returned. *)
Theorem C9_symlink_with_expanding_src_fails
    (env : Env) (output_dir working_dir : str) (conf d : dict)
    (pre post : list yaml) (s : str) (srcs : list str) :
  dict_get "files" conf = Some (YList (pre ++ YDict d :: post)) ->
  dict_get "src" d = Some (YStr s) ->
  dict_has "symlink" d = true ->
  Utils.parse_file_paths env (Utils.get_path env s "") = Ok srcs ->
  1 < length srcs ->
  Forall (fun p => path_exists env p = true) srcs ->
  exists e, Config.compute_mapping env output_dir working_dir (YDict conf) = Err e.
Proof.
  intros Hfiles Hsrc Hsym Hexp Hlen _.
  unfold Config.compute_mapping. cbn [getitem]. rewrite Hfiles. cbn [bind iter_values].
  apply MappingFacts.map_specs_fails.
  eapply MappingFacts.map_spec_symlink_fan_in; eassumption.
Qed.

Lemma C9_symlink_with_expanding_src_fails_witness :
  exists e,
    Config.compute_mapping test_env "/tmp/dst" "/tmp/wrk"
      (YDict [("files" : str, YList [YDict fan_in_spec])]) = Err e.
Proof.
  apply (C9_symlink_with_expanding_src_fails test_env "/tmp/dst" "/tmp/wrk"
           [("files" : str, YList [YDict fan_in_spec])] fan_in_spec [] []
           "foo[1-2].template"
           ["/tmp/src/foo1.template" : str; "/tmp/src/foo2.template" : str]).
  - reflexivity.
  - reflexivity.
  - reflexivity.
  - vm_compute. reflexivity.
  - cbn. lia.
  - repeat constructor.
Defined.

(** C3. In [config.compute_mapping] a specification with [src] and
    [symlink] whose [src] expands to one existing path does not yield a
    mapping with the link resolved: the assignments of [spec_full_lnk]
    and [spec_rel_lnk] follow the [raise] inside the guard of the fan-in
    case, so for the first specification of a configuration the names
    are unbound when the mapping is built. *)
Theorem C3_src_symlink_link_unbound
    (env : Env) (output_dir working_dir : str) (d : dict) (s p q : str) (dst : yaml) :
  dict_get "dst" d = Some dst ->
  dict_get "src" d = Some (YStr s) ->
  dict_has "symlink" d = true ->
  Utils.parse_file_paths env (Utils.get_path env s "") = Ok [p] ->
  path_exists env p = true ->
  (do t <- Utils.get_path_of env dst output_dir; Utils.parse_file_paths env t) = Ok [q] ->
  p <> [] -> q <> [] ->
  Config.compute_mapping env output_dir working_dir
    (YDict [("files" : str, YList [YDict d])]) = Err (Builtin UnboundLocalError).
Proof.
  intros Hdst Hsrc Hsym Hp Hex Hq Hpn Hqn.
  assert (Hrel : forall x base, x <> [] -> exists r, Config.relpath env x base = Ok r).
  { intros x base Hx. unfold Config.relpath, PosixPath.relpath.
    destruct x; [done|]. cbn [PyStr.eqb].
    destruct (repeat _ _ ++ _); eauto. }
  destruct (Hrel p (TEMPLATE_DIR env) Hpn) as [rp Hrp].
  destruct (Hrel q output_dir Hqn) as [rq Hrq].
  unfold Config.compute_mapping.
  change (getitem (YDict [("files" : str, YList [YDict d])]) "files")
    with (Ok (A:=yaml) (YList [YDict d])).
  cbn [bind iter_values Config.map_specs]. unfold Config.map_spec.
  cbn [getitem]. rewrite Hdst. cbn [bind].
  assert (Hk : contains_key "src" (YDict d) = true)
    by (unfold contains_key, dict_has; by rewrite Hsrc).
  rewrite Hk. unfold Config.map_src. cbn [getitem]. rewrite Hsrc.
  cbn [bind Utils.get_path_of]. rewrite Hp. cbn [rethrow bind PosixPath.is_nil Config.traverse].
  rewrite Hrp. cbn [bind Config.check_exist]. rewrite Hex. cbn [bind].
  rewrite Hq. cbn [rethrow bind]. rewrite Hrq. cbn [bind contains_key].
  rewrite Hsym. cbn [length Nat.ltb Nat.leb bind combine Config.traverse].
  unfold Config.get_default. cbn [contains_key].
  destruct (dict_has "chmod" d) eqn:E1.
  - unfold dict_has in E1. cbn [getitem].
    destruct (dict_get "chmod" d); [|discriminate]. cbn [bind].
    destruct (dict_has "chown" d) eqn:E2.
    + unfold dict_has in E2. destruct (dict_get "chown" d); [|discriminate]. reflexivity.
    + reflexivity.
  - cbn [bind].
    destruct (dict_has "chown" d) eqn:E2.
    + unfold dict_has in E2. cbn [getitem].
      destruct (dict_get "chown" d); [|discriminate]. reflexivity.
    + reflexivity.
Qed.

Lemma C3_src_symlink_link_unbound_witness :
  Config.compute_mapping test_env "/tmp/dst" "/tmp/wrk"
    (YDict [("files" : str, YList [YDict linked_spec])]) = Err (Builtin UnboundLocalError).
Proof.
  apply (C3_src_symlink_link_unbound test_env "/tmp/dst" "/tmp/wrk" linked_spec
           "foo.template" "/tmp/src/foo.template" "/tmp/dst/foo.txt" (YStr "foo.txt")).
  - reflexivity.
  - reflexivity.
  - reflexivity.
  - vm_compute. reflexivity.
  - reflexivity.
  - vm_compute. reflexivity.
  - discriminate.
  - discriminate.
Defined.


(** Claim C8 fails: a literal relative [dst] that is not normalised is
    mapped under its normalised form. *)
Lemma C8_unnormalised_dst :
  plain "./foo.txt"
  /\ path_exists test_env (Utils.get_path test_env "./foo.txt" "") = true
  /\ exists m,
       Config.compute_mapping test_env "/tmp/dst" "/tmp/wrk"
         (YDict [("files" : str, YList [YDict [("dst" : str, YStr "./foo.txt")]])]) = Ok [m]
       /\ Config.rel_src m = lit "foo.txt"
       /\ Config.rel_dst m = lit "foo.txt"
       /\ Config.rel_src m <> lit "./foo.txt".
Proof.
  split; [by repeat split|]. split; [reflexivity|].
  eexists. split; [vm_compute; reflexivity|]. by repeat split.
Qed.

(** The template root matters too: below a root that is itself a range
    specification a bare [dst] is mapped once for every path of the
    range. *)
Lemma C8_expanding_root :
  exists m1 m2,
    Config.compute_mapping range_root_env "/tmp/dst" "/tmp/wrk"
      (YDict [("files" : str, YList [YDict [("dst" : str, YStr "foo.txt")]])]) = Ok [m1; m2].
Proof. do 2 eexists. vm_compute. reflexivity. Qed.

(** C8, amended. Let the template root be any path without [*], [[]
    and []] (absolute or relative, normalised or not), the working
    directory being absolute as [os.getcwd] gives it.  For a file
    specification without [src], [symlink] and [translate] whose [dst]
    is a normalised relative path of components without [*], [[] and
    []] (no empty, [.] or [..] component, not starting with a tilde)
    that names an existing file under the template root,
    [compute_mapping] yields exactly one mapping, whose [rel_src] and
    [rel_dst] both equal [dst] and whose [translate] is true. *)
Theorem C8_bare_dst_mapping
    (env : Env) (output_dir working_dir : str) (conf d : dict) (dcomps : list str) :
  let dst := PyStr.join "/" dcomps in
  let src := PosixPath.normpath (PosixPath.join (TEMPLATE_DIR env) dst) in
  PyStr.startswith "/" (getcwd env) = true ->
  plain (TEMPLATE_DIR env) ->
  forallb literal_comp dcomps = true ->
  dcomps <> [] ->
  PyStr.startswith "~" dst = false ->
  dict_get "files" conf = Some (YList [YDict d]) ->
  dict_get "dst" d = Some (YStr dst) ->
  dict_has "src" d = false ->
  dict_has "symlink" d = false ->
  dict_has "translate" d = false ->
  path_exists env src = true ->
  exists m,
    Config.compute_mapping env output_dir working_dir (YDict conf) = Ok [m]
    /\ Config.rel_src m = dst
    /\ Config.rel_dst m = dst
    /\ Config.translate m = YBool true
    /\ Config.full_src m = src
    /\ Config.full_dst m = PosixPath.join output_dir dst
    /\ Config.full_wrk m = PosixPath.join working_dir dst
    /\ Config.full_lnk m = lit ""
    /\ Config.dst_key m = YStr dst.
Proof.
  intros dst src Hcwd HT Hd Hd0 Htilde Hfiles Hdst Hsrc Hsym Htr Hex.
  pose proof (PathFacts.literal_comps_clean _ Hd) as Hdc.
  unfold Config.compute_mapping. cbn [getitem]. rewrite Hfiles.
  cbn [bind iter_values Config.map_specs]. unfold Config.map_spec.
  cbn [getitem]. rewrite Hdst. cbn [bind contains_key]. rewrite Hsrc.
  unfold Config.map_dst. cbn [Utils.get_path_of bind].
  fold dst. unfold dst at 1.
  rewrite (MappingFacts.get_path_below env dcomps) by done. fold dst src.
  rewrite ExpandFacts.parse_literal by (by apply MappingFacts.plain_below).
  cbn [rethrow bind PosixPath.is_nil Config.traverse]. unfold Config.relpath.
  unfold src, dst. rewrite PathGeneral.relpath_below by done. fold dst src.
  cbn [bind Config.check_exist]. rewrite Hex. cbn [bind contains_key]. rewrite Hsym.
  cbn [bind map combine Config.traverse Config.spec_full_lnk Config.spec_rel_lnk Config.load_name].
  rewrite !MappingFacts.get_default_dict. cbn [bind app fst snd].
  unfold dict_has in Htr. destruct (dict_get "translate" d); [done|].
  eexists. split; [reflexivity|]. by repeat split.
Qed.

Lemma C8_bare_dst_mapping_witness :
  exists m,
    Config.compute_mapping dot_root_env "/tmp/dst" "/tmp/wrk"
      (YDict [("files" : str, YList [YDict [("dst" : str, YStr "foo.txt")]])]) = Ok [m]
    /\ Config.rel_src m = lit "foo.txt"
    /\ Config.rel_dst m = lit "foo.txt"
    /\ Config.translate m = YBool true
    /\ Config.full_src m = lit "conf/foo.txt"
    /\ Config.full_dst m = lit "/tmp/dst/foo.txt"
    /\ Config.full_wrk m = lit "/tmp/wrk/foo.txt"
    /\ Config.full_lnk m = lit ""
    /\ Config.dst_key m = YStr "foo.txt".
Proof.
  apply (C8_bare_dst_mapping dot_root_env "/tmp/dst" "/tmp/wrk"
           [("files" : str, YList [YDict [("dst" : str, YStr "foo.txt")]])]
           [("dst" : str, YStr "foo.txt")]
           ["foo.txt" : str]);
    try reflexivity.
  - by repeat split.
  - discriminate.
Defined.
(** ** parse *)

Module ParseFacts.
Import Config.

Lemma parse_unfold (depth : nat) (env : Env) (path : str) :
  parse (S depth) env path =
  if negb (isfile env path) then Err (ConfNotExisting path) else
  do conf_raw <- Utils.of_option (ConfUnableToOpen path) (read_file env path);
  do data <- Utils.of_option (ConfUnableToParse path) (safe_load env conf_raw);
  match data with
  | YDict d =>
      match dict_get "include" d with
      | None => Ok data
      | Some (YList include) =>
          do flat_includes <-
            rethrow (IncludeSpecError path)
              (flatten_map
                 (fun p => do q <- Utils.get_path_of env p (PosixPath.dirname path);
                           Utils.parse_file_paths env q) include);
          do data <- merge_includes (parse depth env) flat_includes data;
          setitem data "template_configuration_file" (YStr (realpath env path))
      | Some _ => Err (IncludeNotList path)
      end
  | _ => Err (ConfNotDict path)
  end.
Proof. reflexivity. Qed.

(** What [parse] returns is a mapping. *)
Lemma parse_ok_dict (depth : nat) (env : Env) (path : str) (doc : yaml) :
  parse depth env path = Ok doc -> exists d, doc = YDict d.
Proof.
  destruct depth as [|depth]; [discriminate|]. rewrite parse_unfold.
  destruct (negb (isfile env path)); [discriminate|].
  destruct (Utils.of_option _ (read_file env path)) as [raw|]; [|discriminate]. cbn [bind].
  destruct (Utils.of_option _ (safe_load env raw)) as [data|]; [|discriminate]. cbn [bind].
  destruct data as [| | | | |d]; try discriminate.
  destruct (dict_get "include" d) as [[| | | |inc|]|]; try discriminate.
  - destruct (rethrow _ _) as [fl|]; [|discriminate]. cbn [bind].
    destruct (merge_includes _ fl _) as [data|]; [|discriminate]. cbn [bind].
    destruct data; try discriminate. cbn. intros [= <-]. eauto.
  - intros [= <-]. eauto.
Qed.

(** The loop over the includes keeps the keys of the including
    document. *)
Lemma merge_includes_has (k : str) (depth : nat) (env : Env) (incs : list str) :
  forall (d : dict) (doc : yaml),
    merge_includes (parse depth env) incs (YDict d) = Ok doc ->
    dict_has k d = true ->
    contains_key k doc = true.
Proof.
  induction incs as [|i incs IH]; intros d doc; cbn [merge_includes].
  - intros [= <-]. done.
  - destruct (parse depth env i) as [idata|] eqn:E; [|discriminate]. cbn [bind].
    apply parse_ok_dict in E as [d2 ->]. rewrite merge_dict_unfold.
    intros Hm Hk. eapply IH; [exact Hm|]. by apply merge_items_has.
Qed.

End ParseFacts.

(** Claim C1 fails: for a root document that includes [base.yaml] and
    sets [x] to 2 and [y] to 3, with a [base.yaml] that sets [x] to 1,
    the loader returns a document in which [x] is the 1 of the included
    document, not the 2 of the including one. *)
Lemma C1_including_document_loses :
  safe_load include_env root_text = Some (YDict root_doc)
  /\ safe_load include_env base_text = Some (YDict base_doc)
  /\ exists doc,
       Config.parse Config.recursion_limit include_env root_yaml = Ok doc
       /\ getitem doc "x" = Ok (YInt 1)
       /\ doc <> YDict [("x" : str, YInt 2); ("y" : str, YInt 3)].
Proof.
  split; [reflexivity|]. split; [reflexivity|].
  eexists. split; [vm_compute; reflexivity|]. split; [reflexivity|discriminate].
Qed.

(** C1, amended. A root document that includes [base.yaml] and sets
    [x] to 2 and [y] to 3, where [base.yaml] parses to [{x: 1}], is
    loaded as a document in which [x] is 1 and [y] is 3: on a conflict
    the included document wins.  The returned document also keeps
    [include] and records [template_configuration_file]. *)
Theorem C1_included_document_wins
    (depth : nat) (env : Env) (path raw braw : str) (d : dict) :
  let base := Utils.get_path env "base.yaml" (PosixPath.dirname path) in
  isfile env path = true ->
  read_file env path = Some raw ->
  safe_load env raw = Some (YDict d) ->
  dict_get "include" d = Some (YList [YStr "base.yaml"]) ->
  dict_get "x" d = Some (YInt 2) ->
  dict_get "y" d = Some (YInt 3) ->
  Utils.parse_file_paths env base = Ok [base] ->
  isfile env base = true ->
  read_file env base = Some braw ->
  safe_load env braw = Some (YDict [("x" : str, YInt 1)]) ->
  exists doc,
    Config.parse (S (S depth)) env path = Ok (YDict doc)
    /\ dict_get "x" doc = Some (YInt 1)
    /\ dict_get "y" doc = Some (YInt 3)
    /\ dict_get "include" doc = Some (YList [YStr "base.yaml"])
    /\ dict_get "template_configuration_file" doc = Some (YStr (realpath env path)).
Proof.
  intros base Hf Hr Hl Hinc Hx Hy Hexp Hbf Hbr Hbl.
  assert (Hbase : Config.parse (S depth) env base = Ok (YDict [("x" : str, YInt 1)])).
  { rewrite ParseFacts.parse_unfold, Hbf. cbn [negb]. rewrite Hbr. cbn [Utils.of_option bind].
    rewrite Hbl. reflexivity. }
  rewrite ParseFacts.parse_unfold, Hf. cbn [negb]. rewrite Hr. cbn [Utils.of_option bind].
  rewrite Hl. cbn [Utils.of_option bind]. rewrite Hinc.
  cbn [Config.flatten_map Utils.get_path_of bind]. fold base. rewrite Hexp.
  cbn [bind rethrow app Config.merge_includes]. rewrite Hbase. cbn [bind].
  rewrite merge_dict_unfold. cbn [Utils.merge_items]. rewrite Hx.
  cbn [Utils.merge_yaml_data Config.setitem].
  eexists. split; [reflexivity|].
  rewrite !dict_get_set. repeat split; try assumption; reflexivity.
Qed.

Lemma C1_included_document_wins_witness :
  exists doc,
    Config.parse 2 include_env root_yaml = Ok (YDict doc)
    /\ dict_get "x" doc = Some (YInt 1)
    /\ dict_get "y" doc = Some (YInt 3)
    /\ dict_get "include" doc = Some (YList [YStr "base.yaml"])
    /\ dict_get "template_configuration_file" doc = Some (YStr root_yaml).
Proof.
  apply (C1_included_document_wins 0 include_env root_yaml root_text base_text root_doc);
    reflexivity.
Defined.

(** Claim C2 fails: the document returned for a root that declares an
    include list still has the [include] key. *)
Lemma C2_include_key_is_returned :
  safe_load include_env root_text = Some (YDict root_doc)
  /\ dict_get "include" root_doc = Some (YList [YStr "base.yaml"])
  /\ exists doc,
       Config.parse Config.recursion_limit include_env root_yaml = Ok doc
       /\ contains_key "include" doc = true.
Proof.
  split; [reflexivity|]. split; [reflexivity|].
  eexists. split; [vm_compute; reflexivity|reflexivity].
Qed.

(** C2, amended. For a root document that declares an include list, the
    document that the loader returns still contains the [include] key:
    merging never removes a key of the including document, and nothing
    deletes [include] afterwards. *)
Theorem C2_include_key_remains
    (depth : nat) (env : Env) (path raw : str) (d : dict) (inc : list yaml) (doc : yaml) :
  isfile env path = true ->
  read_file env path = Some raw ->
  safe_load env raw = Some (YDict d) ->
  dict_get "include" d = Some (YList inc) ->
  Config.parse depth env path = Ok doc ->
  contains_key "include" doc = true.
Proof.
  intros Hf Hr Hl Hinc. destruct depth as [|depth]; [discriminate|].
  rewrite ParseFacts.parse_unfold, Hf. cbn [negb]. rewrite Hr. cbn [Utils.of_option bind].
  rewrite Hl. cbn [Utils.of_option bind]. rewrite Hinc.
  destruct (rethrow _ _) as [fl|]; [|discriminate]. cbn [bind].
  destruct (Config.merge_includes _ fl _) as [data|] eqn:Hm; [|discriminate]. cbn [bind].
  apply (ParseFacts.merge_includes_has "include") in Hm;
    [|unfold dict_has; by rewrite Hinc].
  destruct data as [| | | | |dd]; try discriminate. cbn [Config.setitem].
  intros [= <-]. cbn [contains_key] in *. by apply dict_has_set.
Qed.

Lemma C2_include_key_remains_witness :
  exists doc,
    Config.parse 2 include_env root_yaml = Ok doc /\ contains_key "include" doc = true.
Proof.
  eexists. split; [vm_compute; reflexivity|].
  eapply (C2_include_key_remains 2 include_env root_yaml root_text root_doc
            [YStr "base.yaml"]); reflexivity.
Defined.

(** C4. A configuration file without [include] is returned as parsed:
    [parse] returns before the assignment of
    [template_configuration_file].  When the file does not set the key
    itself the returned document lacks it, and [get_lib_paths], which
    reads it, fails on the document when it names libraries. *)
Theorem C4_no_include_records_nothing
    (depth : nat) (env : Env) (path raw : str) (d : dict) :
  isfile env path = true ->
  read_file env path = Some raw ->
  safe_load env raw = Some (YDict d) ->
  dict_get "include" d = None ->
  dict_get "template_configuration_file" d = None ->
  dict_has "lib" d = true ->
  Config.parse (S depth) env path = Ok (YDict d)
  /\ getitem (YDict d) "template_configuration_file" = Err (Builtin KeyError)
  /\ Config.get_lib_paths env (YDict d) = Err (Builtin KeyError).
Proof.
  intros Hf Hr Hl Hinc Hnone Hlib. split; [|split].
  - rewrite ParseFacts.parse_unfold, Hf. cbn [negb]. rewrite Hr. cbn [Utils.of_option bind].
    rewrite Hl. cbn [Utils.of_option bind]. by rewrite Hinc.
  - cbn [getitem]. by rewrite Hnone.
  - unfold Config.get_lib_paths. cbn [contains_key getitem].
    rewrite Hlib, Hnone. reflexivity.
Qed.

Lemma C4_no_include_records_nothing_witness :
  Config.parse 1 lib_env lib_yaml = Ok (YDict lib_doc)
  /\ getitem (YDict lib_doc) "template_configuration_file" = Err (Builtin KeyError)
  /\ Config.get_lib_paths lib_env (YDict lib_doc) = Err (Builtin KeyError).
Proof.
  apply (C4_no_include_records_nothing 0 lib_env lib_yaml lib_text lib_doc); reflexivity.
Defined.

(** ** The tests of the package, in the model *)

Module PackageTests.

(** [test_utils.test_get_path] *)
Example test_get_path :
  Utils.get_path mock_env "/foo" "" = lit "/foo"
  /\ Utils.get_path mock_env "~/foo" "" = lit "/home/example/foo"
  /\ Utils.get_path mock_env "foo" "" = lit "/tmp/src/foo"
  /\ Utils.get_path mock_env "bar" "/foo" = lit "/foo/bar".
Proof. repeat split; reflexivity. Qed.

(** [test_utils.test_merge_yaml_data] *)
Example test_merge_yaml_data :
  Utils.merge_yaml_data (YStr "foo") (YStr "bar") = YStr "bar"
  /\ Utils.merge_yaml_data (YList [YStr "foo"]) (YList [YStr "bar"; YStr "baz"])
     = YList [YStr "foo"; YStr "bar"; YStr "baz"]
  /\ Utils.merge_yaml_data (YDict [("foo" : str, YStr "bar")]) (YDict [("baz" : str, YBool true)])
     = YDict [("foo" : str, YStr "bar"); ("baz" : str, YBool true)]
  /\ Utils.merge_yaml_data (YDict [("foo" : str, YBool true)]) (YDict [("foo" : str, YBool false)])
     = YDict [("foo" : str, YBool false)]
  /\ Utils.merge_yaml_data (YDict [("foo" : str, YList [YStr "a"; YStr "b"])])
                           (YDict [("foo" : str, YList [YStr "c"])])
     = YDict [("foo" : str, YList [YStr "a"; YStr "b"; YStr "c"])].
Proof. repeat split; reflexivity. Qed.

(** [test_utils.test_parse_file_paths] *)
Example test_parse_file_paths :
  Utils.parse_file_paths test_env "/foo/bar.txt" = Ok [lit "/foo/bar.txt"]
  /\ Utils.parse_file_paths test_env "/foo/bar-[a,b,c].txt"
     = Ok [lit "/foo/bar-a.txt"; lit "/foo/bar-b.txt"; lit "/foo/bar-c.txt"]
  /\ Utils.parse_file_paths test_env "/foo/bar-[1-3].txt"
     = Ok [lit "/foo/bar-1.txt"; lit "/foo/bar-2.txt"; lit "/foo/bar-3.txt"].
Proof. repeat split; reflexivity. Qed.

(** [test_config.test_get_lib_paths] *)
Example test_get_lib_paths :
  Config.get_lib_paths test_env
    (YDict [("lib" : str, YList [YStr "foo.py"; YStr "bar[1-3].py"; YStr "baz-[a,b].py"]);
            ("template_configuration_file" : str, YStr "/tmp/example.yaml")])
  = Ok [lit "/tmp/foo.py"; lit "/tmp/bar1.py"; lit "/tmp/bar2.py"; lit "/tmp/bar3.py";
        lit "/tmp/baz-a.py"; lit "/tmp/baz-b.py"].
Proof. reflexivity. Qed.

(** [test_config.test_compute_mapping], the configuration with only
    [dst]. *)
Example test_compute_mapping_dst_only :
  Config.compute_mapping test_env "/tmp/dst" "/tmp/wrk"
    (files_conf [YDict [("dst" : str, YStr "foo.txt")]])
  = Ok [{| Config.chmod := YStr ""; Config.chown := YStr "";
           Config.dst_key := YStr "foo.txt";
           Config.full_dst := "/tmp/dst/foo.txt"; Config.full_lnk := "";
           Config.full_src := "/tmp/src/foo.txt"; Config.full_wrk := "/tmp/wrk/foo.txt";
           Config.rel_dst := "foo.txt"; Config.rel_lnk := "";
           Config.rel_src := "foo.txt"; Config.translate := YBool true |}].
Proof. reflexivity. Qed.

(** The configuration with [chmod], [chown], [symlink] and
    [translate]: the branch without [src] resolves the link. *)
Example test_compute_mapping_dst_only_complex :
  Config.compute_mapping test_env "/tmp/dst" "/tmp/wrk"
    (files_conf [YDict [("dst" : str, YStr "foo.sh"); ("chmod" : str, YStr "+x");
                   ("chown" : str, YStr "root:root");
                   ("symlink" : str, YStr "/usr/local/bin/foo");
                   ("translate" : str, YBool false)]])
  = Ok [{| Config.chmod := YStr "+x"; Config.chown := YStr "root:root";
           Config.dst_key := YStr "foo.sh";
           Config.full_dst := "/tmp/dst/foo.sh"; Config.full_lnk := "/usr/local/bin/foo";
           Config.full_src := "/tmp/src/foo.sh"; Config.full_wrk := "/tmp/wrk/foo.sh";
           Config.rel_dst := "foo.sh"; Config.rel_lnk := "../../usr/local/bin/foo";
           Config.rel_src := "foo.sh"; Config.translate := YBool false |}].
Proof. reflexivity. Qed.

(** The configuration with [src] and [dst]. *)
Example test_compute_mapping_src_dst :
  Config.compute_mapping test_env "/tmp/dst" "/tmp/wrk"
    (files_conf [YDict [("dst" : str, YStr "foo.txt"); ("src" : str, YStr "foo.template")]])
  = Ok [{| Config.chmod := YStr ""; Config.chown := YStr "";
           Config.dst_key := YStr "foo.txt";
           Config.full_dst := "/tmp/dst/foo.txt"; Config.full_lnk := "";
           Config.full_src := "/tmp/src/foo.template"; Config.full_wrk := "/tmp/wrk/foo.txt";
           Config.rel_dst := "foo.txt"; Config.rel_lnk := "";
           Config.rel_src := "foo.template"; Config.translate := YBool true |}].
Proof. reflexivity. Qed.

(** The list and the range configurations: one mapping per expansion,
    source and destination relative paths equal. *)
Example test_compute_mapping_expansions :
  (do ms <- Config.compute_mapping test_env "/tmp/dst" "/tmp/wrk"
              (files_conf [YDict [("dst" : str, YStr "foo-[a,b].txt")]]);
   Ok (map (fun m => (Config.rel_src m, Config.rel_dst m, Config.full_dst m)) ms))
  = Ok [(lit "foo-a.txt", lit "foo-a.txt", lit "/tmp/dst/foo-a.txt");
        (lit "foo-b.txt", lit "foo-b.txt", lit "/tmp/dst/foo-b.txt")]
  /\ (do ms <- Config.compute_mapping test_env "/tmp/dst" "/tmp/wrk"
                 (files_conf [YDict [("dst" : str, YStr "foo[1-3].txt")]]);
      Ok (map (fun m => (Config.rel_src m, Config.rel_dst m, Config.full_dst m)) ms))
     = Ok [(lit "foo1.txt", lit "foo1.txt", lit "/tmp/dst/foo1.txt");
           (lit "foo2.txt", lit "foo2.txt", lit "/tmp/dst/foo2.txt");
           (lit "foo3.txt", lit "foo3.txt", lit "/tmp/dst/foo3.txt")].
Proof. split; reflexivity. Qed.

(** After a specification that bound the link variables, a
    specification with [src] and [symlink] is mapped with the link of
    the earlier one. *)
Example src_symlink_reuses_earlier_link :
  (do ms <- Config.compute_mapping test_env "/tmp/dst" "/tmp/wrk"
              (files_conf [YDict [("dst" : str, YStr "a.sh");
                             ("symlink" : str, YStr "/usr/local/bin/a")];
                      YDict linked_spec]);
   Ok (map (fun m => (Config.full_src m, Config.full_lnk m)) ms))
  = Ok [(lit "/tmp/src/a.sh", lit "/usr/local/bin/a");
        (lit "/tmp/src/foo.template", lit "/usr/local/bin/a")].
Proof. reflexivity. Qed.

End PackageTests.

(** * Further properties *)

(** ** The expander *)

Module ExpandMore.
Import PyStr Utils.

Lemma split_join_sep (c : ascii) (parts : list str) :
  parts <> [] -> forallb (fun p => negb (has c p)) parts = true ->
  split c (join [c] parts) = parts.
Proof.
  induction parts as [|x parts IH]; [done|]. intros _. cbn [forallb].
  intros [Hx Hp]%andb_true_iff. apply negb_true_iff in Hx.
  destruct parts as [|y parts].
  - by apply PathFacts.split_absent.
  - rewrite PathFacts.join_cons by done. cbn [app].
    rewrite PathFacts.split_app, PathFacts.split_absent by done. cbn [app].
    by rewrite IH.
Qed.

Lemma forallb_join (f : ascii -> bool) (c : ascii) (parts : list str) :
  f c = true -> forallb (forallb f) parts = true -> forallb f (join [c] parts) = true.
Proof.
  intros Hc. induction parts as [|x parts IH]; [done|]. cbn [forallb].
  intros [Hx Hp]%andb_true_iff. destruct parts as [|y parts]; [done|].
  rewrite PathFacts.join_cons by done. rewrite forallb_app. cbn [app forallb].
  by rewrite Hx, Hc, IH.
Qed.

Lemma path_char_is_list_char (s : str) :
  forallb path_char s = true -> forallb list_char s = true.
Proof.
  induction s as [|x s IH]; cbn; [done|]. intros [Hx Hs]%andb_true_iff.
  unfold list_char at 1. by rewrite Hx, IH.
Qed.

Lemma join_has_sep (c : ascii) (x y : str) (parts : list str) :
  has c (join [c] (x :: y :: parts)) = true.
Proof.
  rewrite PathFacts.join_cons by done. rewrite StrFacts.has_app. cbn [app has].
  rewrite Ascii.eqb_refl. cbn. apply orb_true_r.
Qed.

(** A path specification with one list expression,
    [prefix[part,...,part]suffix]; it is a list expression when there
    are at least two parts. *)
Lemma expand_list (env : Env) (pre suf : str) (parts : list str) :
  forallb path_char pre = true -> forallb path_char suf = true ->
  forallb (forallb path_char) parts = true ->
  2 <= length parts ->
  parse_file_paths env (list_spec pre parts suf)
  = Ok (map (fun p => pre ++ p ++ suf) (List.filter nonempty parts)).
Proof.
  intros Hpre Hsuf Hparts Hlen.
  destruct parts as [|x [|y parts]]; cbn in Hlen; try lia.
  set (ps := x :: y :: parts) in *.
  assert (Hnocomma : forallb (fun p => negb (has "," p)) ps = true).
  { clear -Hparts. induction ps as [|p ps IH]; [done|]. cbn [forallb] in *.
    apply andb_true_iff in Hparts as [Hp Hps].
    destruct (ExpandFacts.path_chars_plain _ Hp) as (_ & _ & _ & ->). by rewrite IH. }
  set (inner := join [","%char] ps).
  assert (Hinner : forallb list_char inner = true).
  { apply forallb_join; [done|]. clear -Hparts.
    induction ps as [|p ps IH]; [done|]. cbn [forallb] in *.
    apply andb_true_iff in Hparts as [Hp Hps].
    by rewrite path_char_is_list_char, IH. }
  assert (Hinner0 : inner <> []).
  { intros H. pose proof (join_has_sep "," x y parts) as Hc.
    fold ps inner in Hc. by rewrite H in Hc. }
  destruct (ExpandFacts.list_chars_plain _ Hinner) as [Hi1 Hi2].
  assert (Hi3 : has "*" inner = false) by (by apply (StrFacts.has_outside list_char)).
  destruct (ExpandFacts.path_chars_plain _ Hpre) as (Hp1 & Hp2 & Hp3 & _).
  destruct (ExpandFacts.path_chars_plain _ Hsuf) as (Hs1 & Hs2 & Hs3 & _).
  assert (Hspec : list_spec pre ps suf = pre ++ "["%char :: inner ++ "]"%char :: suf)
    by reflexivity.
  unfold parse_file_paths.
  assert (Hstar : has "*" (list_spec pre ps suf) = false).
  { rewrite Hspec. ExpandFacts.has_split. by rewrite Hp3, Hi3, Hs3. }
  assert (Hopen : has "[" (list_spec pre ps suf) = true).
  { rewrite Hspec, StrFacts.has_app. cbn. apply orb_true_r. }
  assert (Hclose : has "]" (list_spec pre ps suf) = true).
  { rewrite Hspec. ExpandFacts.has_split. cbn. rewrite !orb_true_r. reflexivity. }
  rewrite Hstar, Hopen, Hclose. cbn [negb andb].
  rewrite Hspec at 1. rewrite (StrFacts.split1_app "[" pre) by done.
  cbn [snd of_option bind].
  assert (Hguts : has "]" (inner ++ "]"%char :: suf) = true).
  { rewrite StrFacts.has_app. cbn [has]. rewrite Ascii.eqb_refl.
    cbn [orb]. apply orb_true_r. }
  rewrite Hguts. cbn [negb].
  rewrite (StrFacts.split1_app "]") by done. cbn [fst].
  pose proof (join_has_sep "," x y parts) as Hcomma. fold ps inner in Hcomma.
  rewrite Hcomma.
  assert (Hmatch : LIST_REGEX (list_spec pre ps suf) = Some ("["%char :: inner ++ ["]"%char])).
  { rewrite Hspec. unfold LIST_REGEX.
    rewrite (StrFacts.span_app path_char pre) by done.
    rewrite (StrFacts.span_app list_char inner) by done.
    destruct inner as [|i0 inner']; [done|].
    rewrite <- (app_nil_r suf).
    rewrite (StrFacts.span_app path_char suf) by done. reflexivity. }
  rewrite Hmatch. cbn [tl]. rewrite removelast_last.
  change (split "," inner) with (split "," (join [","%char] ps)).
  rewrite split_join_sep by done.
  f_equal. apply map_ext. intros p.
  replace (list_spec pre ps suf)
    with (pre ++ ("["%char :: inner ++ ["]"%char]) ++ suf).
  - by apply StrFacts.replace_once.
  - rewrite Hspec. cbn [app]. do 2 f_equal. by rewrite <- app_assoc.
Qed.

Lemma split_parts_have (c d : ascii) (s p : str) :
  In p (split d s) -> has c p = true -> has c s = true.
Proof.
  revert p. induction s as [|x s IH]; intros p; cbn [split].
  - intros [<-|[]]. done.
  - destruct (Ascii.eqb x d) eqn:Ex.
    + intros [<-|Hin]; [done|]. intros Hp. cbn [has]. rewrite (IH _ Hin Hp).
      apply orb_true_r.
    + pose proof (PathFacts.split_nonempty d s) as Hne.
      destruct (split d s) as [|w ws] eqn:Es; [done|].
      intros [<-|Hin]; cbn [has].
      * intros [H|H]%orb_true_iff; [by rewrite H|].
        rewrite (IH w (or_introl eq_refl) H). apply orb_true_r.
      * intros Hp. rewrite (IH p (or_intror Hin) Hp). apply orb_true_r.
Qed.

(** The groups of a match, with the expression. *)
Lemma RANGE_REGEX_expr (s : str) (m : range_groups) :
  RANGE_REGEX s = Some m ->
  exists pre suf,
    s = pre ++ r_expr m ++ suf
    /\ r_expr m = "["%char :: r_lower m ++ "-"%char :: r_upper m ++ ["]"%char]
    /\ forallb path_char pre = true
    /\ forallb is_digit (r_lower m) = true /\ r_lower m <> []
    /\ forallb is_digit (r_upper m) = true /\ r_upper m <> []
    /\ has "[" suf = false /\ has "]" suf = false.
Proof.
  unfold RANGE_REGEX.
  destruct (span path_char s) as [pre s1] eqn:E1.
  apply StrFacts.span_spec in E1 as (-> & Hpre & _).
  destruct s1 as [|c s2]; [done|].
  destruct (Ascii.eqb c "[") eqn:Ec; [apply Ascii.eqb_eq in Ec as ->|];
    [|by destruct c as [[] [] [] [] [] [] [] []]].
  destruct (span is_digit s2) as [lower s3] eqn:E2.
  apply StrFacts.span_spec in E2 as (-> & Hlo & _).
  destruct lower as [|l0 lower]; [done|].
  destruct s3 as [|c s4]; [done|].
  destruct (Ascii.eqb c "-") eqn:Ec; [apply Ascii.eqb_eq in Ec as ->|];
    [|by destruct c as [[] [] [] [] [] [] [] []]].
  destruct (span is_digit s4) as [upper s5] eqn:E3.
  apply StrFacts.span_spec in E3 as (-> & Hhi & _).
  destruct upper as [|h0 upper]; [done|].
  destruct s5 as [|c s6]; [done|].
  destruct (Ascii.eqb c "]") eqn:Ec; [apply Ascii.eqb_eq in Ec as ->|];
    [|by destruct c as [[] [] [] [] [] [] [] []]].
  destruct (span path_char s6) as [suf0 s7] eqn:E4.
  apply StrFacts.span_spec in E4 as (-> & Hsuf & _).
  destruct (at_end s7) eqn:Hend; [|done]. intros [= <-]. cbn [r_lower r_upper r_expr].
  exists pre, (suf0 ++ s7).
  destruct (ExpandFacts.path_chars_plain _ Hsuf) as (Hs1 & Hs2 & _).
  destruct (ExpandFacts.at_end_plain _ Hend) as [He1 He2].
  rewrite !StrFacts.has_app, Hs1, Hs2, He1, He2.
  split; [|by repeat split].
  change (lit "[" ++ ?r) with ("["%char :: r). change (lit "-" ++ ?r) with ("-"%char :: r).
  cbn [app]. do 2 f_equal. rewrite <- !app_assoc. cbn [app]. do 2 f_equal.
  by rewrite <- app_assoc.
Qed.

(** Without [*], every path of an expansion is a literal path: it has
    no [*], [[] or []] left. *)
Lemma expansion_plain (env : Env) (s : str) (paths : list str) :
  has "*" s = false ->
  parse_file_paths env s = Ok paths ->
  Forall plain paths.
Proof.
  intros Hstar. unfold parse_file_paths. rewrite Hstar. cbn [negb andb].
  destruct (has "[" s) eqn:Hopen; cbn [negb andb].
  2:{ destruct (has "]" s) eqn:Hclose; cbn [negb]; [done|].
      intros [= <-]. by repeat constructor. }
  destruct (has "]" s) eqn:Hclose; [|done].
  destruct (StrFacts.split1_has _ _ Hopen) as (a & b & Hsp & _ & _). rewrite Hsp.
  cbn [snd of_option bind].
  destruct (has "]" b); cbn [negb]; [|done].
  destruct (has "," _).
  - destruct (LIST_REGEX s) as [expr|] eqn:E; [|done].
    apply ExpandFacts.LIST_REGEX_sound in E
      as (pre & inner & suf & Hs & -> & Hpre & Hin & _ & Hs1 & Hs2).
    intros [= <-]. cbn [tl]. rewrite removelast_last.
    destruct (ExpandFacts.path_chars_plain _ Hpre) as (Hp1 & Hp2 & Hp3 & _).
    destruct (ExpandFacts.list_chars_plain _ Hin) as [Hi1 Hi2].
    assert (Hi3 : has "*" inner = false) by (by apply (StrFacts.has_outside list_char)).
    assert (Hs3 : has "*" suf = false).
    { rewrite Hs in Hstar. revert Hstar. ExpandFacts.has_split.
      rewrite Hp3, Hi3. cbn. by destruct (has "*" suf). }
    apply Stdlib.Lists.List.Forall_forall. intros p (q & <- & Hq)%in_map_iff.
    apply filter_In in Hq as [Hq _].
    change (replace_scan (?c :: ?o) ?n 0 ?x) with (replace (c :: o) n x).
    replace s with (pre ++ ("["%char :: inner ++ ["]"%char]) ++ suf)
      by (rewrite Hs; cbn [app]; do 2 f_equal; by rewrite <- app_assoc).
    rewrite StrFacts.replace_once by done.
    assert (Hq' : forall c, has c inner = false -> has c q = false).
    { intros c Hc. destruct (has c q) eqn:E; [|done].
      by rewrite (split_parts_have c "," inner q Hq E) in Hc. }
    unfold plain. rewrite !StrFacts.has_app.
    by rewrite Hp1, Hp2, Hp3, Hs1, Hs2, Hs3, !Hq'.
  - destruct (has "-" _); [|done].
    destruct (RANGE_REGEX s) as [m|] eqn:E; [|done].
    apply RANGE_REGEX_expr in E
      as (pre & suf & Hs & Hexpr & Hpre & Hlo & _ & Hhi & _ & Hs1 & Hs2).
    destruct (negb _); [done|]. intros [= <-].
    destruct (ExpandFacts.path_chars_plain _ Hpre) as (Hp1 & Hp2 & Hp3 & _).
    assert (Hs3 : has "*" suf = false).
    { rewrite Hs in Hstar. revert Hstar. rewrite !StrFacts.has_app.
      by destruct (has "*" suf); rewrite ?orb_true_r. }
    apply Stdlib.Lists.List.Forall_forall. intros p (i & <- & _)%in_map_iff.
    rewrite Hexpr in Hs |- *. rewrite Hs.
    change (replace_scan (?c :: ?o) ?n 0 ?x) with (replace (c :: o) n x).
    rewrite StrFacts.replace_once by done.
    destruct (ExpandFacts.digits_plain _ (StrFacts.of_nat_digits i)) as (Hd1 & Hd2 & Hd3 & _).
    unfold plain. rewrite !StrFacts.has_app.
    by rewrite Hp1, Hp2, Hp3, Hs1, Hs2, Hs3, Hd1, Hd2, Hd3.
Qed.

End ExpandMore.

(** X1. A list expression [prefix[p1,...,pn]suffix] with at least two
    parts, all text in the class of [LIST_REGEX], expands to one path
    per non-empty part, in the order written. *)
Theorem list_expansion_in_order (env : Env) (pre suf : str) (parts : list str) :
  forallb Utils.path_char pre = true ->
  forallb Utils.path_char suf = true ->
  forallb (forallb Utils.path_char) parts = true ->
  2 <= length parts ->
  Utils.parse_file_paths env (list_spec pre parts suf)
  = Ok (map (fun p => pre ++ p ++ suf) (List.filter nonempty parts)).
Proof. apply ExpandMore.expand_list. Qed.

Lemma list_expansion_in_order_witness :
  Utils.parse_file_paths test_env (list_spec "/foo/bar-" ["a" : str; "" : str; "c" : str] ".txt")
  = Ok (map (fun p => lit "/foo/bar-" ++ p ++ lit ".txt")
            (List.filter nonempty ["a" : str; "" : str; "c" : str])).
Proof.
  apply (list_expansion_in_order test_env "/foo/bar-" ".txt" ["a" : str; "" : str; "c" : str]);
    try reflexivity.
  cbn. lia.
Defined.

(** X2. Without [*], expanding is idempotent: every path that the expander
    returns is a literal path, which expands to itself. *)
Theorem expansion_is_literal (env : Env) (s : str) (paths : list str) :
  PyStr.has "*" s = false ->
  Utils.parse_file_paths env s = Ok paths ->
  Forall (fun p => plain p /\ Utils.parse_file_paths env p = Ok [p]) paths.
Proof.
  intros Hstar Hs. eapply Forall_impl; [by eapply ExpandMore.expansion_plain|].
  intros p Hp. split; [done|]. by apply ExpandFacts.parse_literal.
Qed.

Lemma expansion_is_literal_witness :
  Forall (fun p => plain p /\ Utils.parse_file_paths test_env p = Ok [p])
    [lit "/foo/bar-1.txt"; lit "/foo/bar-2.txt"].
Proof.
  apply (expansion_is_literal test_env "/foo/bar-[1-2].txt"); reflexivity.
Defined.

(** X3. A [*] takes precedence over brackets: a specification with a [*]
    goes to the glob rule whatever brackets it has, so its only
    exception is the globbing one, and with [**] every path returned is
    a regular file. *)
Theorem star_takes_precedence (env : Env) (s : str) :
  PyStr.has "*" s = true ->
  (forall e, Utils.parse_file_paths env s = Err e -> e = GlobbingException)
  /\ (forall paths,
        Utils.parse_file_paths env s = Ok paths ->
        if PyStr.contains "**" s
        then Forall (fun p => isfile env p = true) paths
        else glob env s = Some paths).
Proof.
  intros Hstar. unfold Utils.parse_file_paths. rewrite Hstar. cbn [negb andb].
  destruct (PyStr.contains "**" s); cbn [negb].
  - destruct (PyStr.startswith "/" s);
      (destruct (path_glob env _ _) as [fs|]; cbn [Utils.of_option bind]; split;
       [intros e [= <-]|intros paths [= <-]|by intros e [= <-]|done]; try done;
       apply Stdlib.Lists.List.Forall_forall; by intros p [_ Hp]%filter_In).
  - destruct (glob env s) as [fs|]; cbn [Utils.of_option]; split; try done.
    + by intros paths [= <-].
    + by intros e [= <-].
Qed.

Lemma star_takes_precedence_witness :
  (forall e, Utils.parse_file_paths test_env "/foo/*[1-3].txt" = Err e -> e = GlobbingException)
  /\ (forall paths,
        Utils.parse_file_paths test_env "/foo/*[1-3].txt" = Ok paths ->
        if PyStr.contains "**" "/foo/*[1-3].txt"
        then Forall (fun p => isfile test_env p = true) paths
        else glob test_env "/foo/*[1-3].txt" = Some paths).
Proof.
  apply (star_takes_precedence test_env "/foo/*[1-3].txt"). reflexivity.
Defined.

(** X4. The paths of a range expansion are pairwise distinct. *)
Theorem range_expansion_distinct (env : Env) (pre suf : str) (N M : nat) (paths : list str) :
  forallb Utils.path_char pre = true ->
  forallb Utils.path_char suf = true ->
  N < M ->
  Utils.parse_file_paths env (range_spec pre (PyStr.of_nat N) (PyStr.of_nat M) suf) = Ok paths ->
  List.NoDup paths /\ 2 <= length paths.
Proof.
  intros Hpre Hsuf Hlt.
  rewrite ExpandFacts.expand_range;
    rewrite ?StrFacts.to_nat_of_nat;
    auto using StrFacts.of_nat_digits, StrFacts.of_nat_nonempty.
  intros [= <-]. split.
  - apply Finite.Injective_map_NoDup; [|apply seq_NoDup].
    intros a b Hab. apply app_inv_head, app_inv_tail in Hab.
    by rewrite <- (StrFacts.to_nat_of_nat a), Hab, StrFacts.to_nat_of_nat.
  - rewrite length_map, length_seq. lia.
Qed.

Lemma range_expansion_distinct_witness :
  List.NoDup [lit "/foo/bar-1.txt"; lit "/foo/bar-2.txt"; lit "/foo/bar-3.txt"]
  /\ 2 <= length [lit "/foo/bar-1.txt"; lit "/foo/bar-2.txt"; lit "/foo/bar-3.txt"].
Proof.
  apply (range_expansion_distinct test_env "/foo/bar-" ".txt" 1 3); try reflexivity. lia.
Defined.

(** ** More on the merge *)

Module MergeMore.
Import Utils.

Abbreviation keys d := (map fst d).

Lemma dict_get_absent {V} (k : str) (d : list (str * V)) :
  ~ In k (keys d) -> dict_get k d = None.
Proof.
  induction d as [|[k0 v0] d IH]; cbn; [done|]. intros H.
  destruct (PyStr.eqb k0 k) eqn:E.
  - apply str_eqb_eq in E. tauto.
  - apply IH. tauto.
Qed.

Lemma dict_has_in {V} (k : str) (d : list (str * V)) :
  dict_has k d = true <-> In k (keys d).
Proof.
  unfold dict_has. induction d as [|[k0 v0] d IH]; cbn; [split; [discriminate|tauto]|].
  destruct (PyStr.eqb k0 k) eqn:E.
  - apply str_eqb_eq in E. tauto.
  - apply str_eqb_neq in E. rewrite IH. tauto.
Qed.

Lemma keys_set {V} (k : str) (v : V) (d : list (str * V)) :
  keys (dict_set k v d) = if dict_has k d then keys d else keys d ++ [k].
Proof.
  unfold dict_has. induction d as [|[k0 v0] d IH]; cbn; [done|].
  destruct (PyStr.eqb k0 k) eqn:E; cbn; [done|].
  rewrite IH. by destruct (dict_get k d).
Qed.

Abbreviation step := merge_step.

Lemma keys_step (key : str) (val : yaml) (d : dict) :
  keys (step key val d) = if dict_has key d then keys d else keys d ++ [key].
Proof.
  unfold step. destruct (dict_get key d) eqn:E; rewrite keys_set; done.
Qed.

Lemma get_step (key k : str) (val : yaml) (d : dict) :
  dict_get k (step key val d)
  = if PyStr.eqb key k
    then Some (match dict_get key d with
               | Some old => merge_yaml_data old val
               | None => val
               end)
    else dict_get k d.
Proof.
  unfold step. destruct (dict_get key d); by rewrite dict_get_set.
Qed.

Lemma get_merge_items (k : str) (d2 : dict) :
  NoDup (keys d2) ->
  forall d1,
    dict_get k (merge_items d2 d1)
    = match dict_get k d1, dict_get k d2 with
      | Some a, Some b => Some (merge_yaml_data a b)
      | Some a, None => Some a
      | None, b => b
      end.
Proof.
  induction d2 as [|[key val] rest IH]; intros Hnd d1; cbn [merge_items dict_get].
  { by destruct (dict_get k d1). }
  cbn in Hnd. apply NoDup_cons in Hnd as [Hkey Hnd].
  change (match dict_get key d1 with
          | Some old => dict_set key (merge_yaml_data old val) d1
          | None => dict_set key val d1
          end) with (step key val d1).
  rewrite IH by done. rewrite get_step.
  destruct (PyStr.eqb key k) eqn:E.
  - apply str_eqb_eq in E as <-.
    rewrite (dict_get_absent key rest) by (by rewrite <- list_elem_of_In).
    by destruct (dict_get key d1).
  - done.
Qed.


Lemma keys_merge_items (d2 : dict) :
  NoDup (keys d2) ->
  forall d1,
    keys (merge_items d2 d1)
    = keys d1 ++ List.filter (fun k => negb (dict_has k d1)) (keys d2).
Proof.
  induction d2 as [|[key val] rest IH]; intros Hnd d1; cbn [merge_items map fst List.filter].
  { by rewrite app_nil_r. }
  cbn in Hnd. apply NoDup_cons in Hnd as [Hkey Hnd].
  change (match dict_get key d1 with
          | Some old => dict_set key (merge_yaml_data old val) d1
          | None => dict_set key val d1
          end) with (step key val d1).
  rewrite IH by done. rewrite keys_step.
  assert (Hf : List.filter (fun k => negb (dict_has k (step key val d1))) (keys rest)
               = List.filter (fun k => negb (dict_has k d1)) (keys rest)).
  { apply filter_ext_in. intros k Hk. f_equal. unfold dict_has. rewrite get_step.
    destruct (PyStr.eqb key k) eqn:E; [|done].
    apply str_eqb_eq in E as <-. by apply list_elem_of_In in Hk. }
  rewrite Hf. destruct (dict_has key d1); cbn [negb]; [done|].
  by rewrite <- app_assoc.
Qed.

End MergeMore.

(** X5. Merging two mappings works key by key: a key of both holds the
    merge of its two values, a key of one holds that one's value, and
    no other key appears. *)
Theorem merge_mapping_lookup (d1 d2 : dict) (k : str) :
  NoDup (map fst d2) ->
  exists d,
    Utils.merge_yaml_data (YDict d1) (YDict d2) = YDict d
    /\ dict_get k d
       = match dict_get k d1, dict_get k d2 with
         | Some a, Some b => Some (Utils.merge_yaml_data a b)
         | Some a, None => Some a
         | None, b => b
         end.
Proof.
  intros Hnd. eexists. split; [apply merge_dict_unfold|].
  by apply MergeMore.get_merge_items.
Qed.

Lemma merge_mapping_lookup_witness :
  exists d,
    Utils.merge_yaml_data
      (YDict [("a" : str, YList [YInt 1]); ("k" : str, YInt 1)])
      (YDict [("a" : str, YList [YInt 2]); ("b" : str, YStr "x")]) = YDict d
    /\ dict_get "a" d = Some (YList [YInt 1; YInt 2]).
Proof.
  apply (merge_mapping_lookup
           [("a" : str, YList [YInt 1]); ("k" : str, YInt 1)]
           [("a" : str, YList [YInt 2]); ("b" : str, YStr "x")] "a").
  cbn. apply NoDup_cons. split; [|apply NoDup_singleton].
  intros [= ]%list_elem_of_singleton.
Defined.

(** X6. The keys of a merged mapping are the keys of the first mapping in
    their order, followed by the new keys of the second in theirs; they
    are distinct when the keys of each argument are. *)
Theorem merge_mapping_keys (d1 d2 : dict) :
  NoDup (map fst d1) ->
  NoDup (map fst d2) ->
  exists d,
    Utils.merge_yaml_data (YDict d1) (YDict d2) = YDict d
    /\ map fst d
       = map fst d1 ++ List.filter (fun k => negb (dict_has k d1)) (map fst d2)
    /\ NoDup (map fst d).
Proof.
  intros H1 H2. eexists. split; [apply merge_dict_unfold|].
  rewrite MergeMore.keys_merge_items by done. split; [done|].
  apply NoDup_app. split; [done|]. split.
  - intros k Hk [Hin Hf]%list_elem_of_In%filter_In.
    apply list_elem_of_In, MergeMore.dict_has_in in Hk. by rewrite Hk in Hf.
  - apply NoDup_ListNoDup, List.NoDup_filter, NoDup_ListNoDup, H2.
Qed.

Lemma merge_mapping_keys_witness :
  exists d,
    Utils.merge_yaml_data
      (YDict [("a" : str, YList [YInt 1]); ("k" : str, YInt 1)])
      (YDict [("b" : str, YStr "x"); ("a" : str, YList [YInt 2])]) = YDict d
    /\ map fst d = [lit "a"; lit "k"; lit "b"]
    /\ NoDup (map fst d).
Proof.
  apply (merge_mapping_keys
           [("a" : str, YList [YInt 1]); ("k" : str, YInt 1)]
           [("b" : str, YStr "x"); ("a" : str, YList [YInt 2])]);
    cbn; (apply NoDup_cons; split; [|apply NoDup_singleton]);
    intros [= ]%list_elem_of_singleton.
Defined.

(** X7. The empty mapping is a neutral element of the merge of mappings, on
    either side. *)
Theorem merge_empty_mapping (d : dict) :
  NoDup (map fst d) ->
  Utils.merge_yaml_data (YDict d) (YDict []) = YDict d
  /\ Utils.merge_yaml_data (YDict []) (YDict d) = YDict d.
Proof.
  intros Hnd. split; [done|]. rewrite merge_dict_unfold. f_equal.
  assert (G : forall d2 acc,
             NoDup (map fst acc ++ map fst d2) ->
             Utils.merge_items d2 acc = acc ++ d2).
  { clear. induction d2 as [|[key val] rest IH]; intros acc Hnd; cbn [Utils.merge_items].
    { by rewrite app_nil_r. }
    cbn in Hnd. apply NoDup_app in Hnd as (Hacc & Hdis & Hd2).
    assert (Hnone : dict_get key acc = None).
    { apply MergeMore.dict_get_absent. intros Hin%list_elem_of_In.
      apply (Hdis key Hin). left. }
    rewrite Hnone.
    assert (Hset : dict_set key val acc = acc ++ [(key, val)]).
    { clear -Hnone. induction acc as [|[k0 v0] acc IHa]; cbn in *; [done|].
      destruct (PyStr.eqb k0 key); [discriminate|]. by rewrite IHa. }
    rewrite Hset, IH; [by rewrite <- app_assoc|].
    rewrite map_app. cbn. rewrite <- app_assoc. cbn.
    apply NoDup_app. split; [done|]. split; [|done].
    intros k Hk. by apply Hdis. }
  rewrite (G d []); [done|]. done.
Qed.

Lemma merge_empty_mapping_witness :
  Utils.merge_yaml_data (YDict [("a" : str, YInt 1); ("b" : str, YInt 2)]) (YDict [])
    = YDict [("a" : str, YInt 1); ("b" : str, YInt 2)]
  /\ Utils.merge_yaml_data (YDict []) (YDict [("a" : str, YInt 1); ("b" : str, YInt 2)])
    = YDict [("a" : str, YInt 1); ("b" : str, YInt 2)].
Proof.
  apply (merge_empty_mapping [("a" : str, YInt 1); ("b" : str, YInt 2)]).
  cbn. apply NoDup_cons. split; [|apply NoDup_singleton].
  intros [= ]%list_elem_of_singleton.
Defined.

(** X8. On a store whose objects denote documents, [merge_yaml_data]
    returns, with any fuel above a bound; its result denotes the merge
    of the two documents, and the arguments denote afterwards the
    documents they denoted before. *)
Theorem merge_on_store_total (n : nat) (h : Heap.heap) (d1 d2 : Heap.val) (t1 t2 : yaml) :
  Heap.reify n h d1 = Some t1 ->
  Heap.reify n h d2 = Some t2 ->
  exists fuel r h',
    (forall fuel', fuel <= fuel' -> Heap.merge_yaml_data fuel' d1 d2 h = Some (r, h'))
    /\ Heap.reify n h' r = Some (Utils.merge_yaml_data t1 t2)
    /\ Heap.reify n h' d1 = Some t1
    /\ Heap.reify n h' d2 = Some t2.
Proof.
  intros H1 H2.
  destruct (HeapRefine.merge_on_store_refines n h d1 d2 t1 t2 H1 H2)
    as (fuel & r & h' & Hm & Hr).
  exists fuel, r, h'. split; [|split; [done|]].
  - intros fuel' Hle. by eapply HeapRefine.merge_fuel_mono.
  - apply HeapFacts.merge_frame in Hm.
    split; by eapply HeapFacts.reify_prefix.
Qed.

Lemma merge_on_store_total_witness :
  exists fuel r h',
    (forall fuel', fuel <= fuel' ->
       Heap.merge_yaml_data fuel' (Heap.VRef 0) (Heap.VRef 2) c10_store = Some (r, h'))
    /\ Heap.reify 3 h' r
       = Some (Utils.merge_yaml_data
                 (YDict [("a" : str, YList [YInt 1]); ("k" : str, YInt 1)])
                 (YDict [("a" : str, YList [YInt 2]); ("b" : str, YStr "x")]))
    /\ Heap.reify 3 h' (Heap.VRef 0)
       = Some (YDict [("a" : str, YList [YInt 1]); ("k" : str, YInt 1)])
    /\ Heap.reify 3 h' (Heap.VRef 2)
       = Some (YDict [("a" : str, YList [YInt 2]); ("b" : str, YStr "x")]).
Proof.
  apply (merge_on_store_total 3 c10_store (Heap.VRef 0) (Heap.VRef 2)); reflexivity.
Defined.

(** ** More on parse *)

Module ParseMore.
Import Config.

Lemma merge_to_dict (d : dict) (v : yaml) :
  (exists d2, v = YDict d2) -> exists d', Utils.merge_yaml_data (YDict d) v = YDict d'.
Proof. intros [d2 ->]. rewrite merge_dict_unfold. eauto. Qed.

(** The loop over the includes: every include is parsed, and the result
    is the fold of the merge over the parsed documents. *)
Lemma merge_includes_inv (f : str -> result yaml) (incs : list str) :
  forall data doc,
    merge_includes f incs data = Ok doc ->
    exists docs,
      Forall2 (fun i v => f i = Ok v) incs docs
      /\ doc = fold_left Utils.merge_yaml_data docs data.
Proof.
  induction incs as [|i incs IH]; intros data doc; cbn [merge_includes].
  - intros [= <-]. exists []. by split; [constructor|].
  - destruct (f i) as [idata|] eqn:E; [|discriminate]. cbn [bind].
    intros (docs & HF & ->)%IH. exists (idata :: docs). split; [by constructor|done].
Qed.


(** What a successful [parse] went through. *)
Lemma parse_inv (depth : nat) (env : Env) (path : str) (doc : yaml) :
  parse depth env path = Ok doc ->
  exists depth' raw d,
    depth = S depth'
    /\ isfile env path = true
    /\ read_file env path = Some raw
    /\ safe_load env raw = Some (YDict d)
    /\ ((dict_get "include" d = None /\ doc = YDict d)
        \/ exists incs flat d',
             dict_get "include" d = Some (YList incs)
             /\ expand_all env (PosixPath.dirname path) incs = Ok flat
             /\ merge_includes (parse depth' env) flat (YDict d) = Ok (YDict d')
             /\ doc = YDict (dict_set "template_configuration_file"
                               (YStr (realpath env path)) d')).
Proof.
  destruct depth as [|depth]; [discriminate|]. rewrite ParseFacts.parse_unfold.
  destruct (isfile env path) eqn:Hfile; [|discriminate]. cbn [negb].
  destruct (read_file env path) as [raw|] eqn:Hraw; [|discriminate].
  cbn [Utils.of_option bind].
  destruct (safe_load env raw) as [data|] eqn:Hload; [|discriminate].
  cbn [Utils.of_option bind].
  destruct data as [| | | | |d]; try discriminate.
  intros H. exists depth, raw, d. repeat (split; [done|]).
  destruct (dict_get "include" d) as [[| | | |inc|]|]; try discriminate.
  - right. fold (expand_all env (PosixPath.dirname path) inc) in H.
    destruct (expand_all env _ inc) as [fl|] eqn:Hfl; [|discriminate].
    cbn [rethrow bind] in H.
    destruct (merge_includes _ fl _) as [data|] eqn:Hm; [|discriminate]. cbn [bind] in H.
    destruct data; try discriminate. cbn in H. injection H as <-.
    eexists _, _, _. by repeat split.
  - left. by injection H as <-.
Qed.

Lemma Forall2_In_l {A B} (R : A -> B -> Prop) (xs : list A) (ys : list B) (x : A) :
  Forall2 R xs ys -> In x xs -> exists y, In y ys /\ R x y.
Proof.
  induction 1 as [|x0 y0 xs ys H0 _ IH]; [done|].
  intros [<-|Hin].
  - exists y0. split; [by left|done].
  - destruct (IH Hin) as (y & Hy & HR). exists y. split; [by right|done].
Qed.

(** The fold of the merge over mappings, starting from a mapping, is a
    mapping with the keys of all of them. *)
Lemma fold_merge_keys (docs : list yaml) :
  Forall (fun v => exists d, v = YDict d) docs ->
  forall d0, exists d',
    fold_left Utils.merge_yaml_data docs (YDict d0) = YDict d'
    /\ (forall k, dict_has k d0 = true -> dict_has k d' = true)
    /\ (forall k v d, In v docs -> v = YDict d -> dict_has k d = true -> dict_has k d' = true).
Proof.
  induction 1 as [|v docs [d2 ->] _ IH]; intros d0; cbn [fold_left].
  - exists d0. repeat split; [done|]. by intros ? ? ? [].
  - rewrite merge_dict_unfold.
    destruct (IH (Utils.merge_items d2 d0)) as (d' & -> & H0 & H1).
    exists d'. split; [done|]. split.
    + intros k Hk. by apply H0, merge_items_has.
    + intros k v d [<-|Hin] Hv Hk.
      * injection Hv as <-. apply H0.
        clear -Hk. revert d0. induction d2 as [|[key val] rest IHd]; intros d0; [done|].
        cbn [Utils.merge_items]. unfold dict_has in Hk. cbn [dict_get] in Hk.
        destruct (PyStr.eqb key k) eqn:E.
        -- apply str_eqb_eq in E as ->. apply merge_items_has.
           unfold dict_has. destruct (dict_get k d0); by rewrite dict_get_set, str_eqb_refl.
        -- by apply IHd.
      * by eapply H1.
Qed.

Lemma parsed_are_dicts (depth : nat) (env : Env) (incs : list str) (docs : list yaml) :
  Forall2 (fun i v => parse depth env i = Ok v) incs docs ->
  Forall (fun v => exists d, v = YDict d) docs.
Proof.
  induction 1 as [|i v incs docs Hi _ IH]; constructor; [|done].
  by eapply ParseFacts.parse_ok_dict.
Qed.


End ParseMore.

(** X9. No key is lost by [parse]: what it returns is a mapping that has
    every key of the document at [path] and every key of each document
    it includes. *)
Theorem parse_keeps_keys (depth : nat) (env : Env) (path : str) (doc : yaml) :
  Config.parse (S depth) env path = Ok doc ->
  exists raw d d',
    read_file env path = Some raw
    /\ safe_load env raw = Some (YDict d)
    /\ doc = YDict d'
    /\ (forall k, dict_has k d = true -> dict_has k d' = true)
    /\ (forall incs flat i di k,
          dict_get "include" d = Some (YList incs) ->
          expand_all env (PosixPath.dirname path) incs = Ok flat ->
          In i flat ->
          Config.parse depth env i = Ok (YDict di) ->
          dict_has k di = true -> dict_has k d' = true).
Proof.
  intros (depth' & raw & d & [= <-] & _ & Hraw & Hload & Hcase)%ParseMore.parse_inv.
  destruct Hcase as [[Hinc ->]|(incs & flat & d' & Hinc & Hflat & Hm & ->)].
  - exists raw, d, d. repeat (split; [done|]).
    intros incs flat i di k Hinc'. by rewrite Hinc in Hinc'.
  - eexists raw, d, _. repeat (split; [done|]).
    apply ParseMore.merge_includes_inv in Hm as (docs & HF & Hfold).
    destruct (ParseMore.fold_merge_keys docs (ParseMore.parsed_are_dicts _ _ _ _ HF) d)
      as (d'' & Hd'' & H0 & H1).
    rewrite Hd'' in Hfold. injection Hfold as ->. split.
    + intros k Hk. by apply dict_has_set, H0.
    + intros incs' flat' i di k Hinc' Hflat' Hin Hi Hk.
      rewrite Hinc in Hinc'. injection Hinc' as <-.
      rewrite Hflat in Hflat'. injection Hflat' as <-.
      apply dict_has_set.
      destruct (ParseMore.Forall2_In_l _ _ _ _ HF Hin) as (v & Hv & Hpv).
      cbv beta in Hpv. rewrite Hi in Hpv. injection Hpv as <-.
      by eapply H1.
Qed.

Lemma parse_keeps_keys_witness :
  exists raw d d',
    read_file include_env root_yaml = Some raw
    /\ safe_load include_env raw = Some (YDict d)
    /\ YDict [("include" : str, YList [YStr "base.yaml"]); ("x" : str, YInt 1);
              ("y" : str, YInt 3);
              ("template_configuration_file" : str, YStr root_yaml)] = YDict d'
    /\ (forall k, dict_has k d = true -> dict_has k d' = true)
    /\ (forall incs flat i di k,
          dict_get "include" d = Some (YList incs) ->
          expand_all include_env (PosixPath.dirname root_yaml) incs = Ok flat ->
          In i flat ->
          Config.parse 1 include_env i = Ok (YDict di) ->
          dict_has k di = true -> dict_has k d' = true).
Proof.
  apply (parse_keeps_keys 1 include_env root_yaml). vm_compute. reflexivity.
Defined.

(** X10. A document with an [include] key is returned with the key
    [template_configuration_file] set to the real path of its file,
    whatever the document and its includes set that key to. *)
Theorem include_records_configuration_file
    (depth : nat) (env : Env) (path raw : str) (d : dict) (doc : yaml) :
  read_file env path = Some raw ->
  safe_load env raw = Some (YDict d) ->
  dict_has "include" d = true ->
  Config.parse depth env path = Ok doc ->
  getitem doc "template_configuration_file" = Ok (YStr (realpath env path)).
Proof.
  intros Hraw Hload Hinc
    (depth' & raw' & d' & _ & _ & Hraw' & Hload' & Hcase)%ParseMore.parse_inv.
  rewrite Hraw in Hraw'. injection Hraw' as <-.
  rewrite Hload in Hload'. injection Hload' as <-.
  destruct Hcase as [[Hnone _]|(incs & flat & d' & _ & _ & _ & ->)].
  - unfold dict_has in Hinc. by rewrite Hnone in Hinc.
  - cbn [getitem]. by rewrite dict_get_set, str_eqb_refl.
Qed.

Lemma include_records_configuration_file_witness :
  getitem
    (YDict [("include" : str, YList [YStr "base.yaml"]); ("x" : str, YInt 1);
            ("y" : str, YInt 3);
            ("template_configuration_file" : str, YStr root_yaml)])
    "template_configuration_file"
  = Ok (YStr (realpath include_env root_yaml)).
Proof.
  apply (include_records_configuration_file 2 include_env root_yaml root_text root_doc);
    vm_compute; reflexivity.
Defined.

(** X11. A configuration file that includes itself is never parsed: whatever
    the recursion limit, [parse] does not return. *)
Theorem self_include_never_returns
    (env : Env) (path raw : str) (d : dict) (incs : list yaml) (flat : list str)
    (depth : nat) :
  read_file env path = Some raw ->
  safe_load env raw = Some (YDict d) ->
  dict_get "include" d = Some (YList incs) ->
  expand_all env (PosixPath.dirname path) incs = Ok flat ->
  In path flat ->
  exists e, Config.parse depth env path = Err e.
Proof.
  intros Hraw Hload Hinc Hflat Hin.
  induction depth as [|depth [e IH]]; [by eexists|].
  destruct (Config.parse (S depth) env path) as [doc|e'] eqn:E; [|by eexists].
  apply ParseMore.parse_inv
    in E as (depth' & raw' & d' & [= <-] & _ & Hraw' & Hload' & Hcase).
  rewrite Hraw in Hraw'. injection Hraw' as <-.
  rewrite Hload in Hload'. injection Hload' as <-.
  destruct Hcase as [[Hnone _]|(incs' & flat' & d' & Hinc' & Hflat' & Hm & _)].
  - by rewrite Hinc in Hnone.
  - rewrite Hinc in Hinc'. injection Hinc' as <-.
    rewrite Hflat in Hflat'. injection Hflat' as <-.
    apply ParseMore.merge_includes_inv in Hm as (docs & HF & _).
    destruct (ParseMore.Forall2_In_l _ _ _ _ HF Hin) as (v & _ & Hv).
    cbv beta in Hv. by rewrite IH in Hv.
Qed.

Lemma self_include_never_returns_witness :
  exists e, Config.parse Config.recursion_limit loop_env loop_yaml = Err e.
Proof.
  apply (self_include_never_returns loop_env loop_yaml loop_text loop_doc
           [YStr "loop.yaml"] [loop_yaml] Config.recursion_limit);
    try (vm_compute; reflexivity).
  by left.
Defined.





(** X14. After [parse] of a file that has an [include] key, [get_lib_paths]
    finds the key [template_configuration_file]: it returns the
    library paths, resolved against the directory of the real path of
    the file, or raises the exception of its own [try], never a
    [KeyError]. *)
Theorem lib_paths_after_include
    (depth : nat) (env : Env) (path raw : str) (d : dict) (doc : yaml) :
  read_file env path = Some raw ->
  safe_load env raw = Some (YDict d) ->
  dict_has "include" d = true ->
  Config.parse depth env path = Ok doc ->
  Config.get_lib_paths env doc
  = (if contains_key "lib" doc
     then rethrow LibPathsError
            (do lib <- getitem doc "lib";
             do ps <- iter_values lib;
             expand_all env (PosixPath.dirname (realpath env path)) ps)
     else Ok [])
  /\ ((exists paths, Config.get_lib_paths env doc = Ok paths)
      \/ (exists cause, Config.get_lib_paths env doc = Err (LibPathsError cause))).
Proof.
  intros Hraw Hload Hinc
    (depth' & raw' & d' & _ & _ & Hraw' & Hload' & Hcase)%ParseMore.parse_inv.
  rewrite Hraw in Hraw'. injection Hraw' as <-.
  rewrite Hload in Hload'. injection Hload' as <-.
  destruct Hcase as [[Hnone _]|(incs & flat & d' & _ & _ & _ & ->)].
  { unfold dict_has in Hinc. by rewrite Hnone in Hinc. }
  assert (Heq : Config.get_lib_paths env
                  (YDict (dict_set "template_configuration_file"
                            (YStr (realpath env path)) d'))
                = (if contains_key "lib"
                        (YDict (dict_set "template_configuration_file"
                                  (YStr (realpath env path)) d'))
                   then rethrow LibPathsError
                          (do lib <- getitem
                                       (YDict (dict_set "template_configuration_file"
                                                 (YStr (realpath env path)) d')) "lib";
                           do ps <- iter_values lib;
                           expand_all env (PosixPath.dirname (realpath env path)) ps)
                   else Ok [])).
  { unfold Config.get_lib_paths. destruct (contains_key "lib" _); cbn [negb]; [|done].
    cbn [getitem]. by rewrite dict_get_set, str_eqb_refl. }
  split; [exact Heq|]. rewrite Heq.
  destruct (contains_key "lib" _); [|left; eauto].
  destruct (do lib <- _; _) as [paths|cause]; cbn [rethrow]; [left|right]; eauto.
Qed.

Lemma lib_paths_after_include_witness :
  Config.get_lib_paths site_env
    (YDict [("include" : str, YList [YStr "base.yaml"]);
            ("lib" : str, YList [YStr "lib/*.py"]); ("x" : str, YInt 1);
            ("template_configuration_file" : str, YStr site_yaml)])
  = (if contains_key "lib"
          (YDict [("include" : str, YList [YStr "base.yaml"]);
                  ("lib" : str, YList [YStr "lib/*.py"]); ("x" : str, YInt 1);
                  ("template_configuration_file" : str, YStr site_yaml)])
     then rethrow LibPathsError
            (do lib <- getitem
                         (YDict [("include" : str, YList [YStr "base.yaml"]);
                                 ("lib" : str, YList [YStr "lib/*.py"]); ("x" : str, YInt 1);
                                 ("template_configuration_file" : str, YStr site_yaml)])
                         "lib";
             do ps <- iter_values lib;
             expand_all site_env (PosixPath.dirname (realpath site_env site_yaml)) ps)
     else Ok [])
  /\ ((exists paths,
         Config.get_lib_paths site_env
           (YDict [("include" : str, YList [YStr "base.yaml"]);
                   ("lib" : str, YList [YStr "lib/*.py"]); ("x" : str, YInt 1);
                   ("template_configuration_file" : str, YStr site_yaml)]) = Ok paths)
      \/ (exists cause,
            Config.get_lib_paths site_env
              (YDict [("include" : str, YList [YStr "base.yaml"]);
                      ("lib" : str, YList [YStr "lib/*.py"]); ("x" : str, YInt 1);
                      ("template_configuration_file" : str, YStr site_yaml)])
            = Err (LibPathsError cause))).
Proof.
  apply (lib_paths_after_include 2 site_env site_yaml site_text site_doc);
    vm_compute; reflexivity.
Defined.

(** ** More on compute_mapping *)

Module MappingMore.
Import Config.

Lemma traverse_inv {A B} (f : A -> result B) (xs : list A) :
  forall ys, traverse f xs = Ok ys -> Forall2 (fun x y => f x = Ok y) xs ys.
Proof.
  induction xs as [|x xs IH]; intros ys; cbn [traverse].
  - intros [= <-]. constructor.
  - destruct (f x) as [y|] eqn:E; [|discriminate]. cbn [bind].
    destruct (traverse f xs) as [ys'|]; [|discriminate]. cbn [bind].
    intros [= <-]. constructor; [done|]. by apply IH.
Qed.

Lemma Forall2_In_r {A B} (R : A -> B -> Prop) (xs : list A) (ys : list B) (y : B) :
  Forall2 R xs ys -> In y ys -> exists x, In x xs /\ R x y.
Proof.
  induction 1 as [|x0 y0 xs ys H0 _ IH]; [done|].
  intros [<-|Hin].
  - exists x0. split; [by left|done].
  - destruct (IH Hin) as (x & Hx & HR). exists x. split; [by right|done].
Qed.

Lemma combine_Forall2 {A B} (R : A -> B -> Prop) (xs : list A) (ys : list B) :
  Forall2 R xs ys -> forall x y, In (x, y) (combine xs ys) -> R x y.
Proof.
  induction 1 as [|x0 y0 xs ys H0 _ IH]; intros x y; cbn [combine]; [done|].
  intros [[= <- <-]|Hin]; [done|]. by apply IH.
Qed.

Lemma check_exist_inv (env : Env) (wrap : str -> error) (ps : list str) :
  check_exist env wrap ps = Ok tt -> forall p, In p ps -> path_exists env p = true.
Proof.
  induction ps as [|p0 ps IH]; cbn [check_exist]; [done|].
  destruct (path_exists env p0) eqn:E; [|discriminate].
  intros H p [<-|Hin]; [done|]. by apply IH.
Qed.

Lemma get_path_of_inv (env : Env) (v : yaml) (base p : str) :
  Utils.get_path_of env v base = Ok p -> exists s, v = YStr s.
Proof. destruct v; try discriminate. eauto. Qed.

(** The paths of a specification without [src], as
    [zip(spec_full_dsts, spec_full_srcs, spec_full_wrks, spec_rel_dsts,
    spec_rel_srcs)] yields them. *)
Lemma zip_dst (env : Env) (out wrk : str) (srcs rels : list str) :
  Forall2 (fun p r => relpath env p (TEMPLATE_DIR env) = Ok r) srcs rels ->
  forall full_dst full_src full_wrk rel_dst rel_src,
    In (full_dst, (full_src, (full_wrk, (rel_dst, rel_src))))
       (combine (map (PosixPath.join out) rels)
          (combine srcs (combine (map (PosixPath.join wrk) rels) (combine rels rels)))) ->
    In full_src srcs
    /\ relpath env full_src (TEMPLATE_DIR env) = Ok rel_src
    /\ rel_dst = rel_src
    /\ full_dst = PosixPath.join out rel_dst
    /\ full_wrk = PosixPath.join wrk rel_dst.
Proof.
  induction 1 as [|p r srcs rels Hpr _ IH]; intros fd fs fw rd rs; cbn [map combine]; [done|].
  intros [[= <- <- <- <- <-]|Hin].
  - repeat split; [by left|done].
  - destruct (IH _ _ _ _ _ Hin) as (H1 & H2 & H3 & H4 & H5).
    repeat split; [by right|done..].
Qed.

Lemma traverse_length {A B} (f : A -> result B) (xs : list A) (ys : list B) :
  traverse f xs = Ok ys -> length ys = length xs.
Proof. intros H%traverse_inv. symmetry. by eapply Forall2_length. Qed.

(** One round of the loop of [compute_mapping]: a specification yields
    at least one mapping, and each mapping records what [mapped_from]
    says. *)
Lemma map_spec_inv (env : Env) (out wrk : str) (spec : yaml) (vars vars' : locals)
    (ms : list path_mapping) :
  map_spec env out wrk spec vars = Ok (vars', ms) ->
  ms <> []
  /\ Forall (mapped_from env out wrk spec) ms
  /\ (contains_key "symlink" spec = true -> length ms = 1).
Proof.
  unfold map_spec.
  destruct (getitem spec "dst") as [spec_dst|] eqn:Hdst; [|discriminate]. cbn [bind].
  destruct (contains_key "src" spec) eqn:Hsrc.
  - unfold map_src.
    destruct (rethrow SrcMappingError _) as [srcs|]; [|discriminate]. cbn [bind].
    destruct srcs as [|p0 srcs']; [discriminate|]. cbn [PosixPath.is_nil].
    set (srcs := p0 :: srcs').
    destruct (traverse _ srcs) as [rels|] eqn:Hrels; [|discriminate]. cbn [bind].
    destruct (check_exist env SrcNotExisting srcs) as [[]|] eqn:Hex; [|discriminate].
    cbn [bind].
    destruct (Utils.get_path_of env spec_dst out) as [pd|] eqn:Hpd; [|discriminate].
    cbn [bind].
    destruct (rethrow DstMappingError _) as [dsts|]; [|discriminate]. cbn [bind].
    destruct dsts as [|fdst [|? ?]]; try discriminate.
    destruct (relpath env fdst out) as [rdst|] eqn:Hrd; [|discriminate]. cbn [bind].
    match goal with |- (do vars <- ?v; _) = _ -> _ =>
      destruct v as [vars1|] eqn:Hvars end; [|discriminate]. cbn [bind].
    destruct (traverse _ (combine srcs rels)) as [ms'|] eqn:Hms; [|discriminate].
    cbn [bind]. intros [= _ <-].
    pose proof (traverse_length _ _ _ Hms) as Hlen1.
    pose proof (traverse_length _ _ _ Hrels) as Hlen2.
    split; [|split].
    + destruct ms', rels; cbn in *; discriminate.
    + apply Stdlib.Lists.List.Forall_forall. intros m Hm.
      apply traverse_inv in Hms. apply traverse_inv in Hrels.
      destruct (Forall2_In_r _ _ _ _ Hms Hm) as ([fsrc rsrc] & Hin & Hb).
      pose proof (combine_Forall2 _ _ _ Hrels _ _ Hin) as Hrel.
      pose proof (check_exist_inv _ _ _ Hex _ (in_combine_l _ _ _ _ Hin)) as Hexists.
      cbv beta iota in Hb.
      destruct (get_default "chmod" spec _) as [c1|] eqn:E1; [|discriminate].
      destruct (get_default "chown" spec _) as [c2|] eqn:E2; [|discriminate].
      cbn [bind] in Hb.
      destruct (load_name (spec_full_lnk vars1)) as [fl|] eqn:Hfl; [|discriminate].
      destruct (load_name (spec_rel_lnk vars1)) as [rl|] eqn:Hrl; [|discriminate].
      cbn [bind] in Hb.
      destruct (get_default "translate" spec _) as [c3|] eqn:E3; [|discriminate].
      cbn [bind] in Hb. injection Hb as <-.
      unfold mapped_from.
      cbn [Config.dst_key Config.chmod Config.chown Config.translate Config.full_src
           Config.rel_src Config.full_wrk Config.rel_dst Config.full_dst Config.full_lnk
           Config.rel_lnk].
      rewrite Hsrc. repeat (split; [try done; by eapply get_path_of_inv|]).
      destruct (contains_key "symlink" spec); [done|].
      injection Hvars as <-. cbn in Hfl, Hrl. by injection Hfl as <-; injection Hrl as <-.
    + intros Hsym. rewrite Hsym in Hvars.
      destruct srcs' as [|? ?]; [|discriminate].
      destruct rels as [|? [|? ?]]; try discriminate.
      destruct ms' as [|? [|? ?]]; try discriminate. done.
  - unfold map_dst.
    destruct (Utils.get_path_of env spec_dst "") as [pd|] eqn:Hpd; [|discriminate].
    cbn [bind].
    destruct (rethrow SrcMappingError _) as [srcs|]; [|discriminate]. cbn [bind].
    destruct srcs as [|p0 srcs']; [discriminate|]. cbn [PosixPath.is_nil].
    set (srcs := p0 :: srcs').
    destruct (traverse _ srcs) as [rels|] eqn:Hrels; [|discriminate]. cbn [bind].
    destruct (check_exist env SrcNotExisting srcs) as [[]|] eqn:Hex; [|discriminate].
    cbn [bind].
    match goal with |- (do vars <- ?v; _) = _ -> _ =>
      destruct v as [vars1|] eqn:Hvars end; [|discriminate]. cbn [bind].
    match goal with |- (do ms <- traverse ?f ?l; _) = _ -> _ =>
      destruct (traverse f l) as [ms'|] eqn:Hms end; [|discriminate].
    cbn [bind]. intros [= _ <-].
    pose proof (traverse_length _ _ _ Hms) as Hlen1.
    pose proof (traverse_length _ _ _ Hrels) as Hlen2.
    split; [|split].
    + destruct ms', rels; cbn in *; discriminate.
    + apply Stdlib.Lists.List.Forall_forall. intros m Hm.
      apply traverse_inv in Hms. apply traverse_inv in Hrels.
      destruct (Forall2_In_r _ _ _ _ Hms Hm)
        as ([fd [fs [fw [rd rs]]]] & Hin & Hb).
      destruct (zip_dst env out wrk _ _ Hrels _ _ _ _ _ Hin) as (H1 & H2 & H3 & H4 & H5).
      pose proof (check_exist_inv _ _ _ Hex _ H1) as Hexists.
      cbv beta iota in Hb.
      destruct (get_default "chmod" spec _) as [c1|] eqn:E1; [|discriminate].
      destruct (get_default "chown" spec _) as [c2|] eqn:E2; [|discriminate].
      cbn [bind] in Hb.
      destruct (load_name (spec_full_lnk vars1)) as [fl|] eqn:Hfl; [|discriminate].
      destruct (load_name (spec_rel_lnk vars1)) as [rl|] eqn:Hrl; [|discriminate].
      cbn [bind] in Hb.
      destruct (get_default "translate" spec _) as [c3|] eqn:E3; [|discriminate].
      cbn [bind] in Hb. injection Hb as <-.
      unfold mapped_from.
      cbn [Config.dst_key Config.chmod Config.chown Config.translate Config.full_src
           Config.rel_src Config.full_wrk Config.rel_dst Config.full_dst Config.full_lnk
           Config.rel_lnk].
      rewrite Hsrc. repeat (split; [try done; by eapply get_path_of_inv|]).
      destruct (contains_key "symlink" spec).
      * intros _. destruct (Nat.ltb 1 (length srcs)); [discriminate|].
        destruct (getitem spec "symlink") as [symlink|]; [|discriminate].
        cbn [bind] in Hvars.
        destruct symlink as [| | |l| |]; try discriminate. cbn [Utils.get_path_of bind] in Hvars.
        destruct (relpath env _ out) as [rel|] eqn:Hrel; [|discriminate].
        cbn [bind] in Hvars. injection Hvars as <-. cbn in Hfl, Hrl.
        injection Hfl as <-; injection Hrl as <-. by exists l.
      * injection Hvars as <-. cbn in Hfl, Hrl. by injection Hfl as <-; injection Hrl as <-.
    + intros Hsym. rewrite Hsym in Hvars.
      destruct srcs' as [|? ?]; [|discriminate].
      destruct rels as [|? [|? ?]]; try discriminate.
      destruct ms' as [|? [|? ?]]; try discriminate. done.
Qed.

(** The loop: the mappings are those built so far followed by one
    non-empty group for each specification, in the order of the
    specifications. *)
Lemma map_specs_inv (env : Env) (out wrk : str) (specs : list yaml) :
  forall vars acc ms,
    map_specs env out wrk specs vars acc = Ok ms ->
    exists groups,
      ms = acc ++ concat groups
      /\ Forall2 (fun spec g => g <> [] /\ Forall (mapped_from env out wrk spec) g
                                /\ (contains_key "symlink" spec = true -> length g = 1))
           specs groups.
Proof.
  induction specs as [|spec specs IH]; intros vars acc ms; cbn [map_specs].
  - intros [= <-]. exists []. split; [by rewrite app_nil_r|constructor].
  - destruct (map_spec env out wrk spec vars) as [[vars' g]|] eqn:E; [|discriminate].
    cbn [bind fst snd]. intros (groups & -> & HF)%IH.
    exists (g :: groups). split; [by rewrite <- app_assoc|].
    constructor; [|done]. by eapply map_spec_inv.
Qed.

Lemma compute_mapping_inv (env : Env) (out wrk : str) (conf : yaml) (ms : list path_mapping) :
  compute_mapping env out wrk conf = Ok ms ->
  exists specs groups,
    (do files <- getitem conf "files"; iter_values files) = Ok specs
    /\ ms = concat groups
    /\ Forall2 (fun spec g => g <> [] /\ Forall (mapped_from env out wrk spec) g
                              /\ (contains_key "symlink" spec = true -> length g = 1))
         specs groups.
Proof.
  unfold compute_mapping.
  destruct (getitem conf "files") as [files|]; [|discriminate]. cbn [bind].
  destruct (iter_values files) as [specs|]; [|discriminate]. cbn [bind].
  intros (groups & -> & HF)%map_specs_inv. by exists specs, groups.
Qed.

Lemma compute_mapping_all (env : Env) (out wrk : str) (conf : yaml) (ms : list path_mapping) :
  compute_mapping env out wrk conf = Ok ms ->
  exists specs,
    (do files <- getitem conf "files"; iter_values files) = Ok specs
    /\ Forall (fun m => exists spec, In spec specs /\ mapped_from env out wrk spec m) ms.
Proof.
  intros (specs & groups & Hspecs & -> & HF)%compute_mapping_inv.
  exists specs. split; [done|]. clear Hspecs.
  induction HF as [|spec g specs groups (_ & Hg & _) _ IH]; cbn [concat]; [constructor|].
  apply Forall_app. split.
  - eapply Forall_impl; [exact Hg|]. intros m Hm. exists spec. split; [by left|done].
  - eapply Forall_impl; [exact IH|]. intros m (spec' & Hin & Hm).
    exists spec'. split; [by right|done].
Qed.

(** A specification that fails makes [compute_mapping] fail. *)
Lemma compute_mapping_fails env out wrk (conf : dict) (pre post : list yaml) (spec : yaml) :
  dict_get "files" conf = Some (YList (pre ++ spec :: post)) ->
  (forall vars, exists e, map_spec env out wrk spec vars = Err e) ->
  exists e, compute_mapping env out wrk (YDict conf) = Err e.
Proof.
  intros Hfiles Hspec. unfold compute_mapping. cbn [getitem]. rewrite Hfiles.
  cbn [bind iter_values]. by apply MappingFacts.map_specs_fails.
Qed.

End MappingMore.

(** X15. [compute_mapping] yields, for each file specification in turn, a
    non-empty group of mappings; each mapping of the group carries the
    [dst] of the specification, which is a string, and its [chmod],
    [chown] and [translate] or their defaults. *)
Theorem mappings_grouped_by_spec
    (env : Env) (output_dir working_dir : str) (conf : yaml)
    (ms : list Config.path_mapping) :
  Config.compute_mapping env output_dir working_dir conf = Ok ms ->
  exists specs groups,
    (do files <- getitem conf "files"; iter_values files) = Ok specs
    /\ ms = concat groups
    /\ Forall2
         (fun spec g =>
            g <> []
            /\ Forall
                 (fun m =>
                    getitem spec "dst" = Ok (Config.dst_key m)
                    /\ (exists s, Config.dst_key m = YStr s)
                    /\ Config.get_default "chmod" spec (YStr "") = Ok (Config.chmod m)
                    /\ Config.get_default "chown" spec (YStr "") = Ok (Config.chown m)
                    /\ Config.get_default "translate" spec (YBool true)
                       = Ok (Config.translate m)) g)
         specs groups.
Proof.
  intros (specs & groups & Hspecs & -> & HF)%MappingMore.compute_mapping_inv.
  exists specs, groups. repeat (split; [done|]).
  eapply Forall2_impl; [exact HF|]. intros spec g (Hne & Hg & _). split; [done|].
  eapply Forall_impl; [exact Hg|]. intros m Hm. unfold mapped_from in Hm. tauto.
Qed.

Lemma mappings_grouped_by_spec_witness :
  exists ms,
    Config.compute_mapping test_env "/tmp/dst" "/tmp/wrk"
      (files_conf [YDict [("dst" : str, YStr "foo[1-2].txt")];
                   YDict [("dst" : str, YStr "bar.txt"); ("chmod" : str, YStr "0600")]])
    = Ok ms
    /\ exists specs groups,
        (do files <- getitem
                       (files_conf
                          [YDict [("dst" : str, YStr "foo[1-2].txt")];
                           YDict [("dst" : str, YStr "bar.txt");
                                  ("chmod" : str, YStr "0600")]]) "files";
         iter_values files) = Ok specs
        /\ ms = concat groups
        /\ Forall2
             (fun spec g =>
                g <> []
                /\ Forall
                     (fun m =>
                        getitem spec "dst" = Ok (Config.dst_key m)
                        /\ (exists s, Config.dst_key m = YStr s)
                        /\ Config.get_default "chmod" spec (YStr "") = Ok (Config.chmod m)
                        /\ Config.get_default "chown" spec (YStr "") = Ok (Config.chown m)
                        /\ Config.get_default "translate" spec (YBool true)
                           = Ok (Config.translate m)) g)
             specs groups.
Proof.
  eexists. split; [vm_compute; reflexivity|].
  apply (mappings_grouped_by_spec test_env "/tmp/dst" "/tmp/wrk").
  vm_compute. reflexivity.
Defined.

(** X16. Every mapping that [compute_mapping] returns has a source that
    exists, and its [rel_src] is that source relative to the template
    directory. *)
Theorem mapped_sources_exist
    (env : Env) (output_dir working_dir : str) (conf : yaml)
    (ms : list Config.path_mapping) :
  Config.compute_mapping env output_dir working_dir conf = Ok ms ->
  Forall
    (fun m =>
       path_exists env (Config.full_src m) = true
       /\ Config.relpath env (Config.full_src m) (TEMPLATE_DIR env)
          = Ok (Config.rel_src m)) ms.
Proof.
  intros (specs & _ & H)%MappingMore.compute_mapping_all.
  eapply Forall_impl; [exact H|]. intros m (spec & _ & Hm).
  unfold mapped_from in Hm. tauto.
Qed.

Lemma mapped_sources_exist_witness :
  exists ms,
    Config.compute_mapping test_env "/tmp/dst" "/tmp/wrk"
      (files_conf [YDict [("dst" : str, YStr "foo[1-2].txt")];
                   YDict [("dst" : str, YStr "bar.txt"); ("src" : str, YStr "baz.txt")]])
    = Ok ms
    /\ Forall
         (fun m =>
            path_exists test_env (Config.full_src m) = true
            /\ Config.relpath test_env (Config.full_src m) (TEMPLATE_DIR test_env)
               = Ok (Config.rel_src m)) ms.
Proof.
  eexists. split; [vm_compute; reflexivity|].
  apply (mapped_sources_exist test_env "/tmp/dst" "/tmp/wrk"
           (files_conf [YDict [("dst" : str, YStr "foo[1-2].txt")];
                        YDict [("dst" : str, YStr "bar.txt"); ("src" : str, YStr "baz.txt")]])).
  vm_compute. reflexivity.
Defined.

(** X17. In every mapping the path in the working directory mirrors the
    destination: [full_wrk] is [rel_dst] under the working directory;
    [rel_dst] is [full_dst] relative to the output directory for a
    specification with [src], and without [src] it is [rel_src], with
    [full_dst] the same path under the output directory. *)
Theorem working_copy_mirrors_destination
    (env : Env) (output_dir working_dir : str) (conf : yaml)
    (ms : list Config.path_mapping) :
  Config.compute_mapping env output_dir working_dir conf = Ok ms ->
  exists specs,
    (do files <- getitem conf "files"; iter_values files) = Ok specs
    /\ Forall
         (fun m =>
            exists spec,
              In spec specs
              /\ getitem spec "dst" = Ok (Config.dst_key m)
              /\ Config.full_wrk m = PosixPath.join working_dir (Config.rel_dst m)
              /\ (if contains_key "src" spec
                  then Config.relpath env (Config.full_dst m) output_dir
                       = Ok (Config.rel_dst m)
                  else Config.rel_dst m = Config.rel_src m
                       /\ Config.full_dst m
                          = PosixPath.join output_dir (Config.rel_dst m))) ms.
Proof.
  intros (specs & Hspecs & H)%MappingMore.compute_mapping_all.
  exists specs. split; [done|].
  eapply Forall_impl; [exact H|]. intros m (spec & Hin & Hm).
  exists spec. unfold mapped_from in Hm. tauto.
Qed.

Lemma working_copy_mirrors_destination_witness :
  exists ms,
    Config.compute_mapping test_env "/tmp/dst" "/tmp/wrk"
      (files_conf [YDict [("dst" : str, YStr "foo[1-2].txt")];
                   YDict [("dst" : str, YStr "bar.txt"); ("src" : str, YStr "baz.txt")]])
    = Ok ms
    /\ exists specs,
        (do files <- getitem
                       (files_conf
                          [YDict [("dst" : str, YStr "foo[1-2].txt")];
                           YDict [("dst" : str, YStr "bar.txt");
                                  ("src" : str, YStr "baz.txt")]]) "files";
         iter_values files) = Ok specs
        /\ Forall
             (fun m =>
                exists spec,
                  In spec specs
                  /\ getitem spec "dst" = Ok (Config.dst_key m)
                  /\ Config.full_wrk m = PosixPath.join "/tmp/wrk" (Config.rel_dst m)
                  /\ (if contains_key "src" spec
                      then Config.relpath test_env (Config.full_dst m) "/tmp/dst"
                           = Ok (Config.rel_dst m)
                      else Config.rel_dst m = Config.rel_src m
                           /\ Config.full_dst m
                              = PosixPath.join "/tmp/dst" (Config.rel_dst m))) ms.
Proof.
  eexists. split; [vm_compute; reflexivity|].
  apply (working_copy_mirrors_destination test_env "/tmp/dst" "/tmp/wrk").
  vm_compute. reflexivity.
Defined.

(** X18. Links in the mappings.  A specification with [symlink] yields
    exactly one mapping; without [src], its [full_lnk] is the [symlink]
    resolved against the output directory and its [rel_lnk] that path
    relative to the output directory.  A specification without
    [symlink] yields mappings whose [full_lnk] and [rel_lnk] are
    empty. *)
Theorem mapping_links
    (env : Env) (output_dir working_dir : str) (conf : yaml)
    (ms : list Config.path_mapping) :
  Config.compute_mapping env output_dir working_dir conf = Ok ms ->
  exists specs groups,
    (do files <- getitem conf "files"; iter_values files) = Ok specs
    /\ ms = concat groups
    /\ Forall2
         (fun spec g =>
            if contains_key "symlink" spec
            then length g = 1
                 /\ (contains_key "src" spec = false ->
                     Forall
                       (fun m =>
                          exists l,
                            getitem spec "symlink" = Ok (YStr l)
                            /\ Config.full_lnk m = Utils.get_path env l output_dir
                            /\ Config.relpath env (Config.full_lnk m) output_dir
                               = Ok (Config.rel_lnk m)) g)
            else Forall (fun m => Config.full_lnk m = lit "" /\ Config.rel_lnk m = lit "") g)
         specs groups.
Proof.
  intros (specs & groups & Hspecs & -> & HF)%MappingMore.compute_mapping_inv.
  exists specs, groups. repeat (split; [done|]).
  eapply Forall2_impl; [exact HF|]. intros spec g (Hne & Hg & Hlen).
  destruct (contains_key "symlink" spec) eqn:Hsym.
  - split; [by apply Hlen|]. intros Hsrc.
    eapply Forall_impl; [exact Hg|]. intros m Hm. unfold mapped_from in Hm.
    rewrite Hsym in Hm. apply Hm, Hsrc.
  - eapply Forall_impl; [exact Hg|]. intros m Hm. unfold mapped_from in Hm.
    rewrite Hsym in Hm. tauto.
Qed.

Lemma mapping_links_witness :
  exists ms,
    Config.compute_mapping test_env "/tmp/dst" "/tmp/wrk"
      (files_conf [YDict [("dst" : str, YStr "foo[1-2].txt")];
                   YDict [("dst" : str, YStr "bar.txt");
                          ("symlink" : str, YStr "links/bar")]])
    = Ok ms
    /\ exists specs groups,
        (do files <- getitem
                       (files_conf
                          [YDict [("dst" : str, YStr "foo[1-2].txt")];
                           YDict [("dst" : str, YStr "bar.txt");
                                  ("symlink" : str, YStr "links/bar")]]) "files";
         iter_values files) = Ok specs
        /\ ms = concat groups
        /\ Forall2
             (fun spec g =>
                if contains_key "symlink" spec
                then length g = 1
                     /\ (contains_key "src" spec = false ->
                         Forall
                           (fun m =>
                              exists l,
                                getitem spec "symlink" = Ok (YStr l)
                                /\ Config.full_lnk m = Utils.get_path test_env l "/tmp/dst"
                                /\ Config.relpath test_env (Config.full_lnk m) "/tmp/dst"
                                   = Ok (Config.rel_lnk m)) g)
                else Forall
                       (fun m => Config.full_lnk m = lit "" /\ Config.rel_lnk m = lit "") g)
             specs groups.
Proof.
  eexists. split; [vm_compute; reflexivity|].
  apply (mapping_links test_env "/tmp/dst" "/tmp/wrk").
  vm_compute. reflexivity.
Defined.

(** X19. A file specification with [src] whose [dst] expands to more than
    one path makes [compute_mapping] fail. *)
Theorem src_with_expanding_dst_fails
    (env : Env) (output_dir working_dir : str) (conf d : dict)
    (pre post : list yaml) (t : str) (dsts : list str) :
  dict_get "files" conf = Some (YList (pre ++ YDict d :: post)) ->
  dict_has "src" d = true ->
  dict_get "dst" d = Some (YStr t) ->
  Utils.parse_file_paths env (Utils.get_path env t output_dir) = Ok dsts ->
  1 < length dsts ->
  exists e, Config.compute_mapping env output_dir working_dir (YDict conf) = Err e.
Proof.
  intros Hfiles Hsrc Hdst Hexp Hlen.
  eapply MappingMore.compute_mapping_fails; [exact Hfiles|].
  intros vars. unfold Config.map_spec. cbn [getitem contains_key]. rewrite Hdst, Hsrc.
  cbn [bind]. unfold Config.map_src.
  destruct (rethrow SrcMappingError _) as [srcs|]; cbn [bind]; [|eauto].
  destruct (PosixPath.is_nil srcs); [eauto|].
  destruct (Config.traverse _ srcs) as [rels|]; cbn [bind]; [|eauto].
  destruct (Config.check_exist env SrcNotExisting srcs) as [[]|]; cbn [bind]; [|eauto].
  cbn [Utils.get_path_of bind]. rewrite Hexp. cbn [rethrow bind].
  destruct dsts as [|q [|q' dsts]]; cbn in Hlen; try lia. eauto.
Qed.

Lemma src_with_expanding_dst_fails_witness :
  exists e,
    Config.compute_mapping test_env "/tmp/dst" "/tmp/wrk"
      (YDict [("files" : str,
               YList [YDict [("dst" : str, YStr "foo[1-2].txt");
                             ("src" : str, YStr "foo.template")]])]) = Err e.
Proof.
  apply (src_with_expanding_dst_fails test_env "/tmp/dst" "/tmp/wrk"
           [("files" : str,
             YList [YDict [("dst" : str, YStr "foo[1-2].txt");
                           ("src" : str, YStr "foo.template")]])]
           [("dst" : str, YStr "foo[1-2].txt"); ("src" : str, YStr "foo.template")]
           [] [] "foo[1-2].txt"
           ["/tmp/dst/foo1.txt" : str; "/tmp/dst/foo2.txt" : str]).
  - reflexivity.
  - reflexivity.
  - reflexivity.
  - vm_compute. reflexivity.
  - cbn. lia.
Defined.

(** X20. A file specification without [src] whose [dst] expands to more
    than one path cannot have a [symlink]: [compute_mapping] fails. *)
Theorem symlink_with_expanding_dst_fails
    (env : Env) (output_dir working_dir : str) (conf d : dict)
    (pre post : list yaml) (t : str) (srcs : list str) :
  dict_get "files" conf = Some (YList (pre ++ YDict d :: post)) ->
  dict_has "src" d = false ->
  dict_has "symlink" d = true ->
  dict_get "dst" d = Some (YStr t) ->
  Utils.parse_file_paths env (Utils.get_path env t "") = Ok srcs ->
  1 < length srcs ->
  exists e, Config.compute_mapping env output_dir working_dir (YDict conf) = Err e.
Proof.
  intros Hfiles Hsrc Hsym Hdst Hexp Hlen.
  eapply MappingMore.compute_mapping_fails; [exact Hfiles|].
  intros vars. unfold Config.map_spec. cbn [getitem contains_key]. rewrite Hdst, Hsrc.
  cbn [bind]. unfold Config.map_dst. cbn [Utils.get_path_of bind]. rewrite Hexp.
  cbn [rethrow bind].
  destruct srcs as [|p1 [|p2 srcs]]; cbn in Hlen; try lia. cbn [PosixPath.is_nil].
  destruct (Config.traverse _ (p1 :: p2 :: srcs)) as [rels|]; cbn [bind]; [|eauto].
  destruct (Config.check_exist env SrcNotExisting _) as [[]|]; cbn [bind]; [|eauto].
  cbn [contains_key]. rewrite Hsym. cbn. eauto.
Qed.

Lemma symlink_with_expanding_dst_fails_witness :
  exists e,
    Config.compute_mapping test_env "/tmp/dst" "/tmp/wrk"
      (YDict [("files" : str,
               YList [YDict [("dst" : str, YStr "foo[1-2].txt");
                             ("symlink" : str, YStr "links/foo")]])]) = Err e.
Proof.
  apply (symlink_with_expanding_dst_fails test_env "/tmp/dst" "/tmp/wrk"
           [("files" : str,
             YList [YDict [("dst" : str, YStr "foo[1-2].txt");
                           ("symlink" : str, YStr "links/foo")]])]
           [("dst" : str, YStr "foo[1-2].txt"); ("symlink" : str, YStr "links/foo")]
           [] [] "foo[1-2].txt"
           ["/tmp/src/foo1.txt" : str; "/tmp/src/foo2.txt" : str]).
  - reflexivity.
  - reflexivity.
  - reflexivity.
  - reflexivity.
  - vm_compute. reflexivity.
  - cbn. lia.
Defined.

(** ** validate *)

Module ValidateFacts.
Import Config.

Lemma existsb_false_Forall {A} (f : A -> bool) (l : list A) :
  existsb f l = false <-> Forall (fun x => f x = false) l.
Proof.
  induction l as [|x l IH]; cbn [existsb].
  - split; [constructor|done].
  - rewrite orb_false_iff, IH, Forall_cons. done.
Qed.

Lemma validate_files_ok (conf : dict) :
  validate_files conf = inr tt <->
  (forall files, dict_get "files" conf = Some files ->
     exists specs, files = YList specs
       /\ Forall (fun t => exists d, t = YDict d /\ dict_has "dst" d = true) specs).
Proof.
  unfold validate_files, dict_has.
  destruct (dict_get "files" conf) as [files|]; [|split; [intros _ ? [=]|done]].
  destruct files as [| | | |specs|];
    try (split; [discriminate|intros H; by destruct (H _ eq_refl) as (? & [=] & _)]).
  destruct (existsb (fun t => negb (is_dict t)) specs) eqn:E1.
  { split; [discriminate|]. intros H. destruct (H _ eq_refl) as (specs' & [= <-] & HF).
    apply not_false_iff_true in E1. destruct E1. apply existsb_false_Forall.
    eapply Forall_impl; [exact HF|]. by intros t (d & -> & _). }
  destruct (existsb (fun t => negb (contains_key "dst" t)) specs) eqn:E2.
  { split; [discriminate|]. intros H. destruct (H _ eq_refl) as (specs' & [= <-] & HF).
    apply not_false_iff_true in E2. destruct E2. apply existsb_false_Forall.
    eapply Forall_impl; [exact HF|]. intros t (d & -> & Hd). cbn. unfold dict_has in *.
    by destruct (dict_get "dst" d). }
  split; [|done]. intros _ files [= <-]. exists specs. split; [done|].
  apply existsb_false_Forall in E1, E2.
  apply Stdlib.Lists.List.Forall_forall. intros t Ht.
  rewrite Stdlib.Lists.List.Forall_forall in E1, E2.
  specialize (E1 t Ht). specialize (E2 t Ht).
  destruct t; try discriminate. cbn in E2. exists d. split; [done|].
  unfold dict_has in E2. by destruct (dict_get "dst" d).
Qed.

Lemma validate_lib_ok (conf : dict) :
  validate_lib conf = inr tt <->
  (forall lib, dict_get "lib" conf = Some lib ->
     exists ps, lib = YList ps /\ Forall (fun p => exists s, p = YStr s) ps).
Proof.
  unfold validate_lib, dict_has.
  destruct (dict_get "lib" conf) as [lib|]; [|split; [intros _ ? [=]|done]].
  destruct lib as [| | | |ps|];
    try (split; [discriminate|intros H; by destruct (H _ eq_refl) as (? & [=] & _)]).
  destruct (existsb (fun l => negb (is_str l)) ps) eqn:E1.
  { split; [discriminate|]. intros H. destruct (H _ eq_refl) as (ps' & [= <-] & HF).
    apply not_false_iff_true in E1. destruct E1. apply existsb_false_Forall.
    eapply Forall_impl; [exact HF|]. by intros t (d & ->). }
  split; [|done]. intros _ lib [= <-]. exists ps. split; [done|].
  apply existsb_false_Forall in E1.
  eapply Forall_impl; [exact E1|]. intros t Ht. destruct t; try discriminate. eauto.
Qed.






Lemma validate_ok (conf : dict) :
  validate conf = inr tt <->
  (forall files, dict_get "files" conf = Some files ->
     exists specs, files = YList specs
       /\ Forall (fun t => exists d, t = YDict d /\ dict_has "dst" d = true) specs)
  /\ (forall lib, dict_get "lib" conf = Some lib ->
        exists ps, lib = YList ps /\ Forall (fun p => exists s, p = YStr s) ps).
Proof.
  rewrite <- validate_files_ok, <- validate_lib_ok.
  unfold validate. destruct (validate_files conf) as [e|[]]; [|tauto].
  split; [discriminate|]. by intros [[=] _].
Qed.

End ValidateFacts.

(** X21. [validate] returns exactly on the well-formed configurations: a
    [files] key, if present, holds a list of mappings that each have a
    [dst] key, and a [lib] key, if present, holds a list of strings. *)
Theorem validate_accepts_iff (conf : dict) :
  validate conf = inr tt <->
  (forall files, dict_get "files" conf = Some files ->
     exists specs, files = YList specs
       /\ Forall (fun t => exists d, t = YDict d /\ dict_has "dst" d = true) specs)
  /\ (forall lib, dict_get "lib" conf = Some lib ->
        exists ps, lib = YList ps /\ Forall (fun p => exists s, p = YStr s) ps).
Proof. apply ValidateFacts.validate_ok. Qed.

(** X22. [validate] does not require the [files] key, which
    [compute_mapping] reads unconditionally: a configuration without
    [files] and [lib] passes the validation, and [compute_mapping]
    raises [KeyError] on it. *)
Theorem files_key_not_validated
    (env : Env) (output_dir working_dir : str) (conf : dict) :
  dict_has "files" conf = false ->
  dict_has "lib" conf = false ->
  validate conf = inr tt
  /\ Config.compute_mapping env output_dir working_dir (YDict conf) = Err (Builtin KeyError).
Proof.
  intros Hfiles Hlib. split.
  - unfold validate, validate_files, validate_lib. by rewrite Hfiles, Hlib.
  - unfold Config.compute_mapping. cbn [getitem]. unfold dict_has in Hfiles.
    by destruct (dict_get "files" conf).
Qed.

Lemma files_key_not_validated_witness :
  validate [("x" : str, YInt 1)] = inr tt
  /\ Config.compute_mapping test_env "/tmp/dst" "/tmp/wrk" (YDict [("x" : str, YInt 1)])
     = Err (Builtin KeyError).
Proof.
  apply (files_key_not_validated test_env "/tmp/dst" "/tmp/wrk" [("x" : str, YInt 1)]);
    reflexivity.
Defined.



(** ** get_path *)

Module GetPathFacts.
Import PyStr.

Lemma startswith_slash (s : str) :
  startswith "/" s = true <-> exists r, s = "/"%char :: r.
Proof.
  change (lit "/") with ["/"%char]. destruct s as [|x s]; cbn [startswith].
  - split; [discriminate|]. by intros [r [=]].
  - rewrite andb_true_r. split.
    + intros <-%Ascii.eqb_eq. eauto.
    + intros [r [= -> _]]. apply Ascii.eqb_refl.
Qed.

Lemma normpath_absolute (p : str) :
  startswith "/" p = true -> startswith "/" (PosixPath.normpath p) = true.
Proof.
  intros Hp. unfold PosixPath.normpath.
  apply startswith_slash in Hp as Hp'. destruct Hp' as [r ->].
  change (eqb ("/"%char :: r) "") with false. cbv iota.
  unfold PosixPath.initial_slashes. rewrite Hp.
  destruct (startswith "//" _ && _); cbn [repeat app]; by change (eqb (_ :: _) "") with false.
Qed.

Lemma join_absolute (a b : str) :
  startswith "/" a = true -> startswith "/" (PosixPath.join a b) = true.
Proof.
  intros Ha. unfold PosixPath.join. destruct (startswith "/" b) eqn:Hb; [done|].
  apply startswith_slash in Ha as [r ->].
  by destruct (eqb _ "" || endswith "/" _).
Qed.

End GetPathFacts.

(** X24. A template path that does not start with a tilde, resolved against
    an absolute base, is an absolute path. *)
Theorem get_path_absolute (env : Env) (template_path base_path : str) :
  PyStr.startswith "/" base_path = true ->
  PyStr.startswith "~" template_path = false ->
  PyStr.startswith "/" (Utils.get_path env template_path base_path) = true.
Proof.
  intros Hbase Htilde. unfold Utils.get_path.
  destruct (PyStr.startswith "/" template_path) eqn:Hp; [done|]. rewrite Htilde.
  apply GetPathFacts.startswith_slash in Hbase as Hb. destruct Hb as [r ->].
  change (negb (PyStr.eqb ("/"%char :: r) "")) with true. cbv iota.
  pose proof (GetPathFacts.join_absolute _ template_path Hbase) as Hj.
  destruct (PyStr.contains "../" _).
  - unfold PosixPath.abspath, PosixPath.isabs. rewrite Hj.
    by apply GetPathFacts.normpath_absolute.
  - by apply GetPathFacts.normpath_absolute.
Qed.

Lemma get_path_absolute_witness :
  PyStr.startswith "/" (Utils.get_path test_env "a/../foo.txt" "/tmp/dst") = true.
Proof.
  apply (get_path_absolute test_env "a/../foo.txt" "/tmp/dst"); reflexivity.
Defined.

(** ** jfuncs *)

Module JFuncsFacts.
Import PyStr JFuncs.

Lemma has_rev (c : ascii) (s : str) : has c (rev s) = has c s.
Proof.
  induction s as [|x s IH]; [done|]. cbn [rev has].
  rewrite StrFacts.has_app, IH. cbn [has]. rewrite orb_false_r. apply orb_comm.
Qed.

Lemma split1_fst_has (c : ascii) (s : str) : has c (fst (split1 c s)) = false.
Proof.
  induction s as [|x s IH]; [done|]. cbn [split1].
  destruct (Ascii.eqb x c) eqn:E; [done|].
  destruct (split1 c s) as [a b]. cbn [fst has] in *. by rewrite E, IH.
Qed.

Lemma basename_no_slash (p : str) : has "/" (basename p) = false.
Proof. unfold basename. rewrite has_rev. apply split1_fst_has. Qed.

End JFuncsFacts.

(** X25. [t_file_ext] never raises, and with [t_file_name] it splits the
    base name of a path at its first dot: the base name is the name,
    followed by a dot and the extension when it has a dot; the name has
    no dot and no slash. *)
Theorem file_name_and_extension (path : str) :
  exists ext,
    JFuncs.t_file_ext path = Ok ext
    /\ JFuncs.basename path
       = JFuncs.t_file_name path
         ++ (if PyStr.has "." (JFuncs.basename path) then "." ++ ext else lit "")
    /\ PyStr.has "." (JFuncs.t_file_name path) = false
    /\ PyStr.has "/" (JFuncs.t_file_name path) = false
    /\ (PyStr.has "." (JFuncs.basename path) = false -> ext = lit "").
Proof.
  unfold JFuncs.t_file_ext, JFuncs.t_file_name.
  pose proof (JFuncsFacts.basename_no_slash path) as Hslash.
  destruct (PyStr.has "." (JFuncs.basename path)) eqn:Hdot; cbn [negb].
  - destruct (StrFacts.split1_has _ _ Hdot) as (a & b & Hs & Hb & Ha).
    rewrite Hs. cbn [fst snd Utils.of_option]. exists b.
    split; [done|]. split; [exact Hb|]. split; [done|]. split; [|done].
    rewrite Hb, StrFacts.has_app in Hslash. by apply orb_false_iff in Hslash as [? _].
  - exists (lit ""). split; [done|]. split; [by rewrite app_nil_r|]. by repeat split.
Qed.

(** X26. [t_domain_join] of labels that have no dot left once their leading
    and trailing dots are stripped: the dot-separated labels of the
    result are the stripped arguments. *)
Theorem domain_join_labels (variables : list str) :
  variables <> [] ->
  forallb (fun x => negb (PyStr.has "." (JFuncs.strip "." x))) variables = true ->
  PyStr.split "." (JFuncs.t_domain_join variables) = map (JFuncs.strip ".") variables.
Proof.
  intros Hne Hall. unfold JFuncs.t_domain_join. change (lit ".") with ["."%char].
  apply ExpandMore.split_join_sep.
  - by destruct variables.
  - clear Hne. induction variables as [|x xs IH]; [done|]. cbn [map forallb] in *.
    apply andb_true_iff in Hall as [-> Hxs]. by rewrite IH.
Qed.

Lemma domain_join_labels_witness :
  PyStr.split "." (JFuncs.t_domain_join ["www." : str; "example" : str; ".com" : str])
  = map (JFuncs.strip ".") ["www." : str; "example" : str; ".com" : str].
Proof.
  apply (domain_join_labels ["www." : str; "example" : str; ".com" : str]);
    [discriminate|reflexivity].
Defined.

(** ** The selection of a configuration file *)

Module SelectFacts.
Import PyStr Select.

Lemma mem_In (x : str) (files : list str) : mem x files = true <-> In x files.
Proof.
  unfold mem. rewrite existsb_exists. split.
  - by intros (y & Hy & <-%str_eqb_eq).
  - intros H. exists x. split; [done|apply str_eqb_refl].
Qed.

Lemma endswith_app (a p : str) : endswith p (a ++ p) = true.
Proof. unfold endswith. rewrite rev_app_distr. apply StrFacts.startswith_app. Qed.

Lemma simple_matches_yaml (hostname fqdn x : str) :
  In x (simple_matches hostname fqdn) ->
  endswith ".yaml" x = true \/ endswith ".yml" x = true.
Proof.
  unfold simple_matches.
  intros [<-|[<-|[<-|[<-|[<-|[<-|[]]]]]]];
    first [left; apply endswith_app | right; apply endswith_app
          | left; reflexivity | right; reflexivity].
Qed.

End SelectFacts.

(** X27. The selection of a configuration file in a directory: the file
    selected is one of the files of the directory and its name ends in
    [.yaml] or [.yml]; [next] never runs out; and [tmpl.yaml] is
    selected whenever the directory has it. *)
Theorem select_conf_sound (files : list str) (hostname fqdn : str) :
  (forall x, Select.select_conf files hostname fqdn = inr x ->
     In x files
     /\ (PyStr.endswith ".yaml" x = true \/ PyStr.endswith ".yml" x = true))
  /\ Select.select_conf files hostname fqdn <> inl Select.StopIteration
  /\ (In (lit "tmpl.yaml") files ->
      Select.select_conf files hostname fqdn = inr (lit "tmpl.yaml")).
Proof.
  unfold Select.select_conf. split; [|split].
  - intros x. destruct (PosixPath.is_nil files); [discriminate|].
    destruct (existsb _ (Select.simple_matches hostname fqdn)).
    + destruct (find _ (Select.simple_matches hostname fqdn)) as [y|] eqn:E; [|discriminate].
      intros [= <-]. apply find_some in E as [Hin Hmem].
      split; [by apply SelectFacts.mem_In|by eapply SelectFacts.simple_matches_yaml].
    + destruct (existsb (Select.host_match hostname) files); [|discriminate].
      destruct (find _ files) as [y|] eqn:E; [|discriminate].
      intros [= <-]. apply find_some in E as [Hin Hm]. split; [done|].
      unfold Select.host_match in Hm. apply andb_true_iff in Hm as [Hm _].
      by apply orb_true_iff in Hm.
  - destruct (PosixPath.is_nil files); [discriminate|].
    destruct (existsb _ (Select.simple_matches hostname fqdn)) eqn:E1.
    + destruct (find _ (Select.simple_matches hostname fqdn)) as [y|] eqn:E; [discriminate|].
      apply existsb_exists in E1 as (y & Hy & Hm).
      by rewrite (find_none _ _ E y Hy) in Hm.
    + destruct (existsb (Select.host_match hostname) files) eqn:E2; [|discriminate].
      destruct (find _ files) as [y|] eqn:E; [discriminate|].
      apply existsb_exists in E2 as (y & Hy & Hm).
      by rewrite (find_none _ _ E y Hy) in Hm.
  - intros Hin. destruct files as [|f files]; [done|]. cbn [PosixPath.is_nil].
    apply SelectFacts.mem_In in Hin.
    unfold Select.simple_matches. cbn [existsb find]. by rewrite Hin.
Qed.

(** ** translate_templates and write_output *)

Module MainFacts.
Import Main.

Lemma py_eq_str (v : yaml) (s : str) : py_eq v (YStr s) = true <-> v = YStr s.
Proof.
  destruct v; cbn; try (split; discriminate).
  rewrite str_eqb_eq. split; [by intros ->|by intros [= ->]].
Qed.

Lemma filter_all {A} (f : A -> bool) (l : list A) :
  (forall x, In x l -> f x = true) -> List.filter f l = l.
Proof.
  induction l as [|x l IH]; intros H; cbn; [done|].
  rewrite (H x (or_introl eq_refl)), IH; [done|]. intros y Hy. apply H. by right.
Qed.

Lemma filter_none {A} (f : A -> bool) (l : list A) :
  (forall x, In x l -> f x = false) -> List.filter f l = [].
Proof.
  induction l as [|x l IH]; intros H; cbn; [done|].
  rewrite (H x (or_introl eq_refl)), IH; [done|]. intros y Hy. apply H. by right.
Qed.

Section programs.
Variable wd : World.

Lemma pbind_pret {A B} (a : A) (k : A -> prog wd B) (w : state wd) :
  pbind wd (pret wd a) k w = k a w.
Proof. unfold pbind, pret. by destruct (k a w) as [[w2 t2] r]. Qed.

Lemma pbind_query {A B} (f : state wd -> A) (k : A -> prog wd B) (w : state wd) :
  pbind wd (query wd f) k w = k (f w) w.
Proof. unfold pbind, query. by destruct (k (f w) w) as [[w2 t2] r]. Qed.

Abbreviation emits := (Main.emits wd).

Lemma emits_pret {A} P (a : A) : emits P (pret wd a).
Proof. intros w. constructor. Qed.

Lemma emits_bail {A} P ec : emits P (bail wd (A := A) ec).
Proof. intros w. constructor. Qed.

Lemma emits_query {A} P (f : state wd -> A) : emits P (query wd f).
Proof. intros w. constructor. Qed.

Lemma emits_call P e ec : P e -> emits P (call wd e ec).
Proof.
  intros He w. unfold call, trace. destruct (perform wd e w) as [w' [code|]]; cbn;
    by repeat constructor.
Qed.

Lemma emits_pbind {A B} P (p : prog wd A) (k : A -> prog wd B) :
  emits P p -> (forall a, emits P (k a)) -> emits P (pbind wd p k).
Proof.
  intros Hp Hk w. unfold pbind, trace. specialize (Hp w). unfold trace in Hp.
  destruct (p w) as [[w1 t1] [a|ec|e]]; cbn in *; try done.
  specialize (Hk a w1). unfold trace in Hk.
  destruct (k a w1) as [[w2 t2] r]; cbn in *. by apply Forall_app.
Qed.

Lemma emits_when P (b : bool) (p : prog wd unit) :
  (b = true -> emits P p) -> emits P (when wd b p).
Proof. destruct b; cbn; [by intros H; apply H|intros _; apply emits_pret]. Qed.

Lemma emits_for_each {A} P (xs : list A) (body : A -> prog wd unit) :
  (forall x, In x xs -> emits P (body x)) -> emits P (for_each wd xs body).
Proof.
  induction xs as [|x xs IH]; intros H; cbn [for_each]; [apply emits_pret|].
  apply emits_pbind; [apply H; by left|]. intros _. apply IH. intros y Hy. apply H. by right.
Qed.

Lemma emits_run_checked P c ec : P (RunProcess c) -> emits P (run_checked wd c ec).
Proof.
  intros H. unfold run_checked. apply emits_pbind; [by apply emits_call|].
  intros code. apply emits_when. intros _. apply emits_bail.
Qed.



(** A loop whose rounds all return: the paths written are those of the
    rounds, in order. *)
Lemma for_each_targets {A} (xs : list A) (body : A -> prog wd unit) (f : A -> list str) :
  (forall x w, In x xs ->
     exists w' tr, body x w = (w', tr, Return tt) /\ targets tr = f x) ->
  forall w, exists w' tr,
    for_each wd xs body w = (w', tr, Return tt) /\ targets tr = flat_map f xs.
Proof.
  induction xs as [|x xs IH]; intros H w; cbn [for_each flat_map].
  - by exists w, [].
  - destruct (H x w (or_introl eq_refl)) as (w1 & t1 & E1 & T1).
    destruct (IH (fun y w Hy => H y w (or_intror Hy)) w1) as (w2 & t2 & E2 & T2).
    exists w2, (t1 ++ t2). unfold pbind. rewrite E1, E2. split; [done|].
    unfold targets in *. by rewrite flat_map_app, T1, T2.
Qed.

Hypothesis no_raise : forall e w, snd (perform wd e w) <> None.

Lemma call_returns (e : effect) (ec : nat) (w : state wd) :
  exists w' code, call wd e ec w = (w', [e], Return code).
Proof.
  unfold call. specialize (no_raise e w).
  destruct (perform wd e w) as [w' [code|]]; [eauto|done].
Qed.

Lemma ensure_dir_returns (p : str) (ec : nat) (w : state wd) :
  exists w' tr, ensure_dir wd p ec w = (w', tr, Return tt) /\ targets tr = [].
Proof.
  unfold ensure_dir. rewrite pbind_query. destruct (isdir wd w p); cbn [negb when].
  - by exists w, [].
  - destruct (call_returns (Makedirs p) ec w) as (w' & code & E).
    exists w', [Makedirs p]. unfold pbind. rewrite E. by cbn.
Qed.

Lemma translate_one_returns (spec : yaml) (m : Config.path_mapping) (w : state wd) :
  exists w' tr,
    translate_one wd spec m w = (w', tr, Return tt) /\ targets tr = [Config.full_wrk m].
Proof.
  unfold translate_one. destruct (truthy (Config.translate m)).
  - destruct (call_returns (GetTemplate (Config.rel_src m)) 8 w) as (w1 & c1 & E1).
    destruct (call_returns (Render (Config.rel_src m)
                              (JFuncs.basename (Config.rel_dst m)) spec) 8 w1)
      as (w2 & c2 & E2).
    destruct (ensure_dir_returns (PosixPath.dirname (Config.full_wrk m)) 8 w2)
      as (w3 & t3 & E3 & T3).
    destruct (call_returns (WriteRendered (Config.full_wrk m)) 8 w3) as (w4 & c4 & E4).
    eexists _, _. unfold pbind. rewrite E1, E2, E3, E4. cbn [pret]. split; [reflexivity|].
    unfold targets in *. rewrite !flat_map_app, T3. by cbn.
  - destruct (ensure_dir_returns (PosixPath.dirname (Config.full_wrk m)) 8 w)
      as (w3 & t3 & E3 & T3).
    destruct (call_returns (CopyFile (Config.full_src m) (Config.full_wrk m)) 8 w3)
      as (w4 & c4 & E4).
    eexists _, _. unfold pbind. rewrite E3, E4. cbn [pret]. split; [reflexivity|].
    unfold targets in *. rewrite !flat_map_app, T3. by cbn.
Qed.

Lemma specs_loop (env : Env) (out wrk : str) (specs : list yaml)
    (groups : list (list Config.path_mapping)) :
  Forall2 (fun spec g => g <> [] /\ Forall (mapped_from env out wrk spec) g
                         /\ (contains_key "symlink" spec = true -> length g = 1))
    specs groups ->
  NoDup (map (fun spec => getitem spec "dst") specs) ->
  forall pre,
    (forall m spec, In m pre -> In spec specs ->
       getitem spec "dst" <> Ok (Config.dst_key m)) ->
    forall w, exists w' tr,
      for_each wd specs (translate_spec wd (pre ++ concat groups)) w = (w', tr, Return tt)
      /\ targets tr = map Config.full_wrk (concat groups).
Proof.
  induction 1 as [|spec g specs groups (Hne & Hg & _) HF IH]; intros Hnd pre Hpre w.
  { by exists w, []. }
  cbn [map] in Hnd. apply NoDup_cons in Hnd as [Hspec Hnd].
  rewrite Stdlib.Lists.List.Forall_forall in Hg.
  assert (Hdst : exists s, getitem spec "dst" = Ok (YStr s)
                           /\ forall m, In m g -> Config.dst_key m = YStr s).
  { destruct g as [|m0 g']; [done|].
    destruct (Hg m0 (or_introl eq_refl)) as (H0 & [s Hs] & _).
    exists s. rewrite H0, Hs. split; [done|]. intros m Hm.
    destruct (Hg m Hm) as (H1 & _). rewrite H0, Hs in H1. by injection H1. }
  destruct Hdst as (s & Hs & Hkeys).
  assert (Hrest : forall m, In m (concat groups) -> Config.dst_key m <> YStr s).
  { intros m Hm Heq. apply in_concat in Hm as (g' & Hg' & Hm).
    destruct (MappingMore.Forall2_In_r _ _ _ _ HF Hg') as (spec' & Hin' & _ & Hmf & _).
    rewrite Stdlib.Lists.List.Forall_forall in Hmf.
    destruct (Hmf m Hm) as (H1 & _). rewrite Heq, <- Hs in H1.
    apply Hspec. rewrite <- H1. apply list_elem_of_In, in_map_iff. by exists spec'. }
  assert (Hfilter : List.filter (fun m => py_eq (Config.dst_key m) (YStr s))
                      (pre ++ concat (g :: groups)) = g).
  { cbn [concat]. rewrite !Stdlib.Lists.List.filter_app.
    rewrite (filter_none _ pre), (filter_all _ g), (filter_none _ (concat groups)).
    - by rewrite app_nil_r.
    - intros m Hm. apply not_true_iff_false. intros Heq%py_eq_str. by apply (Hrest m).
    - intros m Hm. apply py_eq_str. by apply Hkeys.
    - intros m Hm. apply not_true_iff_false. intros Heq%py_eq_str.
      apply (Hpre m spec Hm (or_introl eq_refl)). by rewrite Hs, Heq. }
  destruct (for_each_targets g (translate_one wd spec) (fun m => [Config.full_wrk m])
              (fun m w _ => translate_one_returns spec m w) w) as (w1 & t1 & E1 & T1).
  destruct (IH Hnd (pre ++ g)) with (w := w1) as (w2 & t2 & E2 & T2).
  { intros m spec' [Hm|Hm]%in_app_or Hin'.
    - apply Hpre; [done|by right].
    - rewrite (Hkeys m Hm), <- Hs. intros Heq. apply Hspec. rewrite <- Heq.
      apply list_elem_of_In, in_map_iff. by exists spec'. }
  exists w2, (t1 ++ t2). cbn [for_each]. unfold pbind at 1.
  unfold translate_spec at 1. rewrite Hs. cbn [lift]. rewrite pbind_pret.
  cbn [lift fsubstep]. rewrite pbind_pret.
  rewrite Hfilter, E1. cbn [concat]. rewrite <- app_assoc in E2. rewrite E2.
  split; [done|]. unfold targets in *. rewrite flat_map_app, T1, T2, map_app.
  f_equal. all: clear; induction g as [|m g IH]; [done|]; cbn; by rewrite IH.
Qed.

End programs.




End MainFacts.

(** X28. After [compute_mapping], when the file specifications have pairwise
    distinct [dst] values and no call raises, [translate_templates]
    returns and has written, by rendering or by copying, exactly one
    file for each mapping: the [full_wrk] of the mappings, in their
    order. *)
Theorem each_mapping_translated_once
    (wd : Main.World) (env : Env) (output_dir working_dir : str) (conf : yaml)
    (ms : list Config.path_mapping) (specs : list yaml) (w : Main.state wd) :
  Config.compute_mapping env output_dir working_dir conf = Ok ms ->
  (do files <- getitem conf "files"; iter_values files) = Ok specs ->
  NoDup (map (fun spec => getitem spec "dst") specs) ->
  (forall e w, snd (Main.perform wd e w) <> None) ->
  exists w' tr,
    Main.translate_templates wd conf ms w = (w', tr, Main.Return tt)
    /\ Main.targets tr = map Config.full_wrk ms.
Proof.
  intros (specs' & groups & Hspecs' & -> & HF)%MappingMore.compute_mapping_inv
    Hspecs Hnd Hok.
  rewrite Hspecs in Hspecs'. injection Hspecs' as <-.
  unfold Main.translate_templates.
  destruct (getitem conf "files") as [files|]; [|discriminate]. cbn [bind] in Hspecs.
  cbn [Main.lift]. rewrite MainFacts.pbind_pret, Hspecs. cbn [Main.lift].
  rewrite MainFacts.pbind_pret.
  apply (MainFacts.specs_loop wd Hok env output_dir working_dir specs groups HF Hnd []).
  by intros m spec [].
Qed.

Lemma each_mapping_translated_once_witness :
  exists ms,
    Config.compute_mapping test_env "/tmp/dst" "/tmp/wrk"
      (files_conf [YDict [("dst" : str, YStr "foo[1-2].txt")];
                   YDict [("dst" : str, YStr "bar.txt"); ("translate" : str, YBool false)]])
    = Ok ms
    /\ exists w' tr,
        Main.translate_templates quiet_world
          (files_conf [YDict [("dst" : str, YStr "foo[1-2].txt")];
                       YDict [("dst" : str, YStr "bar.txt");
                              ("translate" : str, YBool false)]]) ms tt
        = (w', tr, Main.Return tt)
        /\ Main.targets tr = map Config.full_wrk ms.
Proof.
  eexists. split; [vm_compute; reflexivity|].
  apply (each_mapping_translated_once quiet_world test_env "/tmp/dst" "/tmp/wrk"
           (files_conf [YDict [("dst" : str, YStr "foo[1-2].txt")];
                        YDict [("dst" : str, YStr "bar.txt");
                               ("translate" : str, YBool false)]])
           _ [YDict [("dst" : str, YStr "foo[1-2].txt")];
              YDict [("dst" : str, YStr "bar.txt"); ("translate" : str, YBool false)]]).
  - vm_compute. reflexivity.
  - reflexivity.
  - cbn. apply NoDup_cons. split; [|apply NoDup_singleton].
    intros [= ]%list_elem_of_singleton.
  - intros e w. cbn. discriminate.
Defined.



(** X30. What [write_output] may touch.  Every call it makes is the [rsync]
    command line, the creation of the output directory, or, for one of
    the mappings given, a [chmod] or [chown] of its destination with
    its non-empty value, or the removal, the parent directory or the
    creation of its non-empty link; the latter only outside a dry run
    and with the feature enabled on the command line.  It never loads,
    renders, writes or copies a template. *)
Theorem write_output_envelope
    (wd : Main.World) (args : Main.Args) (mapping : list Config.path_mapping)
    (w : Main.state wd) :
  Forall (Main.allowed args mapping) (Main.trace (Main.write_output wd args mapping w)).
Proof.
  revert w. change (Main.emits wd (Main.allowed args mapping)
                      (Main.write_output wd args mapping)).
  unfold Main.write_output.
  apply MainFacts.emits_pbind; [apply MainFacts.emits_query|]. intros d.
  apply MainFacts.emits_pbind.
  { apply MainFacts.emits_when. intros _. apply MainFacts.emits_when.
    intros Hdry%negb_true_iff.
    apply MainFacts.emits_pbind; [|intros; apply MainFacts.emits_pret].
    apply MainFacts.emits_call. cbn. split; [done|by left]. }
  intros _. apply MainFacts.emits_pbind.
  { by apply MainFacts.emits_run_checked. }
  intros _. apply MainFacts.emits_for_each. intros m Hm. unfold Main.finish_one.
  apply MainFacts.emits_pbind.
  { apply MainFacts.emits_when.
    intros [[Hflag Htruthy]%andb_true_iff Hdry%negb_true_iff]%andb_true_iff.
    apply MainFacts.emits_run_checked. cbn. repeat (split; [done|]). by exists m. }
  intros _. apply MainFacts.emits_pbind.
  { apply MainFacts.emits_when.
    intros [[Hflag Htruthy]%andb_true_iff Hdry%negb_true_iff]%andb_true_iff.
    apply MainFacts.emits_run_checked. cbn. repeat (split; [done|]). by exists m. }
  intros _. apply MainFacts.emits_when.
  intros [[Hflag Hlnk]%andb_true_iff Hdry%negb_true_iff]%andb_true_iff.
  apply MainFacts.emits_pbind; [apply MainFacts.emits_query|]. intros is_link.
  apply MainFacts.emits_pbind.
  { destruct is_link.
    - apply MainFacts.emits_pbind; [|intros; apply MainFacts.emits_pret].
      apply MainFacts.emits_call. cbn. repeat (split; [done|]). by exists m.
    - apply MainFacts.emits_pbind; [apply MainFacts.emits_query|]. intros there.
      apply MainFacts.emits_when. intros _. apply MainFacts.emits_bail. }
  intros _. apply MainFacts.emits_pbind; [apply MainFacts.emits_query|]. intros isd.
  apply MainFacts.emits_pbind.
  { apply MainFacts.emits_when. intros _.
    apply MainFacts.emits_pbind; [|intros; apply MainFacts.emits_pret].
    apply MainFacts.emits_call. cbn. split; [done|]. right. split; [done|]. by exists m. }
  intros _. apply MainFacts.emits_pbind; [|intros; apply MainFacts.emits_pret].
  apply MainFacts.emits_call. cbn. repeat (split; [done|]). split.
  - by destruct (Config.full_lnk m).
  - by exists m.
Qed.
